(** * viz-my-money: CSV ingestion and chart aggregation

    A shallow embedding of the CSV upload routines
    ([src/components/dashboard/UploadSection.tsx]) and of the chart
    aggregations (the two [ChartSection] components), together with the
    properties the specification states about them.

    Conventions of the embedding
    - a JavaScript string is the list of its UTF-16 code units ([jsstring]);
    - a JavaScript object used as a dictionary is an association list in
      insertion order, read back through [Object_entries]; the object
      literals of the chart section with a navigator also inherit from
      [Object.prototype] ([ObjectLiteral]);
    - [Array.prototype.sort] is a stable sort driven by the sign of the
      comparator, a [NaN] result counting as [+0];
    - stored amounts are integers counted in hundredths, as the
      [DECIMAL(12, 2)] columns of the transactions table hold them. *)

From Stdlib Require Import String Ascii.
From Stdlib Require Import List ZArith NArith Bool Lia.
From Stdlib Require Import Sorting.Sorted Sorting.Permutation.
From Stdlib Require Import DecimalPos.
Import ListNotations.

(* ================================================================== *)
(** * Part I. Definitions                                              *)
(* ================================================================== *)

(** ** JavaScript strings *)

Module JS.
Local Open Scope N_scope.

Definition jschar := N.
Definition jsstring := list jschar.

(** String literals of the source, written with ASCII characters. *)
Definition js (s : string) : jsstring :=
  map N_of_ascii (list_ascii_of_string s).
Arguments js s%_string.

Definition char_eqb (a b : jschar) : bool := N.eqb a b.

Fixpoint str_eqb (a b : jsstring) : bool :=
  match a, b with
  | [], [] => true
  | x :: a', y :: b' => char_eqb x y && str_eqb a' b'
  | _, _ => false
  end.

(** Code units the source names in character literals: the double quote,
    the comma, the line feed, the hyphen, the slash, the digit zero and
    the space. *)
Definition QUOTE : jschar := 34.
Definition COMMA : jschar := 44.
Definition NEWLINE : jschar := 10.
Definition DASH : jschar := 45.
Definition SLASH : jschar := 47.
Definition ZERO : jschar := 48.
Definition SPACE : jschar := 32.

(** ECMAScript [WhiteSpace] and [LineTerminator] code points, the set
    removed by [String.prototype.trim]. *)
Definition is_ws (c : jschar) : bool :=
  ((9 <=? c) && (c <=? 13)) || (c =? 32) || (c =? 160) || (c =? 5760)
  || ((8192 <=? c) && (c <=? 8202)) || (c =? 8232) || (c =? 8233)
  || (c =? 8239) || (c =? 8287) || (c =? 12288) || (c =? 65279).

Fixpoint trimStart (s : jsstring) : jsstring :=
  match s with
  | [] => []
  | c :: s' => if is_ws c then trimStart s' else s
  end.

Definition trimEnd (s : jsstring) : jsstring := rev (trimStart (rev s)).

Definition trim (s : jsstring) : jsstring := trimEnd (trimStart s).

(** [\d] of a regular expression without the [u] flag: ASCII digits. *)
Definition is_digit (c : jschar) : bool := (48 <=? c) && (c <=? 57).

Fixpoint startsWith (p s : jsstring) : bool :=
  match p, s with
  | [], _ => true
  | x :: p', y :: s' => char_eqb x y && startsWith p' s'
  | _ :: _, [] => false
  end.

Definition endsWith (p s : jsstring) : bool := startsWith (rev p) (rev s).

Fixpoint includes (p s : jsstring) : bool :=
  startsWith p s ||
  match s with
  | [] => false
  | _ :: s' => includes p s'
  end.

(** [s.split(c)] for a separator of one code unit: never empty. *)
Fixpoint split_on (sep : jschar -> bool) (s : jsstring) : list jsstring :=
  match s with
  | [] => [[]]
  | c :: s' =>
      if sep c then [] :: split_on sep s'
      else match split_on sep s' with
           | [] => [[c]]
           | w :: ws => (c :: w) :: ws
           end
  end.

(** [s.replace(/c/g, empty)]: every occurrence of [c] removed. *)
Definition remove_all (c : jschar) (s : jsstring) : jsstring :=
  filter (fun x => negb (char_eqb x c)) s.

(** [s.padStart(n, zero)]. *)
Definition padStart0 (n : nat) (s : jsstring) : jsstring :=
  repeat ZERO (n - length s)%nat ++ s.

Definition is_empty (s : jsstring) : bool :=
  match s with [] => true | _ => false end.

Fixpoint takeWhile (p : jschar -> bool) (s : jsstring) : jsstring :=
  match s with
  | c :: s' => if p c then c :: takeWhile p s' else []
  | [] => []
  end.

Fixpoint dropWhile (p : jschar -> bool) (s : jsstring) : jsstring :=
  match s with
  | c :: s' => if p c then dropWhile p s' else s
  | [] => []
  end.

(** ** Regular expressions of the shape [^c1{a1,b1} ... cn{an,bn}$]

    Each item is a character class with a repetition range; the whole
    string has to be consumed, as the anchors demand. *)
Record re_item := ReItem {
  re_class : jschar -> bool;
  re_min : nat;
  re_max : nat
}.

Fixpoint re_test (items : list re_item) (s : jsstring) : bool :=
  match items with
  | [] => is_empty s
  | it :: rest =>
      existsb
        (fun k => (k <=? length s)%nat
                  && forallb (re_class it) (firstn k s)
                  && re_test rest (skipn k s))
        (seq (re_min it) (S (re_max it) - re_min it))
  end.

(** Declarative reading of [re_test]: the string splits into one block
    per item, each block within the item's class and length range. *)
Inductive re_matches : list re_item -> jsstring -> Prop :=
| re_matches_nil : re_matches [] []
| re_matches_cons it rest a b :
    (re_min it <= length a <= re_max it)%nat ->
    forallb (re_class it) a = true ->
    re_matches rest b ->
    re_matches (it :: rest) (a ++ b).

(** ** Numbers

    A number is [NaN], an infinity, or a signed decimal [mant * 10^exp10]
    kept exactly; the sign is kept apart so that the negative zero of
    [parseFloat] is represented. *)
Inductive number :=
| NaN
| Infinity (neg : bool)
| Finite (neg : bool) (mant : N) (exp10 : Z).

Definition zero : number := Finite false 0 0.

(** [ToBoolean] on numbers: [NaN] and both zeros are falsy. *)
Definition truthy (x : number) : bool :=
  match x with
  | NaN => false
  | Infinity _ => true
  | Finite _ m _ => negb (m =? 0)
  end.

(** [x || 0]. *)
Definition or_zero (x : number) : number := if truthy x then x else zero.

(** [x < 0]. *)
Definition is_negative (x : number) : bool :=
  match x with
  | NaN => false
  | Infinity n => n
  | Finite n m _ => n && negb (m =? 0)
  end.

(** [x === 0] (either zero). *)
Definition is_zero (x : number) : bool :=
  match x with
  | Finite _ m _ => m =? 0
  | _ => false
  end.

Definition digit_val (c : jschar) : N := c - 48.

Definition digits_to_N (ds : jsstring) : N :=
  fold_left (fun acc c => 10 * acc + digit_val c) ds 0.

Definition PLUS : jschar := 43.
Definition DOT : jschar := 46.

(** The sign prefix of a literal: its flag and the rest. *)
Definition read_sign (s : jsstring) : bool * jsstring :=
  match s with
  | c :: s' =>
      if char_eqb c DASH then (true, s')
      else if char_eqb c PLUS then (false, s')
      else (false, s)
  | [] => (false, [])
  end.

(** The exponent part [e], [E] followed by an optional sign and at least
    one digit; anything else contributes no exponent. *)
Definition read_exponent (s : jsstring) : Z :=
  match s with
  | c :: s' =>
      if char_eqb c 101 || char_eqb c 69 then
        let (neg, s'') := read_sign s' in
        match takeWhile is_digit s'' with
        | [] => 0%Z
        | ds => if neg then (- Z.of_N (digits_to_N ds))%Z
                else Z.of_N (digits_to_N ds)
        end
      else 0%Z
  | [] => 0%Z
  end.

(** [parseFloat]: leading whitespace is skipped and the longest prefix
    that is a [StrDecimalLiteral] is read; [NaN] when there is none.
    The value is kept as the decimal that is written.  The code holds
    the double nearest to it: numerals of up to 15 significant digits
    are told apart by their doubles, and rounding, underflow and
    overflow beyond that are not part of the model. *)
Definition parseFloat (s : jsstring) : number :=
  let (neg, body) := read_sign (trimStart s) in
  if startsWith (js "Infinity") body then Infinity neg
  else
    let int_part := takeWhile is_digit body in
    let after_int := dropWhile is_digit body in
    let frac_part :=
      match after_int with
      | c :: r => if char_eqb c DOT then takeWhile is_digit r else []
      | [] => []
      end in
    let after_frac :=
      match after_int with
      | c :: r => if char_eqb c DOT then dropWhile is_digit r else after_int
      | [] => []
      end in
    if is_empty int_part && is_empty frac_part then NaN
    else Finite neg (digits_to_N (int_part ++ frac_part))
                (read_exponent after_frac - Z.of_nat (length frac_part)).

(** ** Arrays: [sort] and [slice]

    [Array.prototype.sort(compare)] is stable, and a comparator result
    that is [NaN] counts as [+0]; the comparator returns [None] for [NaN].
    The model inserts each element, from the right, in front of the
    first element it does not have to follow. *)
Section Sort.

Context {A : Type}.
Variable compare : A -> A -> option Z.

Definition keeps_before (a b : A) : bool :=
  match compare a b with
  | Some v => (v <=? 0)%Z
  | None => true
  end.

Fixpoint sort_insert (a : A) (sorted : list A) : list A :=
  match sorted with
  | [] => [a]
  | b :: rest =>
      if keeps_before a b then a :: sorted else b :: sort_insert a rest
  end.

Definition sort (l : list A) : list A := fold_right sort_insert [] l.

End Sort.

(** [l.slice(0, n)]. *)
Definition slice0 {A : Type} (n : nat) (l : list A) : list A := firstn n l.

(** ** Objects used as dictionaries

    The own string-keyed properties in creation order.  What an object
    literal inherits from [Object.prototype] is added in [ObjectLiteral]
    below; [obj_get] and [obj_set] are the reading and the writing of an
    own property. *)
Definition obj (V : Type) : Type := list (jsstring * V).

Fixpoint obj_get {V : Type} (o : obj V) (key : jsstring) : option V :=
  match o with
  | [] => None
  | (k, v) :: rest => if str_eqb k key then Some v else obj_get rest key
  end.

(** [o[key] = v]: an existing property keeps its place. *)
Fixpoint obj_set {V : Type} (o : obj V) (key : jsstring) (v : V) : obj V :=
  match o with
  | [] => [(key, v)]
  | (k, v') :: rest =>
      if str_eqb k key then (k, v) :: rest else (k, v') :: obj_set rest key v
  end.

(** A key that is an array index: a canonical decimal numeral below
    [2^32 - 1]. *)
Definition array_index (key : jsstring) : option N :=
  match key with
  | [] => None
  | c :: rest =>
      if forallb is_digit key && (is_empty rest || negb (char_eqb c ZERO))
         && (digits_to_N key <? 4294967295)
      then Some (digits_to_N key)
      else None
  end.

Definition index_of (key : jsstring) : Z :=
  match array_index key with
  | Some n => Z.of_N n
  | None => 0%Z
  end.

Definition is_array_index (key : jsstring) : bool :=
  match array_index key with Some _ => true | None => false end.

(** [Object.entries(o)]: array-index keys first, in ascending numeric
    order, then the other keys in creation order. *)
Definition Object_entries {V : Type} (o : obj V) : list (jsstring * V) :=
  sort (fun a b => Some (index_of (fst a) - index_of (fst b))%Z)
       (filter (fun e => is_array_index (fst e)) o)
  ++ filter (fun e => negb (is_array_index (fst e))) o.

Definition Object_values {V : Type} (o : obj V) : list V :=
  map snd (Object_entries o).

(** ** Dates

    [new Date(year, monthIndex, day)] in local time, read back with
    [getFullYear] and [getMonth]: the day count of the proleptic
    Gregorian calendar, days since 1970-01-01. *)
Local Open Scope Z_scope.

(** Day of the 400-year era for a year of the era (counted from March),
    a month and a day, and back. *)
Definition doe_of_civil (yoe m d : Z) : Z :=
  let mp := if 2 <? m then m - 3 else m + 9 in
  let doy := (153 * mp + 2) / 5 + d - 1 in
  yoe * 365 + yoe / 4 - yoe / 100 + doy.

Definition days_from_civil (y m d : Z) : Z :=
  let y' := if m <=? 2 then y - 1 else y in
  let era := y' / 400 in
  let yoe := y' - era * 400 in
  era * 146097 + doe_of_civil yoe m d - 719468.

Definition civil_of_doe (doe : Z) : Z * Z * Z :=
  let yoe := (doe - doe / 1460 + doe / 36524 - doe / 146096) / 365 in
  let doy := doe - (365 * yoe + yoe / 4 - yoe / 100) in
  let mp := (5 * doy + 2) / 153 in
  let d := doy - (153 * mp + 2) / 5 + 1 in
  let m := if mp <? 10 then mp + 3 else mp - 9 in
  (yoe, m, d).

Definition civil_from_days (z : Z) : Z * Z * Z :=
  let z := z + 719468 in
  let era := z / 146097 in
  let doe := z - era * 146097 in
  let '(yoe, m, d) := civil_of_doe doe in
  ((if m <=? 2 then 1 else 0) + yoe + era * 400, m, d).

Definition is_leap (y : Z) : bool :=
  ((y mod 4 =? 0) && negb (y mod 100 =? 0)) || (y mod 400 =? 0).

Definition days_in_month (y m : Z) : Z :=
  if m =? 2 then (if is_leap y then 29 else 28)
  else if (m =? 4) || (m =? 6) || (m =? 9) || (m =? 11) then 30 else 31.

(** A valid [Date]: its local calendar day. *)
Record Date := MkDate {
  getFullYear : Z;
  getMonth : Z;       (* 0 .. 11 *)
  getDate : Z
}.

(** The year that a year argument of [new Date] stands for: 0 to 99
    mean 1900 to 1999. *)
Definition full_year (year : Z) : Z :=
  if (0 <=? year) && (year <=? 99) then 1900 + year else year.

(** [new Date(year, monthIndex, day)]: month and day overflow carry
    over, and a day beyond one hundred million days from the epoch gives
    an Invalid Date ([None]). *)
Definition new_Date (year monthIndex day : Z) : option Date :=
  let year := full_year year in
  let ym := year + monthIndex / 12 in
  let mn := monthIndex mod 12 in
  let dayNumber := days_from_civil ym (mn + 1) 1 + day - 1 in
  if Z.abs dayNumber <=? 100000000 then
    let '(y, m, d) := civil_from_days dayNumber in
    Some (MkDate y (m - 1) d)
  else None.

(** [Number(s)] on the strings this development reads: a plain run of
    decimal digits.  Any other string is outside the embedding ([None]),
    as is the [NaN] the source would get from most of them; the strings
    that [Number] does read otherwise, the empty string among them (0),
    occur in no date of the form [YYYY-MM-DD], the form that every
    statement about dates assumes. *)
Definition Number_of_digits (s : jsstring) : option Z :=
  if negb (is_empty s) && forallb is_digit s
  then Some (Z.of_N (digits_to_N s)) else None.

Fixpoint uint_to_js (u : Decimal.uint) : jsstring :=
  match u with
  | Decimal.Nil => []
  | Decimal.D0 u => 48%N :: uint_to_js u
  | Decimal.D1 u => 49%N :: uint_to_js u
  | Decimal.D2 u => 50%N :: uint_to_js u
  | Decimal.D3 u => 51%N :: uint_to_js u
  | Decimal.D4 u => 52%N :: uint_to_js u
  | Decimal.D5 u => 53%N :: uint_to_js u
  | Decimal.D6 u => 54%N :: uint_to_js u
  | Decimal.D7 u => 55%N :: uint_to_js u
  | Decimal.D8 u => 56%N :: uint_to_js u
  | Decimal.D9 u => 57%N :: uint_to_js u
  end.

(** [String(n)] for a natural number. *)
Definition N_to_js (n : N) : jsstring :=
  match n with
  | N0 => [ZERO]
  | Npos p => uint_to_js (Pos.to_uint p)
  end.

(** date-fns [format(date, "MMM yyyy")]: the abbreviated English month
    name, a space, and the year of the era padded to four digits. *)
Definition month_abbr (monthIndex : Z) : jsstring :=
  nth (Z.to_nat monthIndex)
      [js "Jan"; js "Feb"; js "Mar"; js "Apr"; js "May"; js "Jun";
       js "Jul"; js "Aug"; js "Sep"; js "Oct"; js "Nov"; js "Dec"] [].

Definition format_yyyy (date : Date) : jsstring :=
  let signedYear := getFullYear date in
  let year := if 0 <? signedYear then signedYear else 1 - signedYear in
  padStart0 4 (N_to_js (Z.to_N year)).

Definition format_MMM_yyyy (date : Date) : jsstring :=
  month_abbr (getMonth date) ++ [SPACE] ++ format_yyyy date.

(** date-fns [parseISO] begins by splitting its argument at [T] and at
    spaces; more than two pieces is not ISO 8601 and gives an Invalid
    Date.  What it does with one or two pieces is left to [parse_pieces].
    The result is the time value, [None] for an Invalid Date. *)
Definition is_dateTimeDelimiter (c : jschar) : bool :=
  char_eqb c 84%N || char_eqb c SPACE.

Definition parseISO (parse_pieces : list jsstring -> option Z)
    (argument : jsstring) : option Z :=
  let array := split_on is_dateTimeDelimiter argument in
  if (2 <? length array)%nat then None else parse_pieces array.

End JS.

(** ** CSV upload: line tokenizer *)

Module Upload.
Import JS.

(** The three locals of the loop in [parseCSVLine]. *)
Record line_state := LineState {
  result : list jsstring;
  current : jsstring;
  inQuotes : bool
}.

Definition line_init : line_state := LineState [] [] false.

(** One iteration of the [for] loop over the code units of the line. *)
Definition line_step (st : line_state) (char : jschar) : line_state :=
  if char_eqb char QUOTE then
    LineState (result st) (current st) (negb (inQuotes st))
  else if char_eqb char COMMA && negb (inQuotes st) then
    LineState (result st ++ [trim (current st)]) [] (inQuotes st)
  else
    LineState (result st) (current st ++ [char]) (inQuotes st).

Definition parseCSVLine (line : jsstring) : list jsstring :=
  let st := fold_left line_step line line_init in
  result st ++ [trim (current st)].

(** The spec's reading of the separators: commas met while the quote
    toggle is off. *)
Fixpoint commas_outside_quotes (quoted : bool) (line : jsstring) : nat :=
  match line with
  | [] => 0
  | c :: rest =>
      if char_eqb c QUOTE then commas_outside_quotes (negb quoted) rest
      else if char_eqb c COMMA && negb quoted
           then S (commas_outside_quotes quoted rest)
           else commas_outside_quotes quoted rest
  end.

(** A field carries no surrounding whitespace: neither its first nor its
    last code unit is a whitespace. *)
Definition first_char (f : jsstring) : option jschar := hd_error f.
Definition last_char (f : jsstring) : option jschar := hd_error (rev f).

Definition trimmed (f : jsstring) : Prop :=
  (forall c, first_char f = Some c -> is_ws c = false) /\
  (forall c, last_char f = Some c -> is_ws c = false).

(** Loop invariant on the contents: pushed fields are trimmed and free of
    quotes, and the field under construction holds no quote. *)
Definition line_inv (st : line_state) : Prop :=
  Forall (fun f => trimmed f /\ ~ In QUOTE f) (result st) /\
  ~ In QUOTE (current st).

(** ** CSV upload: numbers and dates *)

Definition parseNumber (value : jsstring) : number :=
  if is_empty value then zero
  else
    let cleaned := remove_all COMMA value in
    or_zero (parseFloat cleaned).

(** The class [[/-]]. *)
Definition is_sep (c : jschar) : bool := char_eqb c SLASH || char_eqb c DASH.

(** [/^\d{4}[/-]\d{1,2}[/-]\d{1,2}$/] *)
Definition re_ymd : list re_item :=
  [ReItem is_digit 4 4; ReItem is_sep 1 1; ReItem is_digit 1 2;
   ReItem is_sep 1 1; ReItem is_digit 1 2].

(** [/^\d{1,2}[/-]\d{1,2}[/-]\d{4}$/] *)
Definition re_mdy : list re_item :=
  [ReItem is_digit 1 2; ReItem is_sep 1 1; ReItem is_digit 1 2;
   ReItem is_sep 1 1; ReItem is_digit 4 4].

(** The template literal [`${year}-${month}-${day}`]. *)
Definition ymd_string (year month day : jsstring) : jsstring :=
  year ++ [DASH] ++ month ++ [DASH] ++ day.

Definition normalizeDate (dateStr : jsstring) : jsstring :=
  if is_empty dateStr then []
  else
    let cleaned := trim dateStr in
    if re_test re_ymd cleaned then
      let parts := split_on is_sep cleaned in
      let year := nth 0 parts [] in
      let month := padStart0 2 (nth 1 parts []) in
      let day := padStart0 2 (nth 2 parts []) in
      ymd_string year month day
    else if re_test re_mdy cleaned then
      let parts := split_on is_sep cleaned in
      let year := nth 2 parts [] in
      let month := padStart0 2 (nth 0 parts []) in
      let day := padStart0 2 (nth 1 parts []) in
      ymd_string year month day
    else cleaned.

(** The two literal patterns, in the spec's words: a four-digit year and
    one- or two-digit month and day, separated by a slash or a hyphen. *)
Definition digits (n : nat) (s : jsstring) : Prop :=
  length s = n /\ forallb is_digit s = true.

Definition digits_1_2 (s : jsstring) : Prop :=
  (length s = 1 \/ length s = 2) /\ forallb is_digit s = true.

Definition is_ymd (s : jsstring) : Prop :=
  exists y m d s1 s2,
    s = y ++ [s1] ++ m ++ [s2] ++ d /\
    digits 4 y /\ digits_1_2 m /\ digits_1_2 d /\
    is_sep s1 = true /\ is_sep s2 = true.

Definition is_mdy (s : jsstring) : Prop :=
  exists m d y s1 s2,
    s = m ++ [s1] ++ d ++ [s2] ++ y /\
    digits_1_2 m /\ digits_1_2 d /\ digits 4 y /\
    is_sep s1 = true /\ is_sep s2 = true.

(** Canonical form [YYYY-MM-DD]. *)
Definition is_canonical (s : jsstring) : Prop :=
  exists y m d,
    s = ymd_string y m d /\ digits 4 y /\ digits 2 m /\ digits 2 d.

(** ** CSV upload: rows *)

(** The object built for a row: every property starts out undefined. *)
Record RawTransaction := RawTx {
  date : option jsstring;
  category : option jsstring;
  subcategory : option jsstring;
  income : option number;
  expense : option number;
  note : option jsstring;
  paid_from : option jsstring
}.

Definition empty_transaction : RawTransaction :=
  RawTx None None None None None None None.

(** The column a header selects. *)
Inductive column :=
| ColDate | ColCategory | ColSubcategory | ColIncome | ColExpense
| ColNote | ColPaidFrom.

Definition column_eqb (a b : column) : bool :=
  match a, b with
  | ColDate, ColDate | ColCategory, ColCategory
  | ColSubcategory, ColSubcategory | ColIncome, ColIncome
  | ColExpense, ColExpense | ColNote, ColNote | ColPaidFrom, ColPaidFrom => true
  | _, _ => false
  end.

(** The [if]/[else if] chain over the lower-cased header, in source order. *)
Definition header_column (header : jsstring) : option column :=
  if includes (js "date") header || str_eqb header (js "date") then Some ColDate
  else if includes (js "category") header && negb (includes (js "sub") header)
       then Some ColCategory
  else if includes (js "subcategory") header || includes (js "sub") header
       then Some ColSubcategory
  else if includes (js "income") header then Some ColIncome
  else if includes (js "expense") header then Some ColExpense
  else if includes (js "note") header || includes (js "description") header
       then Some ColNote
  else if includes (js "paid") header then Some ColPaidFrom
  else None.

(** The assignment made for one header, [value] being [values[index] || ""]. *)
Definition assign (values : list jsstring) (t : RawTransaction)
    (header : jsstring) (index : nat) : RawTransaction :=
  let value := nth index values [] in
  match header_column header with
  | Some ColDate =>
      RawTx (Some (normalizeDate value)) (category t) (subcategory t)
            (income t) (expense t) (note t) (paid_from t)
  | Some ColCategory =>
      RawTx (date t) (Some value) (subcategory t)
            (income t) (expense t) (note t) (paid_from t)
  | Some ColSubcategory =>
      RawTx (date t) (category t) (Some value)
            (income t) (expense t) (note t) (paid_from t)
  | Some ColIncome =>
      RawTx (date t) (category t) (subcategory t)
            (Some (parseNumber value)) (expense t) (note t) (paid_from t)
  | Some ColExpense =>
      RawTx (date t) (category t) (subcategory t)
            (income t) (Some (parseNumber value)) (note t) (paid_from t)
  | Some ColNote =>
      RawTx (date t) (category t) (subcategory t)
            (income t) (expense t) (Some value) (paid_from t)
  | Some ColPaidFrom =>
      RawTx (date t) (category t) (subcategory t)
            (income t) (expense t) (note t) (Some value)
  | None => t
  end.

(** [headers.forEach((header, index) => ...)], from position [index] on. *)
Fixpoint forEach_header (values : list jsstring) (headers : list jsstring)
    (index : nat) (t : RawTransaction) : RawTransaction :=
  match headers with
  | [] => t
  | header :: rest =>
      forEach_header values rest (S index) (assign values t header index)
  end.

(** Truthiness of a possibly undefined string. *)
Definition truthy_str (o : option jsstring) : bool :=
  match o with
  | Some (_ :: _) => true
  | _ => false
  end.

(** The body of the loop over the data lines. *)
Definition row_step (headers : list jsstring)
    (transactions : list RawTransaction) (line : jsstring)
    : list RawTransaction :=
  let values := parseCSVLine line in
  if length values <? 3 then transactions
  else
    let transaction := forEach_header values headers 0 empty_transaction in
    if truthy_str (date transaction) && truthy_str (category transaction)
    then transactions ++ [transaction]
    else transactions.

(** Vocabulary for the statements about rows. *)

(** Position of the last header that selects [col]: the one whose
    assignment survives the [forEach]. *)
Definition selects (col : column) (header : jsstring) : bool :=
  match header_column header with
  | Some c => column_eqb c col
  | None => false
  end.

Fixpoint last_header (col : column) (headers : list jsstring) : option nat :=
  match headers with
  | [] => None
  | header :: rest =>
      match last_header col rest with
      | Some j => Some (S j)
      | None => if selects col header then Some 0 else None
      end
  end.

(** The transaction object built for a line, and the test that admits it. *)
Definition row_transaction (headers : list jsstring) (line : jsstring)
    : RawTransaction :=
  forEach_header (parseCSVLine line) headers 0 empty_transaction.

Definition accepted (t : RawTransaction) : bool :=
  truthy_str (date t) && truthy_str (category t).

(** A data row that tokenizes to fewer than three fields. *)
Definition short_row (line : jsstring) : bool :=
  length (parseCSVLine line) <? 3.

(** The cell of a row under the column at position [col], when both exist. *)
Definition csv_value (col : option nat) (values : list jsstring)
    : option jsstring :=
  match col with
  | Some i => nth_error values i
  | None => None
  end.

(** A cell that is absent, empty, or not parsable as a number. *)
Definition unusable (cell : option jsstring) : Prop :=
  match cell with
  | None => True
  | Some v => v = [] \/ parseFloat (remove_all COMMA v) = NaN
  end.

(** A cell whose text, commas removed and leading whitespace skipped,
    begins with a minus sign. *)
Definition minus_signed (cell : option jsstring) : bool :=
  match cell with
  | Some v => startsWith [DASH] (trimStart (remove_all COMMA v))
  | None => false
  end.

(** What a data row adds to the output. *)
Definition row_out (headers : list jsstring) (line : jsstring)
    : list RawTransaction :=
  if short_row line then []
  else if accepted (row_transaction headers line)
       then [row_transaction headers line] else [].



Section WithLocale.

(** [String.prototype.toLowerCase], whose Unicode case tables are not part
    of the repository. *)
Variable toLowerCase : jsstring -> jsstring.

Definition csv_lines (text : jsstring) : list jsstring :=
  split_on (char_eqb NEWLINE) (trim text).

Definition csv_headers (text : jsstring) : list jsstring :=
  map (fun h => toLowerCase (trim h)) (parseCSVLine (nth 0 (csv_lines text) [])).

Definition parseCSV (text : jsstring) : list RawTransaction :=
  let lines := csv_lines text in
  let headers := csv_headers text in
  fold_left (row_step headers) (tl lines) [].

(** The data rows: every line after the header line. *)
Definition data_rows (text : jsstring) : list jsstring := tl (csv_lines text).

End WithLocale.

(** ASCII lower-casing, the part of [toLowerCase] that the header keywords
    of the source exercise. *)
Definition ascii_toLowerCase (s : jsstring) : jsstring :=
  map (fun c => if (65 <=? c)%N && (c <=? 90)%N then (c + 32)%N else c) s.

(** ** Sample files *)

(** The example of the specification: header [Date,Category,Income,Expense]
    and row [2024/3/5,Food,0,12.50]. *)
Definition sample_csv : jsstring :=
  js "Date,Category,Income,Expense" ++ [NEWLINE] ++ js "2024/3/5,Food,0,12.50".

(** A file with an empty income cell, a word in the expense cell, and a
    short second row. *)
Definition sparse_csv : jsstring :=
  js "Date,Category,Income,Expense" ++ [NEWLINE] ++ js "2024/3/5,Food,,n/a"
  ++ [NEWLINE] ++ js "2024/3/6,Rent".

Definition sparse_record : RawTransaction :=
  RawTx (Some (js "2024-03-05")) (Some (js "Food")) None
        (Some zero) (Some zero) None None.

(** A file without an income column. *)
Definition expense_only_csv : jsstring :=
  js "Date,Category,Expense" ++ [NEWLINE] ++ js "2024-03-05,Food,12.50".

(** A file with signed amount cells. *)
Definition refund_csv : jsstring :=
  js "Date,Category,Income,Expense" ++ [NEWLINE] ++ js "2024-01-01,Refund,-5,-3.20".

(** ** CSV upload: the file handler *)

(** The row sent to the store for one parsed transaction. *)
Record InsertRow := Row {
  ins_book_id : jsstring;
  ins_user_id : jsstring;
  ins_date : option jsstring;
  ins_category : jsstring;
  ins_subcategory : option jsstring;
  ins_income : number;
  ins_expense : number;
  ins_note : option jsstring;
  ins_paid_from : option jsstring;
  ins_labels : option (list jsstring)
}.

(** [s || fallback] and [s || null] on a possibly undefined string. *)
Definition str_or (o : option jsstring) (fallback : jsstring) : jsstring :=
  match o with
  | Some (c :: s) => c :: s
  | _ => fallback
  end.

Definition str_or_null (o : option jsstring) : option jsstring :=
  match o with
  | Some (c :: s) => Some (c :: s)
  | _ => None
  end.

(** [x || 0] on a possibly undefined number. *)
Definition num_or_zero (o : option number) : number :=
  match o with
  | Some x => or_zero x
  | None => zero
  end.

Definition toInsert (bookId userId : jsstring) (t : RawTransaction) : InsertRow :=
  Row bookId userId (date t)
      (str_or (category t) (js "Uncategorized"))
      (str_or_null (subcategory t))
      (num_or_zero (income t))
      (num_or_zero (expense t))
      (str_or_null (note t))
      (str_or_null (paid_from t))
      None.

(** What the header loop leaves in an amount field, for the column at
    position [col] (if any) and the fields [values] of the row. *)
Definition amount_defaults (col : option nat) (values : list jsstring)
    (field : option number) : Prop :=
  (forall i, col = Some i -> unusable (nth_error values i) -> field = Some zero) /\
  (col = None -> field = None) /\
  (unusable (csv_value col values) -> num_or_zero field = zero).


Record File := MkFile {
  name : jsstring;
  (** what [await file.text()] gives: the text, or a rejection message *)
  text : jsstring + jsstring
}.

Inductive Toast :=
| ToastError (message : jsstring)
| ToastSuccess (uploaded : nat).

(** What the handler can touch: the component state, the file input, the
    notifications shown, the insert requests sent to the store and the
    store itself, and the calls of the completion callback. *)
Record UploadState (Store : Type) := MkState {
  isUploading : bool;
  fileInputValue : option jsstring;
  toasts : list Toast;
  insertRequests : list (list InsertRow);
  store : Store;
  uploadsCompleted : nat
}.
Arguments MkState {Store}.
Arguments isUploading {Store}.
Arguments fileInputValue {Store}.
Arguments toasts {Store}.
Arguments insertRequests {Store}.
Arguments store {Store}.
Arguments uploadsCompleted {Store}.

Section Handler.

Variable toLowerCase : jsstring -> jsstring.
Variable Store : Type.
(** The store's bulk insert: the new store and the error it reports. *)
Variable db_insert : list InsertRow -> Store -> Store * option jsstring.
Variables bookId userId : jsstring.

Local Abbreviation State := (UploadState Store).

Definition toast (t : Toast) (st : State) : State :=
  MkState (isUploading st) (fileInputValue st) (toasts st ++ [t])
          (insertRequests st) (store st) (uploadsCompleted st).

Definition setIsUploading (b : bool) (st : State) : State :=
  MkState b (fileInputValue st) (toasts st)
          (insertRequests st) (store st) (uploadsCompleted st).

Definition insert (rows : list InsertRow) (st : State) : State * option jsstring :=
  let (store', error) := db_insert rows (store st) in
  (MkState (isUploading st) (fileInputValue st) (toasts st)
           (insertRequests st ++ [rows]) store' (uploadsCompleted st),
   error).

Definition onUploadComplete (st : State) : State :=
  MkState (isUploading st) (fileInputValue st) (toasts st)
          (insertRequests st) (store st) (S (uploadsCompleted st)).

(** [if (fileInputRef.current) fileInputRef.current.value = ""]. *)
Definition clearFileInput (st : State) : State :=
  MkState (isUploading st)
          (match fileInputValue st with Some _ => Some [] | None => None end)
          (toasts st) (insertRequests st) (store st) (uploadsCompleted st).

(** The [try] block: the state it leaves and the error thrown, if any. *)
Definition try_block (file : File) (st : State) : State * option jsstring :=
  match text file with
  | inr message => (st, Some message)
  | inl text =>
      let parsedTransactions := parseCSV toLowerCase text in
      if length parsedTransactions =? 0 then
        (toast (ToastError (js "No valid transactions found in CSV")) st, None)
      else
        let transactionsToInsert := map (toInsert bookId userId) parsedTransactions in
        let (st1, error) := insert transactionsToInsert st in
        match error with
        | Some message => (st1, Some message)
        | None =>
            let st2 := toast (ToastSuccess (length parsedTransactions)) st1 in
            let st3 := onUploadComplete st2 in
            (clearFileInput st3, None)
        end
  end.

(** The [catch] clause: [toast.error(error.message || "Failed to upload CSV")]. *)
Definition catch_block (thrown : option jsstring) (st : State) : State :=
  match thrown with
  | Some message =>
      toast (ToastError (if is_empty message then js "Failed to upload CSV"
                         else message)) st
  | None => st
  end.

Definition handleFileSelect (file : option File) (st : State) : State :=
  match file with
  | None => st
  | Some file =>
      if negb (endsWith (js ".csv") (name file)) then
        toast (ToastError (js "Please upload a CSV file")) st
      else
        let st1 := setIsUploading true st in
        let (st2, thrown) := try_block file st1 in
        let st3 := catch_block thrown st2 in
        setIsUploading false st3
  end.

End Handler.

Arguments toast {Store}.
Arguments setIsUploading {Store}.
Arguments insert {Store}.
Arguments onUploadComplete {Store}.
Arguments clearFileInput {Store}.
Arguments try_block toLowerCase {Store}.
Arguments catch_block {Store}.
Arguments handleFileSelect toLowerCase {Store}.

(** A store that keeps the rows it is sent and reports no error. *)
Definition list_insert (rows : list InsertRow) (s : list InsertRow)
    : list InsertRow * option jsstring := (s ++ rows, None).

Definition idle : UploadState (list InsertRow) :=
  MkState false (Some (js "C:/fakepath/march.csv")) [] [] [] 0.

End Upload.

(** ** Dashboard: the transaction rows read back from the store *)

Module Dashboard.
Import JS.
Local Open Scope Z_scope.

(** [interface Transaction]; amounts are counted in hundredths. *)
Record Transaction := MkTransaction {
  id : jsstring;
  book_id : jsstring;
  paid_from : option jsstring;
  date : jsstring;
  category : jsstring;
  subcategory : option jsstring;
  income : Z;
  expense : Z;
  note : option jsstring;
  labels : option (list jsstring);
  created_at : jsstring;
  updated_at : jsstring
}.

(** An entry of a chart: [{ name, value }]. *)
Record NameValue := MkEntry {
  name : jsstring;
  value : Z
}.

(** The comparator [(a, b) => b.value - a.value]. *)
Definition by_value_desc (a b : NameValue) : option Z :=
  Some (value b - value a).

(** [Number(value.toFixed(2))]: rounding to hundredths, which leaves an
    amount counted in hundredths as it is.  The store keeps amounts with
    two decimals and the code holds the doubles nearest to them; a sum
    of such doubles, once rounded to two decimals, is taken to be the
    sum of the hundredths.  A sum that the code does not round is
    outside this reading. *)
Definition toFixed2 (v : Z) : Z := v.

(** The transactions that carry a positive expense under a given label,
    and the sum of their expenses. *)
Definition spends_on (label : Transaction -> jsstring) (key : jsstring)
    (t : Transaction) : bool :=
  (0 <? expense t) && str_eqb (label t) key.

Definition expense_sum (p : Transaction -> bool) (ts : list Transaction) : Z :=
  fold_right Z.add 0 (map expense (filter p ts)).

End Dashboard.

(** ** The chart section with a period navigator *)

Module ChartSection.
Import JS Dashboard.
Local Open Scope Z_scope.

Inductive TimePeriod := weekly | monthly | yearly.

(** [(grouped[key] || 0) + amount] stored back under [key], for a key
    that names no member of [Object.prototype]: the dictionary is then
    the list of its own properties.  [ObjectLiteral.add_to] is the
    assignment for every key. *)
Definition add_to (grouped : obj Z) (key : jsstring) (amount : Z) : obj Z :=
  obj_set grouped key
          (match obj_get grouped key with Some v => v | None => 0 end + amount).

Definition entry_of (e : jsstring * Z) : NameValue :=
  MkEntry (fst e) (toFixed2 (snd e)).

(** The [forEach] that fills [grouped] in [categoryData]. *)
Definition group_step (grouped : obj Z) (t : Transaction) : obj Z :=
  if 0 <? expense t then add_to grouped (category t) (expense t)
  else grouped.

Definition group_by_category (filteredTransactions : list Transaction) : obj Z :=
  fold_left group_step filteredTransactions [].

Definition categoryData (filteredTransactions : list Transaction)
    : list NameValue :=
  let grouped := group_by_category filteredTransactions in
  sort by_value_desc (map entry_of (Object_entries grouped)).

Definition subcategoryData (selectedCategory : option jsstring)
    (filteredTransactions : list Transaction) : list NameValue :=
  let transactionsToUse :=
    match selectedCategory with
    | Some (c :: s) =>
        filter (fun t => str_eqb (category t) (c :: s)) filteredTransactions
    | _ => filteredTransactions
    end in
  let grouped :=
    fold_left
      (fun grouped t =>
         match subcategory t with
         | Some (c :: s) =>
             if 0 <? expense t then add_to grouped (c :: s) (expense t)
             else grouped
         | _ => grouped
         end)
      transactionsToUse [] in
  sort by_value_desc (map entry_of (Object_entries grouped)).




(** The local date of a transaction:
    [t.date.split('-').map(Number)] fed to [new Date(year, month - 1, day)]. *)
Definition transactionDate (t : Transaction) : option Date :=
  match map Number_of_digits (split_on (fun c => char_eqb c DASH) (date t)) with
  | Some year :: Some month :: Some day :: _ => new_Date year (month - 1) day
  | _ => None
  end.

(** [format(transactionDate, "MMM yyyy")], which throws on an Invalid
    Date ([None]). *)
Definition monthKey (t : Transaction) : option jsstring :=
  option_map format_MMM_yyyy (transactionDate t).

Record MonthBucket := MkBucket {
  month : jsstring;
  total : Z;
  categories : obj Z;
  sortDate : option Z
}.

(** One transaction of the [forEach] over all transactions; [None] once
    an exception has been thrown. *)
Definition month_step (acc : option (obj (obj Z))) (t : Transaction)
    : option (obj (obj Z)) :=
  match acc with
  | None => None
  | Some monthlyExpenses =>
      if 0 <? expense t then
        match monthKey t with
        | None => None
        | Some monthKey =>
            let monthlyExpenses :=
              match obj_get monthlyExpenses monthKey with
              | None => obj_set monthlyExpenses monthKey []
              | Some _ => monthlyExpenses
              end in
            let categories :=
              match obj_get monthlyExpenses monthKey with
              | Some c => c
              | None => []
              end in
            Some (obj_set monthlyExpenses monthKey
                          (add_to categories (category t) (expense t)))
        end
      else Some monthlyExpenses
  end.

(** The comparator [(a, b) => a.sortDate.getTime() - b.sortDate.getTime()];
    the time value of an Invalid Date is [NaN]. *)
Definition by_sortDate (a b : MonthBucket) : option Z :=
  match sortDate a, sortDate b with
  | Some ta, Some tb => Some (ta - tb)
  | _, _ => None
  end.

Section MonthlyData.

(** The part of [parseISO] behind its first split. *)
Variable parse_pieces : list jsstring -> option Z.

Definition bucket_of (e : jsstring * obj Z) : MonthBucket :=
  MkBucket (fst e)
           (toFixed2 (fold_left Z.add (Object_values (snd e)) 0))
           (snd e)
           (parseISO parse_pieces (fst e ++ js " 01")).

(** The monthly trend, computed from all the transactions; [None] when
    an exception is thrown. *)
Definition monthlyData (transactions : list Transaction)
    (timePeriod : TimePeriod) : option (list MonthBucket) :=
  match timePeriod with
  | monthly =>
      match fold_left month_step transactions (Some []) with
      | None => None
      | Some monthlyExpenses =>
          Some (sort by_sortDate (map bucket_of (Object_entries monthlyExpenses)))
      end
  | _ => Some []
  end.

End MonthlyData.

(** The positive-expense transactions and their month keys, in order. *)
Definition spending (transactions : list Transaction) : list Transaction :=
  filter (fun t => 0 <? expense t) transactions.

Definition in_month (key : jsstring) (t : Transaction) : bool :=
  (0 <? expense t) &&
  match monthKey t with
  | Some k => str_eqb k key
  | None => false
  end.

(** The month keys of the positive-expense transactions, in order, and
    the distinct keys of a list in order of first occurrence. *)
Definition month_keys (transactions : list Transaction) : list jsstring :=
  flat_map (fun t => match monthKey t with Some k => [k] | None => [] end)
           (spending transactions).

Definition distinct (keys : list jsstring) : list jsstring :=
  fold_left (fun seen k => if existsb (str_eqb k) seen then seen else seen ++ [k])
            keys [].

Definition sum_values (o : obj Z) : Z := fold_right Z.add 0 (map snd o).



(** Decision of the canonical form [YYYY-MM-DD]. *)
Definition canonicalb (s : jsstring) : bool :=
  match s with
  | [y1; y2; y3; y4; s1; m1; m2; s2; d1; d2] =>
      forallb is_digit [y1; y2; y3; y4; m1; m2; d1; d2]
      && char_eqb s1 DASH && char_eqb s2 DASH
  | _ => false
  end.

(** Sample rows, most recent first as the dashboard loads them. *)
Definition paid (date category : string) (amount : Z) : Transaction :=
  MkTransaction [] [] None (js date) (js category) None 0 amount
                None None [] [].

Definition three_months : list Transaction :=
  [paid "2024-03-20" "Rent" 10000; paid "2024-03-02" "Food" 2000;
   paid "2024-02-11" "Food" 3000; paid "2024-01-05" "Food" 1500].

(** A key with a space in it. *)
Definition spaced (k : jsstring) : Prop := exists a b, k = a ++ [SPACE] ++ b.

(** What the dictionary holds after the transactions [ts]. *)
Record month_inv (ts : list Transaction) (M : obj (obj Z)) : Prop := {
  inv_keys : map fst M = distinct (month_keys ts);
  inv_nodup : NoDup (map fst M);
  inv_sum : forall k,
    match obj_get M k with
    | Some c => existsb (in_month k) ts = true /\
                sum_values c = expense_sum (in_month k) ts
    | None => existsb (in_month k) ts = false
    end
}.

End ChartSection.

(** ** The chart section without a navigator *)

Module ChartSectionBasic.
Import JS Dashboard.
Local Open Scope Z_scope.

Definition named (key : jsstring) (item : NameValue) : bool :=
  str_eqb (name item) key.

(** [existing.value += amount] on the first item found under [key]. *)
Fixpoint bump (key : jsstring) (amount : Z) (acc : list NameValue)
    : list NameValue :=
  match acc with
  | [] => []
  | item :: rest =>
      if named key item then MkEntry (name item) (value item + amount) :: rest
      else item :: bump key amount rest
  end.

(** The reducer of [categoryData]. *)
Definition category_step (acc : list NameValue) (t : Transaction)
    : list NameValue :=
  if 0 <? expense t then
    match find (named (category t)) acc with
    | Some existing => bump (category t) (expense t) acc
    | None => acc ++ [MkEntry (category t) (expense t)]
    end
  else acc.

Definition categoryData (transactions : list Transaction) : list NameValue :=
  fold_left category_step transactions [].

Definition subcategory_step (acc : list NameValue) (t : Transaction)
    : list NameValue :=
  match subcategory t with
  | Some (c :: s) =>
      if 0 <? expense t then
        match find (named (c :: s)) acc with
        | Some existing => bump (c :: s) (expense t) acc
        | None => acc ++ [MkEntry (c :: s) (expense t)]
        end
      else acc
  | _ => acc
  end.

Definition subcategoryData (transactions : list Transaction) : list NameValue :=
  fold_left subcategory_step transactions [].


End ChartSectionBasic.

(** ** Top-N selection, as the specification words it *)

Module TopN.
Import JS Dashboard.

Definition top (n : nat) (groups : list NameValue) : list NameValue :=
  slice0 n (sort by_value_desc groups).


(** A list of entries is the aggregation of [ts] by [label]: one entry
    per label carried by a transaction of positive expense, holding the
    sum of the expenses of those transactions. *)
Definition aggregates (label : Transaction -> jsstring)
    (ts : list Transaction) (result : list NameValue) : Prop :=
  NoDup (map name result) /\
  forall n v,
    In (MkEntry n v) result <->
    (exists t, In t ts /\ (0 < expense t)%Z /\ label t = n) /\
    v = expense_sum (spends_on label n) ts.

Definition spent (category : string) (amount : Z) : Transaction :=
  MkTransaction [] [] None (js "2024-03-05") (js category) None 0 amount
                None None [] [].

(** The example of the specification, in hundredths. *)
Definition food_rent : list Transaction :=
  [spent "Food" 3000; spent "Food" 2000; spent "Rent" 10000].


End TopN.

(** ** CSV lines written back: vocabulary for the tokenizer *)

Module Encoding.
Import JS Upload.

Definition CR : jschar := 13%N.

(** [fields.join(",")]. *)
Fixpoint join (fields : list jsstring) : jsstring :=
  match fields with
  | [] => []
  | [f] => f
  | f :: rest => f ++ [COMMA] ++ join rest
  end.

(** A field wrapped in double quotes. *)
Definition quoted (f : jsstring) : jsstring := [QUOTE] ++ f ++ [QUOTE].

(** A field that needs no quoting: it holds neither a quote nor a comma. *)
Definition plain (f : jsstring) : Prop := ~ In QUOTE f /\ ~ In COMMA f.

(** A piece of a line that, read outside quotes, adds [f] to the field
    under construction and leaves the tokenizer outside quotes. *)
Definition encodes (piece f : jsstring) : Prop :=
  forall r c,
    fold_left line_step piece (LineState r c false) = LineState r (c ++ f) false.

(** Digits that a double tells from any others: fifteen at most, so
    that the decimal read by [parseFloat] and the double the code holds
    stand for each other. *)
Definition told_apart (digits : jsstring) : Prop := (length digits <= 15)%nat.

(** The first character that [parseFloat] looks at. *)
Definition first_significant (v : jsstring) : option jschar :=
  hd_error (trimStart (remove_all COMMA v)).

(** The characters a numeric literal can begin with: a sign, a digit, a
    dot, or the capital I of Infinity. *)
Definition starts_number (c : jschar) : bool :=
  is_digit c || char_eqb c DASH || char_eqb c PLUS || char_eqb c DOT
  || char_eqb c 73%N.

(** What may follow a literal without being read into it. *)
Definition ends_literal (tail : jsstring) : Prop :=
  match tail with
  | [] => True
  | c :: _ => is_digit c = false /\ c <> 101%N /\ c <> 69%N
  end.

(** Whether a data row is admitted, in terms of its cells: at least
    three fields, and non-empty cells under the date and the category
    columns. *)
Definition admits (headers : list jsstring) (line : jsstring) : bool :=
  negb (short_row line) &&
  match last_header ColDate headers, last_header ColCategory headers with
  | Some i, Some j =>
      negb (is_empty (nth i (parseCSVLine line) []))
      && negb (is_empty (nth j (parseCSVLine line) []))
  | _, _ => false
  end.

End Encoding.

(** ** What a row sent to the store looks like *)

Module Sent.
Import JS Upload.

(** A row fit for the store: the book and user of the component, a
    non-empty date and category, optional texts that are null rather
    than empty, numeric amounts and no labels. *)
Definition well_formed_row (bookId userId : jsstring) (r : InsertRow) : Prop :=
  ins_book_id r = bookId /\ ins_user_id r = userId /\
  (exists d, ins_date r = Some d /\ d <> []) /\
  ins_category r <> [] /\
  ins_subcategory r <> Some [] /\ ins_note r <> Some [] /\
  ins_paid_from r <> Some [] /\
  ins_income r <> NaN /\ ins_expense r <> NaN /\
  ins_labels r = None.

(** The message shown for a thrown error: [error.message || fallback]. *)
Definition shown_message (message : jsstring) : jsstring :=
  if is_empty message then js "Failed to upload CSV" else message.

(** A store that refuses every insert. *)
Definition refusing_insert (rows : list InsertRow) (s : list InsertRow)
    : list InsertRow * option jsstring := (s, Some (js "duplicate key")).

End Sent.

(** ** The earlier upload component *)

Module Legacy.
Import JS Upload.

(** The [if]/[else if] chain over the lower-cased header. *)
Definition header_column (header : jsstring) : option column :=
  if includes (js "date") header then Some ColDate
  else if includes (js "category") header && negb (includes (js "sub") header)
       then Some ColCategory
  else if includes (js "subcategory") header || includes (js "sub") header
       then Some ColSubcategory
  else if includes (js "income") header then Some ColIncome
  else if includes (js "expense") header then Some ColExpense
  else if includes (js "note") header || includes (js "description") header
       then Some ColNote
  else if includes (js "paid") header then Some ColPaidFrom
  else None.

(** [values[index]?.trim() || ""] *)
Definition cell (values : list jsstring) (index : nat) : jsstring :=
  match nth_error values index with
  | Some v => trim v
  | None => []
  end.

Definition assign (values : list jsstring) (t : RawTransaction)
    (header : jsstring) (index : nat) : RawTransaction :=
  let value := cell values index in
  match header_column header with
  | Some ColDate =>
      RawTx (Some value) (category t) (subcategory t)
            (income t) (expense t) (note t) (paid_from t)
  | Some ColCategory =>
      RawTx (date t) (Some value) (subcategory t)
            (income t) (expense t) (note t) (paid_from t)
  | Some ColSubcategory =>
      RawTx (date t) (category t) (Some value)
            (income t) (expense t) (note t) (paid_from t)
  | Some ColIncome =>
      RawTx (date t) (category t) (subcategory t)
            (Some (or_zero (parseFloat value))) (expense t) (note t)
            (paid_from t)
  | Some ColExpense =>
      RawTx (date t) (category t) (subcategory t)
            (income t) (Some (or_zero (parseFloat value))) (note t)
            (paid_from t)
  | Some ColNote =>
      RawTx (date t) (category t) (subcategory t)
            (income t) (expense t) (Some value) (paid_from t)
  | Some ColPaidFrom =>
      RawTx (date t) (category t) (subcategory t)
            (income t) (expense t) (note t) (Some value)
  | None => t
  end.

Fixpoint forEach_header (values : list jsstring) (headers : list jsstring)
    (index : nat) (t : RawTransaction) : RawTransaction :=
  match headers with
  | [] => t
  | header :: rest =>
      forEach_header values rest (S index) (assign values t header index)
  end.

(** [line.split(",")] *)
Definition split_commas (line : jsstring) : list jsstring :=
  split_on (fun c => char_eqb c COMMA) line.

Definition row_step (headers : list jsstring)
    (transactions : list RawTransaction) (line : jsstring)
    : list RawTransaction :=
  let values := split_commas line in
  if length values <? 3 then transactions
  else
    let transaction := forEach_header values headers 0 empty_transaction in
    if truthy_str (date transaction) && truthy_str (category transaction)
    then transactions ++ [transaction]
    else transactions.

Section WithLocale.

Variable toLowerCase : jsstring -> jsstring.

Definition parseCSV (text : jsstring) : list RawTransaction :=
  let lines := csv_lines text in
  let headers :=
    map (fun h => toLowerCase (trim h)) (split_commas (nth 0 lines [])) in
  fold_left (row_step headers) (tl lines) [].

End WithLocale.

(** A record with its date put in the form the later component stores. *)
Definition with_normalized_date (t : RawTransaction) : RawTransaction :=
  RawTx (option_map normalizeDate (date t)) (category t) (subcategory t)
        (income t) (expense t) (note t) (paid_from t).

(** A file in the American date style, without quotes. *)
Definition american_csv : jsstring :=
  js "Date,Category,Expense" ++ [NEWLINE] ++ js "1/5/2024, Food ,12.50"
  ++ [NEWLINE] ++ js ",Rent,900".

End Legacy.

(** ** The summary cards and the drill-down *)

Module Summary.
Import JS Dashboard.
Local Open Scope Z_scope.

(** [x || 0] on an amount. *)
Definition or0 (x : Z) : Z := if x =? 0 then 0 else x.

(** [transactions.reduce((sum, t) => sum + (t.income || 0), 0)] and its
    twin for expenses; the same in both chart sections. *)
Definition totalIncome (transactions : list Transaction) : Z :=
  fold_left (fun sum t => sum + or0 (income t)) transactions 0.

Definition totalExpense (transactions : list Transaction) : Z :=
  fold_left (fun sum t => sum + or0 (expense t)) transactions 0.

Definition netBalance (transactions : list Transaction) : Z :=
  totalIncome transactions - totalExpense transactions.




(** The transactions the drill-down looks at. *)
Definition transactionsToUse (selectedCategory : option jsstring)
    (filteredTransactions : list Transaction) : list Transaction :=
  match selectedCategory with
  | Some (c :: s) =>
      filter (fun t => str_eqb (category t) (c :: s)) filteredTransactions
  | _ => filteredTransactions
  end.






(** Sample rows with subcategories. *)
Definition tagged (category subcategory : string) (amount : Z) : Transaction :=
  MkTransaction [] [] None (js "2024-03-05") (js category)
                (Some (js subcategory)) 0 amount None None [] [].

Definition lunches : list Transaction :=
  [tagged "Food" "Lunch" 1200; tagged "Food" "" 800;
   tagged "Rent" "Flat" 10000].

End Summary.

(** ** The period navigator

    A [Date] is taken at the grain of its local calendar day, counted
    in days since 1970-01-01.  Its time of day is left out: the dates
    of the transactions are local midnights and a window runs from the
    start of its first day to the end of its last, so the comparisons
    of the filter are comparisons of days.  An Invalid Date is [None]. *)

Module Navigator.
Import JS Dashboard ChartSection.
Local Open Scope Z_scope.

(** The range of [Date]: one hundred million days either side of the
    epoch, taken at whole days.  The last instant of the range is the
    start of its last day, so the end of that day is out of range in the
    source; the statements about windows keep within reach of it. *)
Definition clip (day : Z) : option Z :=
  if Z.abs day <=? 100000000 then Some day else None.

Definition year_of (day : Z) : Z := fst (fst (civil_from_days day)).
(** [getMonth], from 0 *)
Definition month_of (day : Z) : Z := snd (fst (civil_from_days day)) - 1.
(** [getDate] *)
Definition date_of (day : Z) : Z := snd (civil_from_days day).
(** [getDay], Sunday being 0; the epoch was a Thursday *)
Definition getDay (day : Z) : Z := (day + 4) mod 7.

(** [date.setDate(d)] and [date.setFullYear(y, m, d)] (and so
    [date.setMonth(m, d)] with the year of the date). *)
Definition setDate (day d : Z) : option Z :=
  clip (days_from_civil (year_of day) (month_of day + 1) 1 + d - 1).

Definition setFullYear (y m d : Z) : option Z :=
  clip (days_from_civil (y + m / 12) (m mod 12 + 1) 1 + d - 1).

(** date-fns, with [weekStartsOn: 0]. *)
Definition weekStartsOn : Z := 0.

Definition startOfWeek (day : Z) : option Z :=
  let d := getDay day in
  let diff := (if d <? weekStartsOn then 7 else 0) + d - weekStartsOn in
  setDate day (date_of day - diff).

Definition endOfWeek (day : Z) : option Z :=
  let d := getDay day in
  let diff := (if d <? weekStartsOn then -7 else 0) + 6 - (d - weekStartsOn) in
  setDate day (date_of day + diff).

Definition startOfMonth (day : Z) : option Z := setDate day 1.

Definition endOfMonth (day : Z) : option Z :=
  setFullYear (year_of day) (month_of day + 1) 0.

Definition startOfYear (day : Z) : option Z := setFullYear (year_of day) 0 1.

Definition endOfYear (day : Z) : option Z := setFullYear (year_of day + 1) 0 0.

Definition addDays (day amount : Z) : option Z :=
  setDate day (date_of day + amount).

Definition addWeeks (day amount : Z) : option Z := addDays day (amount * 7).

Definition addMonths (day amount : Z) : option Z :=
  if amount =? 0 then Some day
  else
    let dayOfMonth := date_of day in
    match setFullYear (year_of day) (month_of day + amount + 1) 0 with
    | None => None
    | Some endOfDesiredMonth =>
        let daysInMonth := date_of endOfDesiredMonth in
        if daysInMonth <=? dayOfMonth then Some endOfDesiredMonth
        else setFullYear (year_of endOfDesiredMonth)
                         (month_of endOfDesiredMonth) dayOfMonth
    end.

Definition addYears (day amount : Z) : option Z := addMonths day (amount * 12).
Definition subWeeks (day amount : Z) : option Z := addWeeks day (- amount).
Definition subMonths (day amount : Z) : option Z := addMonths day (- amount).
Definition subYears (day amount : Z) : option Z := addYears day (- amount).

(** The component *)

Record DateRange := MkRange {
  range_start : option Z;
  range_end : option Z
}.

Definition dateRange (timePeriod : TimePeriod) (currentDate : Z) : DateRange :=
  match timePeriod with
  | weekly => MkRange (startOfWeek currentDate) (endOfWeek currentDate)
  | monthly => MkRange (startOfMonth currentDate) (endOfMonth currentDate)
  | yearly => MkRange (startOfYear currentDate) (endOfYear currentDate)
  end.

(** The day of a transaction. *)
Definition day_of_Date (d : Date) : Z :=
  days_from_civil (getFullYear d) (getMonth d + 1) (getDate d).

Definition transaction_day (t : Transaction) : option Z :=
  option_map day_of_Date (transactionDate t).

(** [transactionDate >= rangeStart && transactionDate <= rangeEnd]; a
    comparison with an Invalid Date is false. *)
Definition in_range (range : DateRange) (t : Transaction) : bool :=
  match transaction_day t, range_start range, range_end range with
  | Some d, Some s, Some e => (s <=? d) && (d <=? e)
  | _, _, _ => false
  end.

Definition filteredTransactions (transactions : list Transaction)
    (range : DateRange) : list Transaction :=
  filter (in_range range) transactions.

Definition handlePrevious (timePeriod : TimePeriod) (currentDate : Z)
    : option Z :=
  match timePeriod with
  | weekly => subWeeks currentDate 1
  | monthly => subMonths currentDate 1
  | yearly => subYears currentDate 1
  end.

Definition handleNext (timePeriod : TimePeriod) (currentDate : Z) : option Z :=
  match timePeriod with
  | weekly => addWeeks currentDate 1
  | monthly => addMonths currentDate 1
  | yearly => addYears currentDate 1
  end.



(** Days for which a year either side stays within the range of [Date]. *)
Definition within_reach (day : Z) : Prop := Z.abs day <= 99999000.

(** The months counted from year 0, and the first day of the month of
    a given count. *)
Definition month_count (day : Z) : Z := year_of day * 12 + month_of day.

Definition first_day (count : Z) : Z :=
  days_from_civil (count / 12) (count mod 12 + 1) 1.

Definition days_in (count : Z) : Z :=
  days_in_month (count / 12) (count mod 12 + 1).

(** The number of months that one step of the navigator moves by. *)
Definition stride (timePeriod : TimePeriod) : Z :=
  match timePeriod with weekly => 0 | monthly => 1 | yearly => 12 end.

End Navigator.

(** ** Object literals used as dictionaries

    The dictionaries of the chart section with a navigator are object
    literals [{}], which inherit from [Object.prototype].  Reading a key
    that names a member of the prototype gives that member and not
    [undefined]; [+] then makes a string of it and of the amount.
    [__proto__] is an accessor: it reads as the prototype, and its
    setter ignores a value that is not an object. *)

Module ObjectLiteral.
Import JS Dashboard.
Local Open Scope Z_scope.

Definition PROTO : jsstring := js "__proto__".

(** The other members of [Object.prototype], all of them functions. *)
Definition prototype_members : list jsstring :=
  [js "constructor"; js "hasOwnProperty"; js "isPrototypeOf";
   js "propertyIsEnumerable"; js "toLocaleString"; js "toString";
   js "valueOf"; js "__defineGetter__"; js "__defineSetter__";
   js "__lookupGetter__"; js "__lookupSetter__"].

Definition inherited (key : jsstring) : bool :=
  str_eqb key PROTO || existsb (str_eqb key) prototype_members.

(** A key that names nothing inherited. *)
Definition ordinary (key : jsstring) : Prop := inherited key = false.

(** What a dictionary of amounts holds under a key: a number, or the
    text that [+] gives once one operand is not a number.  The text is
    never empty; what it says is the engine's. *)
Inductive held :=
| Num (amount : Z)
| Text.

(** [grouped[key] = (grouped[key] || 0) + amount]. *)
Definition add_to (grouped : obj held) (key : jsstring) (amount : Z)
    : obj held :=
  let sum :=
    match obj_get grouped key with
    | Some (Num v) => Num (v + amount)
    | Some Text => Text
    | None => if inherited key then Text else Num (0 + amount)
    end in
  if str_eqb key PROTO then grouped else obj_set grouped key sum.

(** [sum + val] *)
Definition plus (sum val : held) : held :=
  match sum, val with
  | Num a, Num b => Num (a + b)
  | _, _ => Text
  end.

(** [Number(value.toFixed(2))]: a text has no [toFixed] and the call
    throws ([None]). *)
Definition rounded (value : held) : option Z :=
  match value with
  | Num v => Some (toFixed2 v)
  | Text => None
  end.

(** [array.map(f)] for an [f] that may throw. *)
Fixpoint map_throwing {A B : Type} (f : A -> option B) (l : list A)
    : option (list B) :=
  match l with
  | [] => Some []
  | a :: rest =>
      match f a with
      | None => None
      | Some b =>
          match map_throwing f rest with
          | None => None
          | Some bs => Some (b :: bs)
          end
      end
  end.

(** A dictionary with [f] applied to what it holds. *)
Definition on_values {V W : Type} (f : V -> W) (o : obj V) : obj W :=
  map (fun e => (fst e, f (snd e))) o.

(** Under a name that [Object.prototype] knows, an object literal never
    holds a number. *)
Definition no_number_inherited (g : obj held) : Prop :=
  forall k v, In (k, v) g -> inherited k = true -> v = Text.

(** A dictionary of numbers, as an object literal holds it. *)
Definition numbers (grouped : obj Z) : obj held := on_values Num grouped.

End ObjectLiteral.

(** ** The chart section with a navigator, on object literals *)

Module ChartSectionLiteral.
Import JS Dashboard ObjectLiteral.
Local Open Scope Z_scope.

Definition entry_of (e : jsstring * held) : option NameValue :=
  option_map (MkEntry (fst e)) (rounded (snd e)).

Definition group_step (grouped : obj held) (t : Transaction) : obj held :=
  if 0 <? expense t then add_to grouped (category t) (expense t)
  else grouped.

Definition group_by_category (filteredTransactions : list Transaction)
    : obj held :=
  fold_left group_step filteredTransactions [].

(** [categoryData]; [None] when the [map] over the entries throws. *)
Definition categoryData (filteredTransactions : list Transaction)
    : option (list NameValue) :=
  let grouped := group_by_category filteredTransactions in
  option_map (sort by_value_desc)
             (map_throwing entry_of (Object_entries grouped)).

Definition subcategory_step (grouped : obj held) (t : Transaction)
    : obj held :=
  match subcategory t with
  | Some (c :: s) =>
      if 0 <? expense t then add_to grouped (c :: s) (expense t)
      else grouped
  | _ => grouped
  end.

Definition subcategoryData (selectedCategory : option jsstring)
    (filteredTransactions : list Transaction) : option (list NameValue) :=
  let transactionsToUse :=
    match selectedCategory with
    | Some (c :: s) =>
        filter (fun t => str_eqb (category t) (c :: s)) filteredTransactions
    | _ => filteredTransactions
    end in
  let grouped := fold_left subcategory_step transactionsToUse [] in
  option_map (sort by_value_desc)
             (map_throwing entry_of (Object_entries grouped)).

Record MonthBucket := MkBucket {
  month : jsstring;
  total : Z;
  categories : obj held;
  sortDate : option Z
}.

(** One transaction of the [forEach] over all transactions; [None] once
    an exception has been thrown.  The keys of the outer dictionary are
    the labels that [format] returns, none of which names a member of
    [Object.prototype]; the inner dictionaries are keyed by category. *)
Definition month_step (acc : option (obj (obj held))) (t : Transaction)
    : option (obj (obj held)) :=
  match acc with
  | None => None
  | Some monthlyExpenses =>
      if 0 <? expense t then
        match ChartSection.monthKey t with
        | None => None
        | Some monthKey =>
            let monthlyExpenses :=
              match obj_get monthlyExpenses monthKey with
              | None => obj_set monthlyExpenses monthKey []
              | Some _ => monthlyExpenses
              end in
            let categories :=
              match obj_get monthlyExpenses monthKey with
              | Some c => c
              | None => []
              end in
            Some (obj_set monthlyExpenses monthKey
                          (add_to categories (category t) (expense t)))
        end
      else Some monthlyExpenses
  end.

Definition by_sortDate (a b : MonthBucket) : option Z :=
  match sortDate a, sortDate b with
  | Some ta, Some tb => Some (ta - tb)
  | _, _ => None
  end.

Section MonthlyData.

(** The part of [parseISO] behind its first split. *)
Variable parse_pieces : list jsstring -> option Z.

(** One bucket; [None] when [toFixed] is called on a text. *)
Definition bucket_of (e : jsstring * obj held) : option MonthBucket :=
  match rounded (fold_left plus (Object_values (snd e)) (Num 0)) with
  | Some total =>
      Some (MkBucket (fst e) total (snd e)
                     (parseISO parse_pieces (fst e ++ js " 01")))
  | None => None
  end.

(** The monthly trend, computed from all the transactions; [None] when
    an exception is thrown. *)
Definition monthlyData (transactions : list Transaction)
    (timePeriod : ChartSection.TimePeriod) : option (list MonthBucket) :=
  match timePeriod with
  | ChartSection.monthly =>
      match fold_left month_step transactions (Some []) with
      | None => None
      | Some monthlyExpenses =>
          option_map (sort by_sortDate)
                     (map_throwing bucket_of (Object_entries monthlyExpenses))
      end
  | _ => Some []
  end.

End MonthlyData.

(** A bucket of numbers, as the object literals hold it. *)
Definition bucket_numbers (b : ChartSection.MonthBucket) : MonthBucket :=
  MkBucket (ChartSection.month b) (ChartSection.total b)
           (numbers (ChartSection.categories b)) (ChartSection.sortDate b).

(** The dictionary of months: dictionaries of numbers, as object
    literals hold them. *)
Definition nested_numbers (monthlyExpenses : obj (obj Z)) : obj (obj held) :=
  on_values numbers monthlyExpenses.



(** The year, month and day written in a date of the form
    [YYYY-MM-DD], as numbers. *)
Definition written_date (t : Transaction) : Z * Z * Z :=
  match split_on (fun c => char_eqb c DASH) (date t) with
  | y :: m :: d :: _ =>
      (Z.of_N (digits_to_N y), Z.of_N (digits_to_N m), Z.of_N (digits_to_N d))
  | _ => (0, 0, 0)
  end.

Definition written_month (t : Transaction) : Z * Z := fst (written_date t).


Definition month_eq_dec (a b : Z * Z) : {a = b} + {a <> b}.
Proof. decide equality; apply Z.eq_dec. Defined.

(** The calendar months that the positive-expense transactions span. *)
Definition months_spanned (transactions : list Transaction) : list (Z * Z) :=
  nodup month_eq_dec (map written_month (ChartSection.spending transactions)).

(** Sample rows under names that [Object.prototype] knows. *)
Definition with_proto : list Transaction :=
  [TopN.spent "Food" 3000; TopN.spent "__proto__" 1250].

Definition with_constructor : list Transaction :=
  [TopN.spent "Food" 3000; TopN.spent "constructor" 1250].

(** Two months of two centuries that [new Date] reads as one. *)
Definition two_centuries : list Transaction :=
  [ChartSection.paid "0024-03-05" "Food" 1000;
   ChartSection.paid "1924-03-09" "Food" 2000].

End ChartSectionLiteral.

(* ================================================================== *)
(** * Part II. Properties                                              *)
(* ================================================================== *)

Module JSFacts.
Import JS.

Lemma trimStart_head (s : jsstring) :
  match trimStart s with [] => True | c :: _ => is_ws c = false end.
Proof.
  induction s as [|c s IH]; simpl; auto.
  destruct (is_ws c) eqn:E; auto.
Qed.

Lemma trimStart_fix (s : jsstring) :
  match s with [] => True | c :: _ => is_ws c = false end ->
  trimStart s = s.
Proof. destruct s as [|c s]; simpl; auto. intros ->. reflexivity. Qed.

Lemma trimStart_idem (s : jsstring) : trimStart (trimStart s) = trimStart s.
Proof. apply trimStart_fix, trimStart_head. Qed.

Lemma trimStart_suffix (s : jsstring) :
  exists p, s = p ++ trimStart s /\ Forall (fun c => is_ws c = true) p.
Proof.
  induction s as [|c s (p & E & F)]; simpl.
  - exists []. auto.
  - destruct (is_ws c) eqn:W.
    + exists (c :: p). split; [simpl; congruence | constructor; auto].
    + exists []. auto.
Qed.

Lemma trimStart_In (s : jsstring) c : In c (trimStart s) -> In c s.
Proof.
  destruct (trimStart_suffix s) as (p & E & _). intros H.
  rewrite E. apply in_or_app. auto.
Qed.

Lemma trimEnd_prefix (s : jsstring) :
  exists q, s = trimEnd s ++ q /\ Forall (fun c => is_ws c = true) q.
Proof.
  destruct (trimStart_suffix (rev s)) as (p & E & F).
  exists (rev p). split.
  - unfold trimEnd. rewrite <- rev_app_distr, <- E. symmetry. apply rev_involutive.
  - apply Forall_rev, F.
Qed.

Lemma trimEnd_In (s : jsstring) c : In c (trimEnd s) -> In c s.
Proof.
  destruct (trimEnd_prefix s) as (q & E & _). intros H.
  rewrite E. apply in_or_app. auto.
Qed.

Lemma trim_In (s : jsstring) c : In c (trim s) -> In c s.
Proof. intros H. apply trimStart_In, trimEnd_In, H. Qed.

Lemma trimEnd_fix (s : jsstring) :
  match rev s with [] => True | c :: _ => is_ws c = false end ->
  trimEnd s = s.
Proof.
  intros H. unfold trimEnd. rewrite (trimStart_fix _ H). apply rev_involutive.
Qed.

Lemma rev_trimEnd (s : jsstring) : rev (trimEnd s) = trimStart (rev s).
Proof. unfold trimEnd. apply rev_involutive. Qed.

(** The head of [trim s], when there is one, is the head of [trimStart s]. *)
Lemma trim_head (s : jsstring) :
  match trim s with [] => True | c :: _ => is_ws c = false end.
Proof.
  unfold trim. pose proof (trimStart_head s) as H.
  destruct (trimEnd_prefix (trimStart s)) as (q & E & _).
  destruct (trimEnd (trimStart s)) as [|c t]; auto.
  rewrite E in H. exact H.
Qed.

Lemma trim_last (s : jsstring) :
  match rev (trim s) with [] => True | c :: _ => is_ws c = false end.
Proof. unfold trim. rewrite rev_trimEnd. apply trimStart_head. Qed.

Lemma trim_fix (s : jsstring) :
  match s with [] => True | c :: _ => is_ws c = false end ->
  match rev s with [] => True | c :: _ => is_ws c = false end ->
  trim s = s.
Proof.
  intros H1 H2. unfold trim. rewrite (trimStart_fix _ H1). apply trimEnd_fix, H2.
Qed.

Lemma trim_idem (s : jsstring) : trim (trim s) = trim s.
Proof. apply trim_fix; [apply trim_head | apply trim_last]. Qed.

Lemma trim_nil : trim [] = [].
Proof. reflexivity. Qed.

End JSFacts.

(** ** The line tokenizer *)

Module LineFacts.
Import JS Upload JSFacts.

Lemma trim_trimmed (s : jsstring) : trimmed (trim s).
Proof.
  split; intros c H.
  - pose proof (trim_head s) as T. unfold first_char in H.
    destruct (trim s); simpl in H; [discriminate | congruence].
  - pose proof (trim_last s) as T. unfold last_char in H.
    destruct (rev (trim s)); simpl in H; [discriminate | congruence].
Qed.

Lemma trimmed_trim (f : jsstring) : trimmed f -> trim f = f.
Proof.
  intros [H1 H2]. apply trim_fix.
  - destruct f; [exact I|]. apply H1. reflexivity.
  - unfold last_char in H2. destruct (rev f); [exact I|]. apply H2. reflexivity.
Qed.

(** Loop invariant on the number of fields pushed so far. *)
Lemma fold_line_step_length (line : jsstring) (st : line_state) :
  length (result (fold_left line_step line st)) =
  length (result st) + commas_outside_quotes (inQuotes st) line.
Proof.
  revert st. induction line as [|c line IH]; intros st; simpl.
  - lia.
  - rewrite IH. unfold line_step.
    destruct (char_eqb c QUOTE); simpl; [reflexivity|].
    destruct (char_eqb c COMMA && negb (inQuotes st)); simpl.
    + rewrite length_app. simpl. lia.
    + reflexivity.
Qed.

Lemma char_eqb_eq a b : char_eqb a b = true <-> a = b.
Proof. apply N.eqb_eq. Qed.

Lemma line_step_inv (st : line_state) (c : jschar) :
  line_inv st -> line_inv (line_step st c).
Proof.
  intros [HR HC]. unfold line_step.
  destruct (char_eqb c QUOTE) eqn:Q; [split; assumption|].
  destruct (char_eqb c COMMA && negb (inQuotes st)); split; simpl; auto.
  - apply Forall_app. split; [assumption|].
    constructor; [|constructor]. split; [apply trim_trimmed|].
    intros H. apply HC. eapply trim_In, H.
  - intros H. apply in_app_or in H. destruct H as [H|[H|[]]]; [auto|].
    subst c. unfold char_eqb in Q. rewrite N.eqb_refl in Q. discriminate.
Qed.

Lemma fold_line_step_inv (line : jsstring) (st : line_state) :
  line_inv st -> line_inv (fold_left line_step line st).
Proof.
  revert st. induction line as [|c line IH]; intros st H; simpl; auto.
  apply IH, line_step_inv, H.
Qed.

(** C10. For every line, [parseCSVLine] returns at least one field, exactly
    one more than the commas lying outside quoted spans; every field is
    trimmed of surrounding whitespace (and is a fixed point of [trim]), and
    no field holds a double-quote character. *)
Theorem parseCSVLine_fields (line : jsstring) :
  length (parseCSVLine line) = 1 + commas_outside_quotes false line /\
  parseCSVLine line <> [] /\
  Forall (fun f => trimmed f /\ trim f = f /\ ~ In QUOTE f) (parseCSVLine line).
Proof.
  unfold parseCSVLine.
  pose proof (fold_line_step_length line line_init) as L.
  destruct (fold_line_step_inv line line_init) as [HR HC].
  { split; [constructor | intros []]. }
  set (st := fold_left line_step line line_init) in *.
  split; [|split].
  - rewrite length_app, L. simpl. lia.
  - intros E. apply app_eq_nil in E. destruct E as [_ E]. discriminate.
  - apply Forall_app. split.
    + eapply Forall_impl; [|exact HR]. intros f [T Q].
      split; [exact T|]. split; [apply trimmed_trim, T | exact Q].
    + constructor; [|constructor]. split; [apply trim_trimmed|].
      split; [apply trim_idem|]. intros H. apply HC. eapply trim_In, H.
Qed.

Example parseCSVLine_quoted :
  parseCSVLine
    (js "2024/3/5, " ++ [QUOTE] ++ js "Food, drink" ++ [QUOTE] ++ js " ,0,12.50") =
  [js "2024/3/5"; js "Food, drink"; js "0"; js "12.50"].
Proof. reflexivity. Qed.

End LineFacts.

(** ** Date normalization *)

Module DateFacts.
Import JS Upload JSFacts.

Lemma re_test_iff (items : list re_item) (s : jsstring) :
  re_test items s = true <-> re_matches items s.
Proof.
  revert s. induction items as [|it rest IH]; intros s; cbn [re_test].
  - split.
    + destruct s; [constructor | discriminate].
    + inversion 1. reflexivity.
  - rewrite existsb_exists. split.
    + intros (k & Hin & H). apply in_seq in Hin.
      assert (Hl : re_min it <= k <= re_max it) by lia. clear Hin.
      apply andb_true_iff in H. destruct H as [H Hr].
      apply andb_true_iff in H. destruct H as [Hk Hc].
      apply Nat.leb_le in Hk. rewrite <- (firstn_skipn k s).
      constructor; [rewrite length_firstn; lia | exact Hc | apply IH, Hr].
    + inversion 1 as [|it' rest' a b Hl Hc Hr]; subst.
      exists (length a). split; [apply in_seq; lia|].
      rewrite length_app, firstn_app, Nat.sub_diag, firstn_all, skipn_app,
        Nat.sub_diag, skipn_all.
      simpl. rewrite app_nil_r, Hc.
      apply andb_true_iff. split; [|apply IH, Hr].
      apply andb_true_iff. split; [apply Nat.leb_le; lia | reflexivity].
Qed.

Lemma length1 {A : Type} (a : list A) :
  1 <= length a <= 1 -> exists c, a = [c].
Proof.
  destruct a as [|c [|? ?]]; simpl; intros H; try lia. exists c. reflexivity.
Qed.

Lemma re_ymd_spec (s : jsstring) : re_test re_ymd s = true <-> is_ymd s.
Proof.
  rewrite re_test_iff. unfold re_ymd. split.
  - intros H.
    inversion H as [|? ? y r1 Ly Cy H1]; subst; clear H.
    inversion H1 as [|? ? a1 r2 L1 C1 H2]; subst; clear H1.
    inversion H2 as [|? ? m r3 Lm Cm H3]; subst; clear H2.
    inversion H3 as [|? ? a2 r4 L2 C2 H4]; subst; clear H3.
    inversion H4 as [|? ? d r5 Ld Cd H5]; subst; clear H4.
    inversion H5; subst; clear H5. simpl in *.
    destruct (length1 _ L1) as (s1 & ->). destruct (length1 _ L2) as (s2 & ->).
    simpl in C1, C2. rewrite andb_true_r in C1, C2.
    exists y, m, d, s1, s2. rewrite app_nil_r. unfold digits, digits_1_2.
    repeat split; auto; lia.
  - intros (y & m & d & s1 & s2 & -> & [Ly Cy] & [Lm Cm] & [Ld Cd] & S1 & S2).
    constructor; [simpl; lia | exact Cy |].
    constructor; [simpl; lia | simpl; rewrite S1; reflexivity |].
    constructor; [simpl; lia | exact Cm |].
    constructor; [simpl; lia | simpl; rewrite S2; reflexivity |].
    rewrite <- (app_nil_r d).
    constructor; [simpl; lia | exact Cd | constructor].
Qed.

Lemma re_mdy_spec (s : jsstring) : re_test re_mdy s = true <-> is_mdy s.
Proof.
  rewrite re_test_iff. unfold re_mdy. split.
  - intros H.
    inversion H as [|? ? m r1 Lm Cm H1]; subst; clear H.
    inversion H1 as [|? ? a1 r2 L1 C1 H2]; subst; clear H1.
    inversion H2 as [|? ? d r3 Ld Cd H3]; subst; clear H2.
    inversion H3 as [|? ? a2 r4 L2 C2 H4]; subst; clear H3.
    inversion H4 as [|? ? y r5 Ly Cy H5]; subst; clear H4.
    inversion H5; subst; clear H5. simpl in *.
    destruct (length1 _ L1) as (s1 & ->). destruct (length1 _ L2) as (s2 & ->).
    simpl in C1, C2. rewrite andb_true_r in C1, C2.
    exists m, d, y, s1, s2. rewrite app_nil_r. unfold digits, digits_1_2.
    repeat split; auto; lia.
  - intros (m & d & y & s1 & s2 & -> & [Lm Cm] & [Ld Cd] & [Ly Cy] & S1 & S2).
    constructor; [simpl; lia | exact Cm |].
    constructor; [simpl; lia | simpl; rewrite S1; reflexivity |].
    constructor; [simpl; lia | exact Cd |].
    constructor; [simpl; lia | simpl; rewrite S2; reflexivity |].
    rewrite <- (app_nil_r y).
    constructor; [simpl; lia | exact Cy | constructor].
Qed.

Lemma digit_not_sep c : is_digit c = true -> is_sep c = false.
Proof.
  unfold is_digit, is_sep, char_eqb, SLASH, DASH.
  rewrite andb_true_iff, !N.leb_le, orb_false_iff, !N.eqb_neq. lia.
Qed.

Lemma digit_not_ws c : is_digit c = true -> is_ws c = false.
Proof.
  unfold is_digit, is_ws.
  rewrite andb_true_iff, !N.leb_le. intros H.
  repeat (apply orb_false_iff; split);
    try (apply N.eqb_neq; lia);
    apply andb_false_iff;
    first [left; apply N.leb_gt; lia | right; apply N.leb_gt; lia].
Qed.

Lemma split_on_nosep sep (a : jsstring) :
  forallb (fun c => negb (sep c)) a = true -> split_on sep a = [a].
Proof.
  induction a as [|c a IH]; simpl; [reflexivity|].
  rewrite andb_true_iff, negb_true_iff. intros [-> H].
  rewrite (IH H). reflexivity.
Qed.

Lemma split_on_app sep (a rest : jsstring) c :
  forallb (fun c => negb (sep c)) a = true -> sep c = true ->
  split_on sep (a ++ [c] ++ rest) = a :: split_on sep rest.
Proof.
  intros Ha Hc. induction a as [|x a IH]; simpl in *.
  - rewrite Hc. reflexivity.
  - apply andb_true_iff in Ha. destruct Ha as [Hx Ha].
    apply negb_true_iff in Hx. rewrite Hx, (IH Ha). reflexivity.
Qed.

Lemma digits_nosep (a : jsstring) :
  forallb is_digit a = true -> forallb (fun c => negb (is_sep c)) a = true.
Proof.
  rewrite !forallb_forall. intros H c Hc.
  rewrite (digit_not_sep _ (H c Hc)). reflexivity.
Qed.

(** Splitting a three-block date at its separators gives the blocks. *)
Lemma split_date (a b c : jsstring) s1 s2 :
  forallb is_digit a = true -> forallb is_digit b = true ->
  forallb is_digit c = true -> is_sep s1 = true -> is_sep s2 = true ->
  split_on is_sep (a ++ [s1] ++ b ++ [s2] ++ c) = [a; b; c].
Proof.
  intros Ha Hb Hc H1 H2.
  rewrite split_on_app by auto using digits_nosep.
  rewrite split_on_app by auto using digits_nosep.
  rewrite split_on_nosep by auto using digits_nosep. reflexivity.
Qed.

(** A string that starts and ends with a digit is left alone by [trim]. *)
Lemma trim_date (a mid c : jsstring) :
  a <> [] -> c <> [] ->
  forallb is_digit a = true -> forallb is_digit c = true ->
  trim (a ++ mid ++ c) = a ++ mid ++ c.
Proof.
  intros Na Nc Ha Hc. apply trim_fix.
  - destruct a as [|x a]; [contradiction|]. simpl in *.
    apply andb_true_iff in Ha. apply digit_not_ws, Ha.
  - rewrite !rev_app_distr.
    destruct (rev c) as [|x rc] eqn:E.
    + apply (f_equal (@rev _)) in E. rewrite rev_involutive in E. contradiction.
    + simpl. apply digit_not_ws.
      rewrite forallb_forall in Hc. apply Hc, in_rev. rewrite E. left. reflexivity.
Qed.

Lemma digits_nonempty n (s : jsstring) : digits (S n) s -> s <> [].
Proof. intros [L _] ->. discriminate. Qed.

Lemma digits_1_2_nonempty (s : jsstring) : digits_1_2 s -> s <> [].
Proof. intros [[L|L] _] ->; discriminate. Qed.

Lemma is_ymd_not_mdy (s : jsstring) : is_ymd s -> ~ is_mdy s.
Proof.
  intros (y & m & d & s1 & s2 & E & [Ly Cy] & [Lm Cm] & [Ld Cd] & S1 & S2).
  intros (m' & d' & y' & t1 & t2 & E' & [Lm' Cm'] & [Ld' Cd'] & [Ly' Cy'] & T1 & T2).
  assert (P : split_on is_sep s = [y; m; d]) by (rewrite E; apply split_date; auto).
  assert (Q : split_on is_sep s = [m'; d'; y']) by (rewrite E'; apply split_date; auto).
  rewrite P in Q. injection Q as -> -> ->. lia.
Qed.

Lemma padStart0_digits (s : jsstring) : digits_1_2 s -> digits 2 (padStart0 2 s).
Proof.
  intros [L C]. unfold padStart0, digits.
  destruct s as [|a [|b [|c s]]]; simpl in *; try lia; auto.
Qed.

Lemma padStart0_full n (s : jsstring) : n <= length s -> padStart0 n s = s.
Proof.
  intros H. unfold padStart0. replace (n - length s) with 0 by lia. reflexivity.
Qed.

(** [normalizeDate] on a string of the first pattern. *)
Lemma normalizeDate_ymd (y m d : jsstring) s1 s2 :
  digits 4 y -> digits_1_2 m -> digits_1_2 d ->
  is_sep s1 = true -> is_sep s2 = true ->
  normalizeDate (y ++ [s1] ++ m ++ [s2] ++ d) =
  ymd_string y (padStart0 2 m) (padStart0 2 d).
Proof.
  intros Hy Hm Hd S1 S2. unfold normalizeDate.
  assert (T : trim (y ++ [s1] ++ m ++ [s2] ++ d) = y ++ [s1] ++ m ++ [s2] ++ d).
  { rewrite (app_assoc [s1]), (app_assoc ([s1] ++ m)).
    apply trim_date; [eapply digits_nonempty, Hy | apply digits_1_2_nonempty, Hd
                     | apply Hy | apply Hd]. }
  rewrite T.
  assert (Y : re_test re_ymd (y ++ [s1] ++ m ++ [s2] ++ d) = true).
  { apply re_ymd_spec. exists y, m, d, s1, s2. auto 10. }
  rewrite Y, split_date by (auto; apply Hy || apply Hm || apply Hd).
  destruct y; [destruct Hy; discriminate | reflexivity].
Qed.

(** [normalizeDate] on a string of the second pattern. *)
Lemma normalizeDate_mdy (m d y : jsstring) s1 s2 :
  digits_1_2 m -> digits_1_2 d -> digits 4 y ->
  is_sep s1 = true -> is_sep s2 = true ->
  normalizeDate (m ++ [s1] ++ d ++ [s2] ++ y) =
  ymd_string y (padStart0 2 m) (padStart0 2 d).
Proof.
  intros Hm Hd Hy S1 S2. unfold normalizeDate.
  assert (T : trim (m ++ [s1] ++ d ++ [s2] ++ y) = m ++ [s1] ++ d ++ [s2] ++ y).
  { rewrite (app_assoc [s1]), (app_assoc ([s1] ++ d)).
    apply trim_date; [apply digits_1_2_nonempty, Hm | eapply digits_nonempty, Hy
                     | apply Hm | apply Hy]. }
  rewrite T.
  assert (M : is_mdy (m ++ [s1] ++ d ++ [s2] ++ y)).
  { exists m, d, y, s1, s2. auto 10. }
  assert (Y : re_test re_ymd (m ++ [s1] ++ d ++ [s2] ++ y) = false).
  { apply not_true_is_false. intros Y. apply re_ymd_spec in Y.
    exact (is_ymd_not_mdy _ Y M). }
  apply re_mdy_spec in M.
  rewrite Y, M, split_date by (auto; apply Hy || apply Hm || apply Hd).
  destruct m; [apply digits_1_2_nonempty in Hm; contradiction | reflexivity].
Qed.

Lemma ymd_string_canonical (y m d : jsstring) :
  digits 4 y -> digits_1_2 m -> digits_1_2 d ->
  is_canonical (ymd_string y (padStart0 2 m) (padStart0 2 d)).
Proof.
  intros Hy Hm Hd. exists y, (padStart0 2 m), (padStart0 2 d).
  auto using padStart0_digits.
Qed.

Lemma canonical_is_ymd (s : jsstring) : is_canonical s -> is_ymd s.
Proof.
  intros (y & m & d & -> & Hy & [Lm Cm] & [Ld Cd]).
  exists y, m, d, DASH, DASH. unfold ymd_string, digits_1_2. auto 10.
Qed.

(** [normalizeDate] only looks at the trimmed input. *)
Lemma normalizeDate_trim (s : jsstring) :
  normalizeDate s = normalizeDate (trim s).
Proof.
  destruct s as [|c s]; [reflexivity|].
  unfold normalizeDate at 1. cbn [is_empty].
  destruct (trim (c :: s)) as [|c' t] eqn:E; [reflexivity|].
  unfold normalizeDate. cbn [is_empty]. rewrite <- E, trim_idem. reflexivity.
Qed.

Lemma normalizeDate_other (s : jsstring) :
  ~ is_ymd (trim s) -> ~ is_mdy (trim s) -> normalizeDate s = trim s.
Proof.
  intros NY NM. rewrite <- re_ymd_spec in NY. rewrite <- re_mdy_spec in NM.
  apply not_true_is_false in NY, NM. unfold normalizeDate.
  destruct s as [|c s]; [reflexivity|]. cbn [is_empty].
  rewrite NY, NM. reflexivity.
Qed.

(** A canonical date is a fixed point. *)
Lemma normalizeDate_canonical (s : jsstring) :
  is_canonical s -> normalizeDate s = s.
Proof.
  intros (y & m & d & -> & Hy & Hm & Hd). unfold ymd_string.
  rewrite normalizeDate_ymd; auto.
  - rewrite !padStart0_full; [reflexivity | destruct Hd; lia | destruct Hm; lia].
  - destruct Hm. split; auto.
  - destruct Hd. split; auto.
Qed.

(** Idempotence holds on every input, the two patterns included. *)
Lemma normalizeDate_idempotent (s : jsstring) :
  normalizeDate (normalizeDate s) = normalizeDate s.
Proof.
  rewrite (normalizeDate_trim s).
  destruct (re_test re_ymd (trim s)) eqn:Y.
  - apply re_ymd_spec in Y.
    destruct Y as (y & m & d & s1 & s2 & -> & Hy & Hm & Hd & S1 & S2).
    rewrite normalizeDate_ymd by auto.
    apply normalizeDate_canonical, ymd_string_canonical; auto.
  - destruct (re_test re_mdy (trim s)) eqn:M.
    + apply re_mdy_spec in M.
      destruct M as (m & d & y & s1 & s2 & -> & Hm & Hd & Hy & S1 & S2).
      rewrite normalizeDate_mdy by auto.
      apply normalizeDate_canonical, ymd_string_canonical; auto.
    + assert (E : normalizeDate (trim s) = trim s).
      { rewrite normalizeDate_other; rewrite trim_idem.
        - reflexivity.
        - rewrite <- re_ymd_spec. congruence.
        - rewrite <- re_mdy_spec. congruence. }
      rewrite E. exact E.
Qed.

(** C2 (as amended). [normalizeDate] works on the trimmed input: when the
    trimmed string is [YYYY[-/]M[-/]D] or [M[-/]D[-/]YYYY] the result is
    the canonical [YYYY-MM-DD] with month and day padded to two digits;
    when it is neither, the trimmed string is returned. *)
Theorem normalizeDate_patterns (s : jsstring) :
  (forall y m d s1 s2,
      trim s = y ++ [s1] ++ m ++ [s2] ++ d ->
      digits 4 y -> digits_1_2 m -> digits_1_2 d ->
      is_sep s1 = true -> is_sep s2 = true ->
      normalizeDate s = ymd_string y (padStart0 2 m) (padStart0 2 d)) /\
  (forall m d y s1 s2,
      trim s = m ++ [s1] ++ d ++ [s2] ++ y ->
      digits_1_2 m -> digits_1_2 d -> digits 4 y ->
      is_sep s1 = true -> is_sep s2 = true ->
      normalizeDate s = ymd_string y (padStart0 2 m) (padStart0 2 d)) /\
  (is_ymd (trim s) \/ is_mdy (trim s) -> is_canonical (normalizeDate s)) /\
  (~ is_ymd (trim s) -> ~ is_mdy (trim s) -> normalizeDate s = trim s).
Proof.
  split; [|split; [|split]].
  - intros y m d s1 s2 E Hy Hm Hd S1 S2.
    rewrite normalizeDate_trim, E. apply normalizeDate_ymd; assumption.
  - intros m d y s1 s2 E Hm Hd Hy S1 S2.
    rewrite normalizeDate_trim, E. apply normalizeDate_mdy; assumption.
  - rewrite normalizeDate_trim.
    intros [(y & m & d & s1 & s2 & -> & Hy & Hm & Hd & S1 & S2)
           |(m & d & y & s1 & s2 & -> & Hm & Hd & Hy & S1 & S2)].
    + rewrite normalizeDate_ymd by assumption.
      apply ymd_string_canonical; assumption.
    + rewrite normalizeDate_mdy by assumption.
      apply ymd_string_canonical; assumption.
  - apply normalizeDate_other.
Qed.

Lemma normalizeDate_patterns_witness :
  normalizeDate (js " 2024/3/5 ") = js "2024-03-05" /\
  normalizeDate (js "3-15/2024") = js "2024-03-15" /\
  is_canonical (normalizeDate (js " 2024/3/5 ")) /\
  normalizeDate (js " n/a ") = js "n/a".
Proof.
  destruct (normalizeDate_patterns (js " 2024/3/5 ")) as (H1 & _ & H3 & _).
  destruct (normalizeDate_patterns (js "3-15/2024")) as (_ & H2 & _ & _).
  destruct (normalizeDate_patterns (js " n/a ")) as (_ & _ & _ & H4).
  split; [|split; [|split]].
  - apply (H1 (js "2024") (js "3") (js "5") SLASH SLASH);
      repeat split; auto.
  - apply (H2 (js "3") (js "15") (js "2024") DASH SLASH);
      repeat split; auto.
  - apply H3. left. apply re_ymd_spec. reflexivity.
  - apply H4.
    + rewrite <- re_ymd_spec. discriminate.
    + rewrite <- re_mdy_spec. discriminate.
Defined.

(** C2 as stated fails: a padded date matches neither literal pattern,
    yet it is rewritten, so it does not come back unchanged. *)
Lemma normalizeDate_changes_unmatched :
  ~ is_ymd (js " 2024/3/5") /\ ~ is_mdy (js " 2024/3/5") /\
  normalizeDate (js " 2024/3/5") <> js " 2024/3/5".
Proof.
  split; [|split].
  - rewrite <- re_ymd_spec. discriminate.
  - rewrite <- re_mdy_spec. discriminate.
  - discriminate.
Qed.

Example normalizeDate_trims_other : normalizeDate (js " n/a") = js "n/a".
Proof. reflexivity. Qed.

(** C8. A canonical [YYYY-MM-DD] string is returned unchanged, and on
    every string of either supported pattern the result is canonical and
    normalizing it again changes nothing. *)
Theorem normalizeDate_idempotent_on_patterns (s : jsstring) :
  (is_canonical s -> normalizeDate s = s) /\
  (is_ymd s \/ is_mdy s ->
   is_canonical (normalizeDate s) /\
   normalizeDate (normalizeDate s) = normalizeDate s).
Proof.
  split; [apply normalizeDate_canonical|].
  intros H. split; [|apply normalizeDate_idempotent].
  destruct H as [(y & m & d & s1 & s2 & -> & Hy & Hm & Hd & S1 & S2)
                |(m & d & y & s1 & s2 & -> & Hm & Hd & Hy & S1 & S2)].
  - rewrite normalizeDate_ymd by assumption.
    apply ymd_string_canonical; assumption.
  - rewrite normalizeDate_mdy by assumption.
    apply ymd_string_canonical; assumption.
Qed.

Lemma normalizeDate_idempotent_on_patterns_witness :
  (is_canonical (js "2024-03-05") /\
   normalizeDate (js "2024-03-05") = js "2024-03-05") /\
  (is_mdy (js "3/5/2024") /\
   normalizeDate (normalizeDate (js "3/5/2024")) = normalizeDate (js "3/5/2024")).
Proof.
  assert (C : is_canonical (js "2024-03-05")).
  { exists (js "2024"), (js "03"), (js "05"). repeat split. }
  assert (M : is_mdy (js "3/5/2024")).
  { apply re_mdy_spec. reflexivity. }
  split; (split; [assumption|]).
  - apply (proj1 (normalizeDate_idempotent_on_patterns (js "2024-03-05"))), C.
  - apply (proj2 (normalizeDate_idempotent_on_patterns (js "3/5/2024"))).
    right. exact M.
Defined.

End DateFacts.

(** ** Rows of the CSV file *)

Module CsvFacts.
Import JS Upload JSFacts.

Lemma fold_row_step (headers : list jsstring) (rows : list jsstring)
    (acc : list RawTransaction) :
  fold_left (row_step headers) rows acc =
  acc ++ flat_map (row_out headers) rows.
Proof.
  revert acc. induction rows as [|line rows IH]; intros acc; simpl.
  - symmetry. apply app_nil_r.
  - rewrite IH. unfold row_step, row_out, short_row, accepted, row_transaction.
    destruct (length (parseCSVLine line) <? 3); [reflexivity|].
    destruct (truthy_str _ && truthy_str _); [|reflexivity].
    rewrite <- app_assoc. reflexivity.
Qed.

Lemma row_step_short (headers : list jsstring) acc line :
  short_row line = true -> row_step headers acc line = acc.
Proof. unfold short_row, row_step. intros ->. reflexivity. Qed.

(** Each record of the output is the transaction of an admitted data row
    with at least three fields. *)
Lemma parseCSV_In toLowerCase (text : jsstring) (t : RawTransaction) :
  In t (parseCSV toLowerCase text) <->
  exists line,
    In line (data_rows text) /\ short_row line = false /\
    t = row_transaction (csv_headers toLowerCase text) line /\
    accepted t = true.
Proof.
  unfold parseCSV, data_rows. rewrite fold_row_step. simpl.
  rewrite in_flat_map. split.
  - intros (line & Hin & H). exists line. unfold row_out in H.
    destruct (short_row line); [destruct H|].
    destruct (accepted _) eqn:A; [|destruct H].
    destruct H as [<-|[]]. auto.
  - intros (line & Hin & Hs & -> & A). exists line. unfold row_out.
    rewrite Hs, A. split; [assumption | left; reflexivity].
Qed.

(** Ltac for the four per-field invariants of the header loop. *)
Ltac forEach_field col :=
  let headers := fresh "headers" in
  let h := fresh "h" in
  let IH := fresh "IH" in
  let i := fresh "i" in
  let t := fresh "t" in
  intros headers; induction headers as [|h headers IH]; intros i t;
  [reflexivity|];
  cbn [forEach_header last_header]; rewrite IH;
  destruct (last_header col headers) as [j|];
  [rewrite Nat.add_succ_r; reflexivity|];
  unfold selects, assign;
  destruct (header_column h) as [[]|]; cbn [column_eqb];
  rewrite ?Nat.add_0_r; reflexivity.

Lemma forEach_income (values : list jsstring) :
  forall headers i t,
    income (forEach_header values headers i t) =
    match last_header ColIncome headers with
    | Some j => Some (parseNumber (nth (i + j) values []))
    | None => income t
    end.
Proof. forEach_field ColIncome. Qed.

Lemma forEach_expense (values : list jsstring) :
  forall headers i t,
    expense (forEach_header values headers i t) =
    match last_header ColExpense headers with
    | Some j => Some (parseNumber (nth (i + j) values []))
    | None => expense t
    end.
Proof. forEach_field ColExpense. Qed.

Lemma forEach_date (values : list jsstring) :
  forall headers i t,
    date (forEach_header values headers i t) =
    match last_header ColDate headers with
    | Some j => Some (normalizeDate (nth (i + j) values []))
    | None => date t
    end.
Proof. forEach_field ColDate. Qed.

Lemma forEach_category (values : list jsstring) :
  forall headers i t,
    category (forEach_header values headers i t) =
    match last_header ColCategory headers with
    | Some j => Some (nth (i + j) values [])
    | None => category t
    end.
Proof. forEach_field ColCategory. Qed.

Lemma truthy_str_spec (o : option jsstring) :
  truthy_str o = true <-> exists s, o = Some s /\ s <> [].
Proof.
  destruct o as [[|c s]|]; simpl; split; try discriminate.
  - intros (s & [= <-] & N). contradiction.
  - intros _. exists (c :: s). split; [reflexivity | discriminate].
  - intros (s' & _ & _). reflexivity.
  - intros (s & E & _). discriminate.
Qed.

(** The cell read for a column, [values[index] || ""]. *)
Lemma nth_csv_value (values : list jsstring) (i : nat) :
  nth i values [] =
  match csv_value (Some i) values with Some v => v | None => [] end.
Proof.
  simpl. destruct (nth_error values i) eqn:E.
  - apply nth_error_nth, E.
  - apply nth_overflow, nth_error_None, E.
Qed.

Lemma parseNumber_unusable (cell : option jsstring) :
  unusable cell ->
  parseNumber (match cell with Some v => v | None => [] end) = zero.
Proof.
  destruct cell as [v|]; simpl; [|reflexivity].
  intros [->|E]; [reflexivity|].
  unfold parseNumber. rewrite E. destruct (is_empty v); reflexivity.
Qed.

Lemma or_zero_negative (x : number) :
  is_negative (or_zero x) = true -> is_negative x = true.
Proof. unfold or_zero. destruct (truthy x); [auto | discriminate]. Qed.

Lemma read_sign_negative (s : jsstring) :
  fst (read_sign s) = true -> startsWith [DASH] s = true.
Proof.
  destruct s as [|c s]; simpl; [discriminate|].
  destruct (char_eqb c DASH) eqn:D.
  - intros _. unfold char_eqb in *. apply N.eqb_eq in D. subst c. reflexivity.
  - destruct (char_eqb c PLUS); discriminate.
Qed.

Lemma parseFloat_negative (s : jsstring) :
  is_negative (parseFloat s) = true -> startsWith [DASH] (trimStart s) = true.
Proof.
  unfold parseFloat. intros H. apply read_sign_negative.
  destruct (read_sign (trimStart s)) as [neg body]. simpl.
  destruct (startsWith (js "Infinity") body); [exact H|].
  match type of H with
  | is_negative (if ?c then _ else _) = _ => destruct c; [discriminate|]
  end.
  simpl in H. apply andb_true_iff in H. apply H.
Qed.

(** A parsed amount is negative only when its cell carries a minus sign. *)
Lemma parseNumber_negative (v : jsstring) :
  is_negative (parseNumber v) = true -> minus_signed (Some v) = true.
Proof.
  unfold parseNumber. destruct (is_empty v); [discriminate|].
  intros H. apply parseFloat_negative, or_zero_negative, H.
Qed.

Lemma or_zero_not_NaN (x : number) : or_zero x <> NaN.
Proof. destruct x as [|n|n m e]; unfold or_zero; simpl; try discriminate.
  destruct (negb (m =? 0)%N); discriminate. Qed.

Lemma parseNumber_not_NaN (v : jsstring) : parseNumber v <> NaN.
Proof.
  unfold parseNumber. destruct (is_empty v); [discriminate | apply or_zero_not_NaN].
Qed.

Lemma or_zero_idem (x : number) : or_zero (or_zero x) = or_zero x.
Proof. unfold or_zero. destruct (truthy x) eqn:E; [rewrite E|]; reflexivity. Qed.

Lemma or_zero_parseNumber (v : jsstring) : or_zero (parseNumber v) = parseNumber v.
Proof.
  unfold parseNumber. destruct (is_empty v); [reflexivity | apply or_zero_idem].
Qed.

Lemma short_rows_partition (rows : list jsstring) :
  length rows =
  length (filter (fun line => negb (short_row line)) rows) +
  length (filter short_row rows).
Proof.
  induction rows as [|l rows IH]; simpl; [reflexivity|].
  destruct (short_row l); simpl; lia.
Qed.

Lemma row_out_considered (headers : list jsstring) (rows : list jsstring) :
  flat_map (row_out headers) rows =
  flat_map (row_out headers) (filter (fun line => negb (short_row line)) rows).
Proof.
  induction rows as [|l rows IH]; simpl; [reflexivity|].
  destruct (short_row l) eqn:S; simpl; [|rewrite IH; reflexivity].
  unfold row_out at 1. rewrite S. exact IH.
Qed.

Lemma row_out_length (headers : list jsstring) (rows : list jsstring) :
  length (flat_map (row_out headers) rows) <= length rows.
Proof.
  induction rows as [|l rows IH]; simpl; [lia|].
  rewrite length_app. unfold row_out at 1.
  destruct (short_row l); [simpl; lia|].
  destruct (accepted _); simpl; lia.
Qed.

Section Rows.

Variable toLowerCase : jsstring -> jsstring.

Lemma amount_defaults_intro (col : option nat) (values : list jsstring)
    (field : option number) :
  field = match col with
          | Some j => Some (parseNumber (nth j values []))
          | None => None
          end ->
  amount_defaults col values field.
Proof.
  intros ->. split; [|split].
  - intros i -> U. rewrite nth_csv_value. simpl.
    rewrite (parseNumber_unusable _ U). reflexivity.
  - intros ->. reflexivity.
  - destruct col as [i|]; [|reflexivity]. intros U.
    rewrite nth_csv_value. rewrite (parseNumber_unusable _ U). reflexivity.
Qed.

(** C3 (as amended). Every record returned by [parseCSV] has a
    non-empty normalized date and a non-empty category, and comes from a
    data row of at least three fields; its income (expense) is zero
    whenever the header has an income (expense) column and the cell
    under it is absent, empty or not parsable as a number.  When the
    header has no such column the field is left undefined, and it is
    zero only once read through [t.income || 0], as the handler does
    for the row it sends. *)
Theorem parseCSV_records (text : jsstring) (t : RawTransaction) :
  In t (parseCSV toLowerCase text) ->
  (exists d, date t = Some d /\ d <> []) /\
  (exists c, category t = Some c /\ c <> []) /\
  exists line,
    In line (data_rows text) /\ 3 <= length (parseCSVLine line) /\
    (exists i, last_header ColDate (csv_headers toLowerCase text) = Some i /\
               date t = Some (normalizeDate (nth i (parseCSVLine line) []))) /\
    amount_defaults (last_header ColIncome (csv_headers toLowerCase text))
                    (parseCSVLine line) (income t) /\
    amount_defaults (last_header ColExpense (csv_headers toLowerCase text))
                    (parseCSVLine line) (expense t).
Proof.
  intros H. apply parseCSV_In in H. destruct H as (line & Hin & Hs & -> & A).
  unfold accepted in A. apply andb_true_iff in A. destruct A as [Ad Ac].
  split; [apply truthy_str_spec, Ad|]. split; [apply truthy_str_spec, Ac|].
  exists line. split; [assumption|].
  split; [apply Nat.ltb_ge, Hs|].
  unfold row_transaction in *. split; [|split].
  - rewrite forEach_date in *.
    destruct (last_header ColDate _) as [i|]; [|discriminate].
    exists i. split; reflexivity.
  - apply amount_defaults_intro. rewrite forEach_income. reflexivity.
  - apply amount_defaults_intro. rewrite forEach_expense. reflexivity.
Qed.

(** C4 (as amended). Every record prepared for insertion has numeric
    income and expense, never [NaN]; an amount is negative only when the
    cell it was read from carries a minus sign, so amounts are
    non-negative on files whose amount cells are unsigned. *)
Theorem parseCSV_amounts (bookId userId text : jsstring) (t : RawTransaction) :
  In t (parseCSV toLowerCase text) ->
  ins_income (toInsert bookId userId t) <> NaN /\
  ins_expense (toInsert bookId userId t) <> NaN /\
  exists line,
    In line (data_rows text) /\
    t = row_transaction (csv_headers toLowerCase text) line /\
    (minus_signed (csv_value (last_header ColIncome (csv_headers toLowerCase text))
                             (parseCSVLine line)) = false ->
     is_negative (ins_income (toInsert bookId userId t)) = false) /\
    (minus_signed (csv_value (last_header ColExpense (csv_headers toLowerCase text))
                             (parseCSVLine line)) = false ->
     is_negative (ins_expense (toInsert bookId userId t)) = false).
Proof.
  intros H. apply parseCSV_In in H. destruct H as (line & Hin & Hs & -> & A).
  unfold toInsert, row_transaction. cbn [ins_income ins_expense].
  rewrite forEach_income, forEach_expense. cbn [income expense empty_transaction].
  set (headers := csv_headers toLowerCase text).
  set (values := parseCSVLine line).
  assert (G : forall col,
    num_or_zero match col with
                | Some j => Some (parseNumber (nth (0 + j) values []))
                | None => None
                end <> NaN /\
    (minus_signed (csv_value col values) = false ->
     is_negative (num_or_zero match col with
                  | Some j => Some (parseNumber (nth (0 + j) values []))
                  | None => None
                  end) = false)).
  { intros [j|]; cbn [num_or_zero Nat.add]; [|split; [discriminate | reflexivity]].
    rewrite or_zero_parseNumber. split; [apply parseNumber_not_NaN|].
    intros M. apply not_true_is_false. intros N.
    apply parseNumber_negative in N. rewrite nth_csv_value in N.
    cbn [csv_value] in *. destruct (nth_error values j) as [v|].
    - simpl in M, N. congruence.
    - discriminate. }
  split; [apply G|]. split; [apply G|].
  exists line. split; [assumption|]. split; [reflexivity|].
  split; apply G.
Qed.

(** C5. A data row with fewer than three fields leaves the output as it
    is; the data rows split into the rows considered and the rows
    discarded for being short, and the output is the one computed from
    the rows considered alone. *)
Theorem parseCSV_skips_short_rows (text : jsstring) :
  let rows := data_rows text in
  let headers := csv_headers toLowerCase text in
  let considered := filter (fun line => negb (short_row line)) rows in
  let discarded := filter short_row rows in
  length rows = length considered + length discarded /\
  (forall acc line, In line discarded -> row_step headers acc line = acc) /\
  parseCSV toLowerCase text = fold_left (row_step headers) considered [] /\
  length (parseCSV toLowerCase text) <= length considered.
Proof.
  intros rows headers considered discarded. split; [|split; [|split]].
  - apply short_rows_partition.
  - intros acc line H. apply filter_In in H. apply row_step_short, H.
  - unfold parseCSV. fold (data_rows text). fold rows. fold headers.
    rewrite !fold_row_step. simpl. apply row_out_considered.
  - unfold parseCSV. fold (data_rows text). fold rows. fold headers.
    rewrite fold_row_step. simpl. rewrite row_out_considered.
    apply row_out_length.
Qed.

End Rows.

Example parseCSV_sample :
  parseCSV ascii_toLowerCase sample_csv =
  [RawTx (Some (js "2024-03-05")) (Some (js "Food")) None
         (Some zero) (Some (Finite false 1250 (-2))) None None].
Proof. reflexivity. Qed.

Lemma parseCSV_records_witness :
  In sparse_record (parseCSV ascii_toLowerCase sparse_csv) /\
  (exists d, date sparse_record = Some d /\ d <> []) /\
  (exists c, category sparse_record = Some c /\ c <> []).
Proof.
  assert (H : In sparse_record (parseCSV ascii_toLowerCase sparse_csv))
    by (left; reflexivity).
  split; [exact H|].
  destruct (parseCSV_records ascii_toLowerCase sparse_csv sparse_record H)
    as (D & C & _).
  split; assumption.
Defined.

Lemma parseCSV_amounts_witness :
  In sparse_record (parseCSV ascii_toLowerCase sparse_csv) /\
  ins_income (toInsert (js "book") (js "user") sparse_record) <> NaN /\
  ins_expense (toInsert (js "book") (js "user") sparse_record) <> NaN.
Proof.
  assert (H : In sparse_record (parseCSV ascii_toLowerCase sparse_csv))
    by (left; reflexivity).
  split; [exact H|].
  destruct (parseCSV_amounts ascii_toLowerCase (js "book") (js "user")
              sparse_csv sparse_record H) as (I & E & _).
  split; assumption.
Defined.

Lemma parseCSV_skips_short_rows_witness :
  In (js "2024/3/6,Rent")
     (filter short_row (data_rows sparse_csv)) /\
  row_step (csv_headers ascii_toLowerCase sparse_csv) [sparse_record]
           (js "2024/3/6,Rent") = [sparse_record].
Proof.
  assert (H : In (js "2024/3/6,Rent") (filter short_row (data_rows sparse_csv)))
    by (left; reflexivity).
  split; [exact H|].
  destruct (parseCSV_skips_short_rows ascii_toLowerCase sparse_csv) as (_ & S & _).
  apply S, H.
Defined.

(** C3 as stated fails: without an income column the income of a
    record is undefined, not zero; the row sent to the store has zero. *)
Lemma parseCSV_income_undefined :
  exists t,
    parseCSV ascii_toLowerCase expense_only_csv = [t] /\
    income t = None /\ income t <> Some zero /\
    expense t = Some (Finite false 1250 (-2)) /\
    ins_income (toInsert (js "book") (js "user") t) = zero.
Proof.
  eexists. split; [reflexivity|]. repeat split. discriminate.
Qed.

(** C4 as stated fails: signed cells give negative amounts. *)
Lemma parseCSV_negative_amounts :
  exists t,
    In t (parseCSV ascii_toLowerCase refund_csv) /\
    ins_income (toInsert (js "book") (js "user") t) = Finite true 5 0 /\
    is_negative (ins_income (toInsert (js "book") (js "user") t)) = true /\
    is_negative (ins_expense (toInsert (js "book") (js "user") t)) = true.
Proof.
  eexists. split; [left; reflexivity|]. repeat split.
Qed.

End CsvFacts.

(** ** The file handler *)

Module HandlerFacts.
Import JS Upload.

Section Guard.

Variable toLowerCase : jsstring -> jsstring.
Variable Store : Type.
Variable db_insert : list InsertRow -> Store -> Store * option jsstring.
Variables bookId userId : jsstring.

Local Abbreviation handle :=
  (handleFileSelect toLowerCase db_insert bookId userId).

Lemma length_zero_nil {A : Type} (l : list A) : (length l =? 0) = true <-> l = [].
Proof. destruct l; simpl; split; congruence. Qed.

(** The state left when the file passes both checks. *)
Lemma handleFileSelect_accepts (file : File) (st : UploadState Store) content :
  endsWith (js ".csv") (name file) = true ->
  text file = inl content ->
  parseCSV toLowerCase content <> [] ->
  insertRequests (handle (Some file) st) =
  insertRequests st ++ [map (toInsert bookId userId) (parseCSV toLowerCase content)].
Proof.
  intros E T P. unfold handleFileSelect, try_block, insert.
  rewrite E, T. cbn [negb].
  destruct (length (parseCSV toLowerCase content) =? 0) eqn:L.
  { apply length_zero_nil in L. contradiction. }
  cbn [store setIsUploading].
  destruct (db_insert _ _) as [store' [message|]]; reflexivity.
Qed.

(** C9. The insert is attempted only for a file whose name ends in
    [.csv] and whose text parses to at least one record.  With a wrong
    extension the handler only shows an error; with zero valid rows it
    shows an error and leaves the uploading flag off: in both cases the
    store, the requests sent to it, the file input and the completion
    counter are as before, and so is the whole state of an idle
    component, the notification apart. *)
Theorem handleFileSelect_guard (file : File) (st : UploadState Store) :
  (insertRequests (handle (Some file) st) <> insertRequests st ->
   endsWith (js ".csv") (name file) = true /\
   exists content, text file = inl content /\
                   parseCSV toLowerCase content <> []) /\
  (endsWith (js ".csv") (name file) = false ->
   handle (Some file) st =
   toast (ToastError (js "Please upload a CSV file")) st) /\
  (forall content,
     endsWith (js ".csv") (name file) = true ->
     text file = inl content ->
     parseCSV toLowerCase content = [] ->
     handle (Some file) st =
     setIsUploading false
       (toast (ToastError (js "No valid transactions found in CSV")) st) /\
     (isUploading st = false ->
      handle (Some file) st =
      toast (ToastError (js "No valid transactions found in CSV")) st)).
Proof.
  split; [|split].
  - unfold handleFileSelect, try_block, insert.
    destruct (endsWith (js ".csv") (name file)); cbn [negb];
      [|intros H; contradiction H; reflexivity].
    destruct (text file) as [content|message];
      [|intros H; contradiction H; reflexivity].
    destruct (length (parseCSV toLowerCase content) =? 0) eqn:L;
      [intros H; contradiction H; reflexivity|].
    intros _. split; [reflexivity|]. exists content. split; [reflexivity|].
    intros N. rewrite N in L. discriminate.
  - intros E. unfold handleFileSelect. rewrite E. reflexivity.
  - intros content E T P. unfold handleFileSelect, try_block.
    rewrite E, T, P. cbn.
    split; [reflexivity|]. intros U. destruct st; cbn in *. subst. reflexivity.
Qed.

End Guard.

Lemma handleFileSelect_guard_witness :
  handleFileSelect ascii_toLowerCase list_insert (js "book") (js "user")
    (Some (MkFile (js "march.txt") (inl sample_csv))) idle =
  toast (ToastError (js "Please upload a CSV file")) idle /\
  handleFileSelect ascii_toLowerCase list_insert (js "book") (js "user")
    (Some (MkFile (js "march.csv") (inl (js "Date,Category,Income")))) idle =
  toast (ToastError (js "No valid transactions found in CSV")) idle /\
  (endsWith (js ".csv") (js "march.csv") = true /\
   exists content,
     @inl jsstring jsstring sample_csv = inl content /\
     parseCSV ascii_toLowerCase content <> []).
Proof.
  destruct (handleFileSelect_guard ascii_toLowerCase _ list_insert (js "book")
              (js "user") (MkFile (js "march.txt") (inl sample_csv)) idle)
    as (_ & W & _).
  destruct (handleFileSelect_guard ascii_toLowerCase _ list_insert (js "book")
              (js "user") (MkFile (js "march.csv") (inl (js "Date,Category,Income")))
              idle) as (_ & _ & Z).
  destruct (handleFileSelect_guard ascii_toLowerCase _ list_insert (js "book")
              (js "user") (MkFile (js "march.csv") (inl sample_csv)) idle)
    as (G & _ & _).
  split; [|split].
  - apply W. reflexivity.
  - apply (Z (js "Date,Category,Income")); reflexivity.
  - apply G. discriminate.
Defined.

Example handleFileSelect_uploads :
  store (handleFileSelect ascii_toLowerCase list_insert (js "book") (js "user")
           (Some (MkFile (js "march.csv") (inl sample_csv))) idle) =
  [Row (js "book") (js "user") (Some (js "2024-03-05")) (js "Food") None
       zero (Finite false 1250 (-2)) None None None].
Proof. reflexivity. Qed.

End HandlerFacts.

(** ** Sorting *)

Module SortFacts.
Import JS.

Section Generic.

Context {A : Type}.
Variable compare : A -> A -> option Z.

Lemma sort_insert_perm (a : A) (l : list A) :
  Permutation (sort_insert compare a l) (a :: l).
Proof.
  induction l as [|b l IH]; simpl; [reflexivity|].
  destruct (keeps_before compare a b); [reflexivity|].
  rewrite IH. apply perm_swap.
Qed.

Lemma sort_perm (l : list A) : Permutation (sort compare l) l.
Proof.
  induction l as [|a l IH]; simpl; [reflexivity|].
  rewrite sort_insert_perm. constructor. exact IH.
Qed.


Lemma sort_In (l : list A) (x : A) : In x (sort compare l) <-> In x l.
Proof.
  split; apply Permutation_in; [|symmetry]; apply sort_perm.
Qed.

(** A comparator that always answers [NaN] or zero on the elements of
    the array leaves it as it is. *)
Lemma sort_insert_front (a : A) (l : list A) :
  (forall b, In b l -> keeps_before compare a b = true) ->
  sort_insert compare a l = a :: l.
Proof.
  destruct l as [|b l]; simpl; [reflexivity|].
  intros H. rewrite (H b); auto.
Qed.

Lemma sort_unordered (l : list A) :
  (forall a b, In a l -> In b l -> keeps_before compare a b = true) ->
  sort compare l = l.
Proof.
  induction l as [|a l IH]; intros H; simpl; [reflexivity|].
  rewrite IH by (intros; apply H; simpl; auto).
  apply sort_insert_front. intros b Hb. apply H; simpl; auto.
Qed.

End Generic.

(** Sorting by a key, largest first or smallest first. *)
Section ByKey.

Context {A : Type}.
Variable key : A -> Z.
Variable compare : A -> A -> option Z.

Section Descending.

Hypothesis compare_desc : forall a b, compare a b = Some (key b - key a)%Z.

Local Abbreviation desc := (fun a b : A => (key b <= key a)%Z).

Lemma keeps_before_desc a b : keeps_before compare a b = (key b <=? key a)%Z.
Proof.
  unfold keeps_before. rewrite compare_desc.
  destruct (Z.leb_spec (key b - key a) 0), (Z.leb_spec (key b) (key a));
    auto; lia.
Qed.

Lemma sort_insert_desc (a : A) (l : list A) :
  StronglySorted desc l -> StronglySorted desc (sort_insert compare a l).
Proof.
  induction 1 as [|b l Hs IH Hb]; simpl.
  - repeat constructor.
  - rewrite keeps_before_desc. destruct (Z.leb_spec (key b) (key a)) as [L|L].
    + constructor; [constructor; assumption|].
      constructor; [exact L|].
      eapply Forall_impl; [|exact Hb]. simpl. intros; lia.
    + constructor; [exact IH|].
      eapply Permutation_Forall; [symmetry; apply sort_insert_perm|].
      constructor; [simpl; lia | exact Hb].
Qed.

Lemma sort_desc (l : list A) : StronglySorted desc (sort compare l).
Proof.
  induction l as [|a l IH]; simpl; [constructor | apply sort_insert_desc, IH].
Qed.



End Descending.

End ByKey.



End SortFacts.

(** ** Dictionaries *)

Module ObjFacts.
Import JS SortFacts.

Lemma str_eqb_eq (a b : jsstring) : str_eqb a b = true <-> a = b.
Proof.
  revert b. induction a as [|x a IH]; intros [|y b]; simpl;
    try (split; congruence).
  rewrite andb_true_iff, IH. unfold char_eqb. rewrite N.eqb_eq.
  split; [intros [-> ->]; reflexivity | intros [= -> ->]; auto].
Qed.

Lemma str_eqb_refl (a : jsstring) : str_eqb a a = true.
Proof. apply str_eqb_eq. reflexivity. Qed.

Lemma str_eqb_neq (a b : jsstring) : str_eqb a b = false <-> a <> b.
Proof.
  rewrite <- str_eqb_eq. destruct (str_eqb a b); split; congruence.
Qed.

Lemma str_eqb_sym (a b : jsstring) : str_eqb a b = str_eqb b a.
Proof.
  destruct (str_eqb a b) eqn:E; symmetry.
  - apply str_eqb_eq. symmetry. apply str_eqb_eq, E.
  - apply str_eqb_neq. intros H. apply str_eqb_neq in E. auto.
Qed.

Section Obj.

Context {V : Type}.
Implicit Types (o : obj V) (k : jsstring) (v : V).

Lemma obj_get_set o k v k' :
  obj_get (obj_set o k v) k' = if str_eqb k k' then Some v else obj_get o k'.
Proof.
  induction o as [|[k0 v0] o IH]; simpl.
  - reflexivity.
  - destruct (str_eqb k0 k) eqn:E; simpl.
    + apply str_eqb_eq in E. subst k0. destruct (str_eqb k k'); reflexivity.
    + rewrite IH. destruct (str_eqb k0 k') eqn:E'; [|reflexivity].
      apply str_eqb_eq in E'. subst k0. rewrite str_eqb_sym, E. reflexivity.
Qed.

Lemma obj_get_None o k : obj_get o k = None <-> ~ In k (map fst o).
Proof.
  induction o as [|[k0 v0] o IH]; simpl; [tauto|].
  destruct (str_eqb k0 k) eqn:E.
  - apply str_eqb_eq in E. split; [discriminate | intros H; contradiction H; auto].
  - apply str_eqb_neq in E. rewrite IH. tauto.
Qed.

(** Keys after an assignment: a new key goes last. *)
Lemma obj_set_keys o k v :
  map fst (obj_set o k v) =
  match obj_get o k with
  | Some _ => map fst o
  | None => map fst o ++ [k]
  end.
Proof.
  induction o as [|[k0 v0] o IH]; simpl; [reflexivity|].
  destruct (str_eqb k0 k) eqn:E; simpl; [reflexivity|].
  rewrite IH. destruct (obj_get o k); reflexivity.
Qed.

Lemma obj_set_NoDup o k v : NoDup (map fst o) -> NoDup (map fst (obj_set o k v)).
Proof.
  intros H. rewrite obj_set_keys. destruct (obj_get o k) eqn:E; [exact H|].
  apply obj_get_None in E. apply NoDup_app; auto.
  - repeat constructor. intros [].
  - intros x Hx [<-|[]]. contradiction.
Qed.

Lemma obj_get_In o k v :
  NoDup (map fst o) -> (In (k, v) o <-> obj_get o k = Some v).
Proof.
  induction o as [|[k0 v0] o IH]; simpl; intros H.
  - split; [intros [] | discriminate].
  - inversion H as [|? ? Hn Hd]; subst.
    destruct (str_eqb k0 k) eqn:E.
    + apply str_eqb_eq in E. subst k0. split.
      * intros [[= ->]|Hin]; [reflexivity|].
        contradiction Hn. apply (in_map fst) in Hin. exact Hin.
      * intros [= ->]. auto.
    + apply str_eqb_neq in E. rewrite <- (IH Hd). split.
      * intros [[= -> ->]|Hin]; [contradiction | exact Hin].
      * auto.
Qed.

Lemma filter_partition_perm {A : Type} (p : A -> bool) (l : list A) :
  Permutation (filter p l ++ filter (fun x => negb (p x)) l) l.
Proof.
  induction l as [|a l IH]; simpl; [reflexivity|].
  destruct (p a); simpl.
  - constructor. exact IH.
  - rewrite <- Permutation_middle. constructor. exact IH.
Qed.

Lemma Object_entries_perm o : Permutation (Object_entries o) o.
Proof.
  unfold Object_entries. rewrite sort_perm. apply filter_partition_perm.
Qed.

(** An object without array-index keys is listed in creation order. *)
Lemma Object_entries_plain o :
  Forall (fun k => is_array_index k = false) (map fst o) ->
  Object_entries o = o.
Proof.
  intros H. unfold Object_entries.
  assert (E : forall l : obj V,
    Forall (fun k => is_array_index k = false) (map fst l) ->
    filter (fun e => is_array_index (fst e)) l = [] /\
    filter (fun e => negb (is_array_index (fst e))) l = l).
  { induction l as [|e l IH]; simpl; intros F; [auto|].
    inversion F as [|? ? Fe Fl]; subst. rewrite Fe. simpl.
    destruct (IH Fl) as [-> ->]. auto. }
  destruct (E o H) as [-> ->]. reflexivity.
Qed.

End Obj.

End ObjFacts.

(** ** Aggregation by category *)

Module AggregationFacts.
Import JS Dashboard SortFacts ObjFacts TopN.
Local Open Scope Z_scope.

Lemma spends_on_spec (label : Transaction -> jsstring) k t :
  spends_on label k t = true <-> 0 < expense t /\ label t = k.
Proof.
  unfold spends_on. rewrite andb_true_iff, Z.ltb_lt, str_eqb_eq. tauto.
Qed.

(** What [grouped] holds under a key once all transactions are added. *)
Lemma group_by_category_get (ts : list Transaction) :
  forall (grouped : obj Z) (k : jsstring),
    obj_get (fold_left ChartSection.group_step ts grouped) k =
    match obj_get grouped k with
    | Some v => Some (v + expense_sum (spends_on category k) ts)
    | None =>
        if existsb (spends_on category k) ts
        then Some (expense_sum (spends_on category k) ts)
        else None
    end.
Proof.
  induction ts as [|t ts IH]; intros grouped k.
  - simpl. destruct (obj_get grouped k); [f_equal; unfold expense_sum; simpl; lia
                                         | reflexivity].
  - cbn [fold_left]. rewrite IH.
    unfold expense_sum, spends_on, ChartSection.group_step, ChartSection.add_to.
    cbn [existsb filter].
    destruct (0 <? expense t) eqn:P; cbn [andb].
    + rewrite obj_get_set. destruct (str_eqb (category t) k) eqn:E.
      * apply str_eqb_eq in E. subst k. cbn [orb map fold_right].
        destruct (obj_get grouped (category t)); f_equal; lia.
      * cbn [orb]. reflexivity.
    + cbn [orb]. reflexivity.
Qed.

Lemma group_by_category_NoDup (ts : list Transaction) :
  forall grouped : obj Z,
    NoDup (map fst grouped) ->
    NoDup (map fst (fold_left ChartSection.group_step ts grouped)).
Proof.
  induction ts as [|t ts IH]; intros grouped H; simpl; [exact H|].
  apply IH. unfold ChartSection.group_step.
  destruct (0 <? expense t); [apply obj_set_NoDup, H | exact H].
Qed.

(** The entries of [grouped] are the aggregation by category. *)
Lemma group_by_category_aggregates (ts : list Transaction) :
  aggregates category ts
             (map ChartSection.entry_of (ChartSection.group_by_category ts)).
Proof.
  unfold ChartSection.group_by_category.
  pose proof (group_by_category_NoDup ts [] (NoDup_nil _)) as ND.
  pose proof (group_by_category_get ts []) as G.
  set (grouped := fold_left ChartSection.group_step ts []) in *.
  assert (N : map name (map ChartSection.entry_of grouped) = map fst grouped).
  { rewrite map_map. reflexivity. }
  split; [rewrite N; exact ND|].
  intros n v.
  assert (I : In (MkEntry n v) (map ChartSection.entry_of grouped) <->
              In (n, v) grouped).
  { rewrite in_map_iff. unfold ChartSection.entry_of, toFixed2. split.
    - intros ([k w] & [= -> ->] & H). exact H.
    - intros H. exists (n, v). auto. }
  rewrite I, (obj_get_In _ _ _ ND), G. cbn [obj_get].
  destruct (existsb (spends_on category n) ts) eqn:E.
  - apply existsb_exists in E. destruct E as (t & Hin & Ht).
    apply spends_on_spec in Ht. split.
    + intros [= <-]. split; [exists t; tauto | reflexivity].
    + intros [_ ->]. reflexivity.
  - split; [discriminate|]. intros [(t & Hin & Hp & Hl) _].
    assert (X : existsb (spends_on category n) ts = true).
    { apply existsb_exists. exists t. split; [exact Hin|].
      apply spends_on_spec. auto. }
    congruence.
Qed.

Lemma aggregates_perm (label : Transaction -> jsstring) ts r r' :
  Permutation r r' -> aggregates label ts r -> aggregates label ts r'.
Proof.
  intros P [ND H]. split.
  - eapply Permutation_NoDup; [apply Permutation_map, P | exact ND].
  - intros n v. rewrite <- H. split; apply Permutation_in; [symmetry|]; exact P.
Qed.

(** The reducer of the basic chart section keeps the same dictionary,
    as a list of entries. *)
Lemma find_named_obj_get (acc : list NameValue) (k : jsstring) :
  option_map value (find (ChartSectionBasic.named k) acc) =
  obj_get (map (fun e => (name e, value e)) acc) k.
Proof.
  induction acc as [|e acc IH]; simpl; [reflexivity|].
  unfold ChartSectionBasic.named at 1.
  destruct (str_eqb (name e) k); [reflexivity | exact IH].
Qed.

Lemma bump_obj_set (acc : list NameValue) (k : jsstring) (a v : Z) :
  obj_get (map (fun e => (name e, value e)) acc) k = Some v ->
  map (fun e => (name e, value e)) (ChartSectionBasic.bump k a acc) =
  obj_set (map (fun e => (name e, value e)) acc) k (v + a).
Proof.
  induction acc as [|e acc IH]; simpl; [discriminate|].
  unfold ChartSectionBasic.named.
  destruct (str_eqb (name e) k) eqn:E; simpl.
  - intros [= <-]. reflexivity.
  - intros H. rewrite (IH H). reflexivity.
Qed.

Lemma obj_set_new {V : Type} (o : obj V) k v :
  obj_get o k = None -> obj_set o k v = o ++ [(k, v)].
Proof.
  induction o as [|[k0 v0] o IH]; simpl; [reflexivity|].
  destruct (str_eqb k0 k); [discriminate|]. intros H. rewrite (IH H). reflexivity.
Qed.

Lemma category_step_group_step (acc : list NameValue) (t : Transaction) :
  map (fun e => (name e, value e)) (ChartSectionBasic.category_step acc t) =
  ChartSection.group_step (map (fun e => (name e, value e)) acc) t.
Proof.
  unfold ChartSectionBasic.category_step, ChartSection.group_step,
    ChartSection.add_to.
  destruct (0 <? expense t); [|reflexivity].
  pose proof (find_named_obj_get acc (category t)) as F.
  destruct (find _ acc) as [existing|]; simpl in F; rewrite <- F.
  - apply bump_obj_set. symmetry. exact F.
  - rewrite obj_set_new by (symmetry; exact F).
    rewrite map_app. reflexivity.
Qed.

Lemma basic_categoryData_grouped (ts : list Transaction) :
  ChartSectionBasic.categoryData ts =
  map ChartSection.entry_of (ChartSection.group_by_category ts).
Proof.
  unfold ChartSectionBasic.categoryData, ChartSection.group_by_category.
  assert (G : forall acc,
    map (fun e => (name e, value e))
        (fold_left ChartSectionBasic.category_step ts acc) =
    fold_left ChartSection.group_step ts (map (fun e => (name e, value e)) acc)).
  { induction ts as [|t ts IH]; intros acc; simpl; [reflexivity|].
    rewrite IH, category_step_group_step. reflexivity. }
  specialize (G []). simpl in G. rewrite <- G, map_map.
  unfold ChartSection.entry_of, toFixed2. simpl.
  rewrite <- (map_id (fold_left _ ts [])) at 1.
  apply map_ext. intros [n v]. reflexivity.
Qed.

(** Read as a list of own properties, the dictionary of the chart
    section with a navigator has one entry per category carried by a
    transaction of positive expense, holding the sum of those expenses. *)
Lemma categoryData_own_aggregates (ts : list Transaction) :
  aggregates category ts (ChartSection.categoryData ts).
Proof.
  unfold ChartSection.categoryData.
  eapply aggregates_perm; [|apply group_by_category_aggregates].
  symmetry. rewrite sort_perm. apply Permutation_map, Object_entries_perm.
Qed.

(** The raw string is the key: labels that differ in case are apart. *)
Example categoryData_raw_labels :
  ChartSection.categoryData [spent "Food" 3000; spent "food" 2000] =
  [MkEntry (js "Food") 3000; MkEntry (js "food") 2000].
Proof. reflexivity. Qed.


Example top_ties_keep_order :
  top 2 [MkEntry (js "a") 5; MkEntry (js "b") 7; MkEntry (js "c") 5;
         MkEntry (js "d") 7] =
  [MkEntry (js "b") 7; MkEntry (js "d") 7].
Proof. reflexivity. Qed.

End AggregationFacts.

(** ** The calendar behind [new Date] *)

Module CalendarFacts.
Import JS.
Local Open Scope Z_scope.

Lemma is_leap_spec y :
  is_leap y = true <-> (y mod 4 = 0 /\ y mod 100 <> 0) \/ y mod 400 = 0.
Proof.
  unfold is_leap.
  rewrite orb_true_iff, andb_true_iff, negb_true_iff, !Z.eqb_eq, Z.eqb_neq.
  tauto.
Qed.

Lemma days_in_month_cases y m :
  1 <= m <= 12 ->
  (m = 2 /\ ((y mod 4 = 0 /\ y mod 100 <> 0) \/ y mod 400 = 0) /\
   days_in_month y m = 29) \/
  (m = 2 /\ ~ ((y mod 4 = 0 /\ y mod 100 <> 0) \/ y mod 400 = 0) /\
   days_in_month y m = 28) \/
  ((m = 4 \/ m = 6 \/ m = 9 \/ m = 11) /\ days_in_month y m = 30) \/
  ((m = 1 \/ m = 3 \/ m = 5 \/ m = 7 \/ m = 8 \/ m = 10 \/ m = 12) /\
   days_in_month y m = 31).
Proof.
  intros H. unfold days_in_month.
  destruct (Z.eqb_spec m 2) as [->|N2].
  - destruct (is_leap y) eqn:L.
    + left. split; [reflexivity|]. split; [apply is_leap_spec, L | reflexivity].
    + right; left. split; [reflexivity|]. split; [|reflexivity].
      rewrite <- is_leap_spec. congruence.
  - right; right.
    destruct (Z.eqb_spec m 4), (Z.eqb_spec m 6), (Z.eqb_spec m 9),
      (Z.eqb_spec m 11); simpl;
      first [left; split; [lia | reflexivity] | right; split; [lia | reflexivity]].
Qed.

Ltac div_lia := Z.div_mod_to_equations; lia.

Lemma doe_range yoe m d :
  0 <= yoe <= 399 -> 1 <= m <= 12 -> 1 <= d ->
  d <= days_in_month (yoe + (if m <=? 2 then 1 else 0)) m ->
  0 <= doe_of_civil yoe m d < 146097.
Proof.
  intros Hy Hm Hd1 Hd2. unfold doe_of_civil.
  pose proof (days_in_month_cases (yoe + (if m <=? 2 then 1 else 0)) m Hm) as C.
  destruct (Z.leb_spec m 2), (Z.ltb_spec 2 m); try lia; div_lia.
Qed.

Lemma civil_of_doe_of yoe m d :
  0 <= yoe <= 399 -> 1 <= m <= 12 -> 1 <= d ->
  d <= days_in_month (yoe + (if m <=? 2 then 1 else 0)) m ->
  civil_of_doe (doe_of_civil yoe m d) = (yoe, m, d).
Proof.
  intros Hy Hm Hd1 Hd2.
  pose proof (doe_range yoe m d Hy Hm Hd1 Hd2) as R.
  pose proof (days_in_month_cases (yoe + (if m <=? 2 then 1 else 0)) m Hm) as C.
  unfold civil_of_doe. unfold doe_of_civil in *.
  set (mp := if 2 <? m then m - 3 else m + 9) in *.
  assert (Hmp : 0 <= mp <= 11 /\ (m = if mp <? 10 then mp + 3 else mp - 9)).
  { subst mp. destruct (Z.ltb_spec 2 m).
    - destruct (Z.ltb_spec (m - 3) 10); lia.
    - destruct (Z.ltb_spec (m + 9) 10); lia. }
  destruct Hmp as [Hmp Em].
  set (doy := (153 * mp + 2) / 5 + d - 1) in *.
  set (doe := yoe * 365 + yoe / 4 - yoe / 100 + doy) in *.
  assert (Hdoy : 0 <= doy <= 365 /\
                 (doy = 365 ->
                  (yoe + 1) mod 4 = 0 /\
                  ((yoe + 1) mod 100 <> 0 \/ (yoe + 1) mod 400 = 0))).
  { subst doy mp. destruct (Z.leb_spec m 2), (Z.ltb_spec 2 m); try lia; div_lia. }
  assert (Y : (doe - doe / 1460 + doe / 36524 - doe / 146096) / 365 = yoe).
  { subst doe. destruct Hdoy as [Hdoy L]. clearbody doy. clear -Hy Hdoy L. div_lia. }
  rewrite Y.
  assert (D : doe - (365 * yoe + yoe / 4 - yoe / 100) = doy) by (subst doe; lia).
  rewrite D.
  assert (MP : (5 * doy + 2) / 153 = mp).
  { subst doy mp. destruct (Z.leb_spec m 2), (Z.ltb_spec 2 m); try lia; div_lia. }
  rewrite MP, <- Em. f_equal. subst doy. lia.
Qed.

Lemma days_in_month_era y k m :
  1 <= m <= 12 -> days_in_month (y + 400 * k) m = days_in_month y m.
Proof.
  intros Hm. unfold days_in_month, is_leap.
  replace ((y + 400 * k) mod 4) with (y mod 4) by div_lia.
  replace ((y + 400 * k) mod 100) with (y mod 100) by div_lia.
  replace ((y + 400 * k) mod 400) with (y mod 400) by div_lia.
  reflexivity.
Qed.

(** The day count and the calendar date of a valid day are inverse. *)
Lemma civil_from_days_from_civil y m d :
  1 <= m <= 12 -> 1 <= d <= days_in_month y m ->
  civil_from_days (days_from_civil y m d) = (y, m, d).
Proof.
  intros Hm Hd. unfold civil_from_days, days_from_civil.
  set (y' := if m <=? 2 then y - 1 else y).
  set (era := y' / 400). set (yoe := y' - era * 400).
  assert (Hy : 0 <= yoe <= 399) by (subst yoe era; div_lia).
  assert (Hd2 : d <= days_in_month (yoe + (if m <=? 2 then 1 else 0)) m).
  { replace (yoe + (if m <=? 2 then 1 else 0)) with (y + 400 * (- era)).
    - rewrite days_in_month_era by exact Hm. apply Hd.
    - subst yoe y'. destruct (m <=? 2); lia. }
  pose proof (doe_range yoe m d Hy Hm (proj1 Hd) Hd2) as R.
  pose proof (civil_of_doe_of yoe m d Hy Hm (proj1 Hd) Hd2) as C.
  set (doe := doe_of_civil yoe m d) in *.
  replace (era * 146097 + doe - 719468 + 719468) with (era * 146097 + doe) by lia.
  assert (E : (era * 146097 + doe) / 146097 = era) by (clearbody doe era; div_lia).
  rewrite E.
  replace (era * 146097 + doe - era * 146097) with doe by lia.
  rewrite C. f_equal. f_equal. subst yoe y'. destruct (m <=? 2); lia.
Qed.




Lemma days_from_civil_day y m d :
  days_from_civil y m 1 + d - 1 = days_from_civil y m d.
Proof. unfold days_from_civil, doe_of_civil. lia. Qed.

Lemma days_from_civil_bound y m d :
  -1 <= y <= 10007 -> 1 <= m <= 12 -> 0 <= d <= 99 ->
  Z.abs (days_from_civil y m d) <= 100000000.
Proof.
  intros Hy Hm Hd. unfold days_from_civil, doe_of_civil.
  destruct (Z.leb_spec m 2), (Z.ltb_spec 2 m); try lia;
    apply Z.abs_le; div_lia.
Qed.


(** Two-digit month and day numbers never leave the range of [Date]. *)
Lemma new_Date_defined year month day :
  0 <= year <= 9999 -> 0 <= month <= 99 -> 0 <= day <= 99 ->
  new_Date year (month - 1) day <> None.
Proof.
  intros Hy Hm Hd. unfold new_Date. fold (full_year year).
  assert (Fy : 0 <= full_year year <= 9999).
  { unfold full_year. destruct ((0 <=? year) && (year <=? 99)) eqn:E; [|lia].
    apply andb_true_iff in E. rewrite !Z.leb_le in E. lia. }
  rewrite days_from_civil_day.
  pose proof (days_from_civil_bound (full_year year + (month - 1) / 12)
                ((month - 1) mod 12 + 1) day) as A.
  destruct (Z.leb_spec
              (Z.abs (days_from_civil (full_year year + (month - 1) / 12)
                                      ((month - 1) mod 12 + 1) day)) 100000000)
    as [L|L].
  - destruct (civil_from_days _) as [[? ?] ?]. discriminate.
  - exfalso. revert L. apply Z.le_ngt, A; div_lia.
Qed.

End CalendarFacts.

(** ** The monthly trend *)

Module MonthlyFacts.
Import JS Dashboard SortFacts ObjFacts ChartSection.
Local Open Scope Z_scope.

(** *** Labels *)

Lemma split_on_length (p : jschar -> bool) (s : jsstring) :
  length (split_on p s) = S (length (filter p s)).
Proof.
  induction s as [|c s IH]; simpl; [reflexivity|].
  destruct (p c); simpl; [rewrite IH; reflexivity|].
  destruct (split_on p s); simpl in *; [discriminate | exact IH].
Qed.

Lemma space_is_delimiter : is_dateTimeDelimiter SPACE = true.
Proof. reflexivity. Qed.

(** A key with a space in it makes [parseISO] see three pieces or more
    once the day is appended: the sort date is an Invalid Date. *)
Lemma parseISO_spaced parse_pieces (a b : jsstring) :
  parseISO parse_pieces ((a ++ [SPACE] ++ b) ++ js " 01") = None.
Proof.
  unfold parseISO. rewrite split_on_length.
  rewrite !filter_app. cbn [filter js map list_ascii_of_string].
  rewrite !length_app.
  replace (is_dateTimeDelimiter SPACE) with true by reflexivity.
  replace (is_dateTimeDelimiter (N_of_ascii " ")) with true by reflexivity.
  cbn [length]. 
  match goal with |- (if ?c then _ else _) = _ => replace c with true; [reflexivity|] end.
  symmetry. apply Nat.ltb_lt. lia.
Qed.

Lemma spaced_not_index (a b : jsstring) :
  is_array_index (a ++ [SPACE] ++ b) = false.
Proof.
  unfold is_array_index, array_index.
  destruct (a ++ [SPACE] ++ b) as [|c rest] eqn:E; [reflexivity|].
  assert (F : forallb is_digit (c :: rest) = false).
  { rewrite <- E, forallb_app. cbn [app forallb].
    replace (is_digit SPACE) with false by reflexivity.
    rewrite andb_false_l, andb_false_r. reflexivity. }
  rewrite F. reflexivity.
Qed.

Lemma monthKey_spaced (t : Transaction) (k : jsstring) :
  monthKey t = Some k -> spaced k.
Proof.
  unfold monthKey. destruct (transactionDate t) as [d|]; [|discriminate].
  intros [= <-]. exists (month_abbr (getMonth d)), (format_yyyy d). reflexivity.
Qed.

(** *** The dictionary of months *)

Lemma sum_values_set (o : obj Z) (k : jsstring) (v : Z) :
  sum_values (obj_set o k v) =
  sum_values o - match obj_get o k with Some w => w | None => 0 end + v.
Proof.
  unfold sum_values. induction o as [|[k0 v0] o IH]; simpl; [lia|].
  destruct (str_eqb k0 k); simpl; [lia | rewrite IH; lia].
Qed.

Lemma sum_values_add_to (o : obj Z) (k : jsstring) (a : Z) :
  sum_values (add_to o k a) = sum_values o + a.
Proof.
  unfold add_to. rewrite sum_values_set. destruct (obj_get o k); lia.
Qed.


Lemma month_keys_snoc (ts : list Transaction) (t : Transaction) :
  month_keys (ts ++ [t]) =
  month_keys ts ++
  (if 0 <? expense t
   then match monthKey t with Some k => [k] | None => [] end
   else []).
Proof.
  unfold month_keys, spending. rewrite filter_app, flat_map_app. simpl.
  destruct (0 <? expense t); simpl; [rewrite app_nil_r|]; reflexivity.
Qed.

Lemma distinct_snoc (keys : list jsstring) (k : jsstring) :
  distinct (keys ++ [k]) =
  if existsb (str_eqb k) (distinct keys) then distinct keys
  else distinct keys ++ [k].
Proof. unfold distinct. rewrite fold_left_app. reflexivity. Qed.

Lemma existsb_str_eqb (k : jsstring) (l : list jsstring) :
  existsb (str_eqb k) l = true <-> In k l.
Proof.
  rewrite existsb_exists. split.
  - intros (x & H & E). apply str_eqb_eq in E. subst. exact H.
  - intros H. exists k. split; [exact H | apply str_eqb_refl].
Qed.

Lemma expense_sum_snoc (p : Transaction -> bool) ts t :
  expense_sum p (ts ++ [t]) = expense_sum p ts + (if p t then expense t else 0).
Proof.
  unfold expense_sum. rewrite filter_app, map_app. simpl.
  induction (map expense (filter p ts)) as [|x l IH]; simpl.
  - destruct (p t); simpl; lia.
  - rewrite IH. lia.
Qed.

Lemma existsb_snoc {A : Type} (p : A -> bool) l x :
  existsb p (l ++ [x]) = existsb p l || p x.
Proof. rewrite existsb_app. simpl. rewrite orb_false_r. reflexivity. Qed.

Lemma month_inv_nil : month_inv [] [].
Proof. split; [reflexivity | constructor | reflexivity]. Qed.

Lemma month_step_inv (ts : list Transaction) (M : obj (obj Z)) (t : Transaction) :
  month_inv ts M ->
  match month_step (Some M) t with
  | Some M' => month_inv (ts ++ [t]) M'
  | None => 0 < expense t /\ monthKey t = None
  end.
Proof.
  intros [IK IN IS]. unfold month_step.
  destruct (0 <? expense t) eqn:P.
  2:{ split.
      - rewrite month_keys_snoc, P, app_nil_r. exact IK.
      - exact IN.
      - intros k. specialize (IS k). rewrite existsb_snoc, expense_sum_snoc.
        assert (Hf : in_month k t = false) by (unfold in_month; rewrite P; reflexivity).
        rewrite Hf, orb_false_r, Z.add_0_r. exact IS. }
  destruct (monthKey t) as [mk|] eqn:K; [|split; [apply Z.ltb_lt, P | reflexivity]].
  set (M1 := match obj_get M mk with
             | Some _ => M
             | None => obj_set M mk []
             end).
  assert (K1 : map fst M1 = if existsb (str_eqb mk) (map fst M)
                            then map fst M else map fst M ++ [mk]).
  { subst M1. destruct (obj_get M mk) eqn:G.
    - replace (existsb (str_eqb mk) (map fst M)) with true; [reflexivity|].
      symmetry. apply existsb_str_eqb.
      destruct (in_dec (list_eq_dec N.eq_dec) mk (map fst M)) as [I|I]; [exact I|].
      apply obj_get_None in I. congruence.
    - rewrite obj_set_keys, G.
      replace (existsb (str_eqb mk) (map fst M)) with false; [reflexivity|].
      symmetry. apply not_true_is_false. rewrite existsb_str_eqb.
      apply obj_get_None, G. }
  assert (N1 : NoDup (map fst M1)).
  { subst M1. destruct (obj_get M mk); [exact IN | apply obj_set_NoDup, IN]. }
  assert (G1 : forall k, obj_get M1 k =
                         if str_eqb mk k
                         then Some match obj_get M mk with Some c => c | None => [] end
                         else obj_get M k).
  { intros k. subst M1. destruct (obj_get M mk) eqn:G.
    - destruct (str_eqb mk k) eqn:E; [|reflexivity].
      apply str_eqb_eq in E. subst k. exact G.
    - rewrite obj_get_set. reflexivity. }
  assert (X : obj_get M1 mk <> None).
  { rewrite G1, str_eqb_refl. discriminate. }
  split.
  - rewrite obj_set_keys. destruct (obj_get M1 mk); [|contradiction].
    rewrite K1, month_keys_snoc, P, K, distinct_snoc, <- IK. reflexivity.
  - apply obj_set_NoDup, N1.
  - intros k. rewrite obj_get_set, existsb_snoc, expense_sum_snoc.
    assert (Hm : in_month k t = str_eqb mk k)
      by (unfold in_month; rewrite P, K; reflexivity).
    rewrite Hm. specialize (IS k). destruct (str_eqb mk k) eqn:E.
    + apply str_eqb_eq in E. subst k. rewrite orb_true_r. split; [reflexivity|].
      rewrite sum_values_add_to, G1, str_eqb_refl.
      destruct (obj_get M mk) as [c|].
      * destruct IS as [_ ->]. reflexivity.
      * assert (Z0 : expense_sum (in_month mk) ts = 0).
        { clear -IS. unfold expense_sum.
          induction ts as [|x ts IH]; simpl in *; [reflexivity|].
          apply orb_false_iff in IS. destruct IS as [-> IS]. auto. }
        rewrite Z0. reflexivity.
    + rewrite orb_false_r, Z.add_0_r, G1, E. exact IS.
Qed.

(** The dictionary after all the transactions, when no date throws. *)
Lemma month_fold (ts : list Transaction) :
  Forall (fun t => monthKey t <> None) (spending ts) ->
  exists M, fold_left month_step ts (Some []) = Some M /\ month_inv ts M.
Proof.
  induction ts as [|t ts IH] using rev_ind; intros F.
  - exists []. split; [reflexivity | apply month_inv_nil].
  - unfold spending in F. rewrite filter_app in F. apply Forall_app in F.
    destruct F as [F Ft]. destruct (IH F) as (M & E & I).
    rewrite fold_left_app, E. cbn [fold_left].
    pose proof (month_step_inv ts M t I) as S.
    destruct (month_step (Some M) t) as [M'|]; [exists M'; auto|].
    destruct S as [P K]. apply Z.ltb_lt in P. simpl in Ft. rewrite P in Ft.
    inversion Ft; subst. contradiction.
Qed.

End MonthlyFacts.

(** ** The monthly trend: buckets *)

Module TrendFacts.
Import JS Dashboard SortFacts ObjFacts ChartSection CalendarFacts MonthlyFacts.
Local Open Scope Z_scope.

Lemma distinct_In (keys : list jsstring) (k : jsstring) :
  In k (distinct keys) <-> In k keys.
Proof.
  induction keys as [|x keys IH] using rev_ind; [reflexivity|].
  rewrite distinct_snoc, in_app_iff. simpl.
  destruct (existsb (str_eqb x) (distinct keys)) eqn:E.
  - apply existsb_str_eqb in E. split; [rewrite IH; tauto|].
    intros [H|[<-|[]]]; [apply IH, H | exact E].
  - rewrite in_app_iff, IH. simpl. tauto.
Qed.

Lemma month_keys_In (ts : list Transaction) (k : jsstring) :
  In k (month_keys ts) <->
  exists t, In t ts /\ 0 < expense t /\ monthKey t = Some k.
Proof.
  unfold month_keys, spending. rewrite in_flat_map. split.
  - intros (t & Hin & H). apply filter_In in Hin. destruct Hin as [Hin P].
    apply Z.ltb_lt in P. exists t.
    destruct (monthKey t) as [k'|]; [|destruct H].
    destruct H as [->|[]]. auto.
  - intros (t & Hin & P & K). exists t. split.
    + apply filter_In. split; [exact Hin | apply Z.ltb_lt, P].
    + rewrite K. left. reflexivity.
Qed.




(** With well-formed dates the month dictionary has no array-index key
    and every sort date is invalid: the buckets come out in the order in
    which the dictionary lists them. *)
Lemma monthlyData_monthly parse_pieces (ts : list Transaction) :
  Forall (fun t => monthKey t <> None) (spending ts) ->
  exists M,
    month_inv ts M /\
    monthlyData parse_pieces ts monthly = Some (map (bucket_of parse_pieces) M).
Proof.
  intros F. destruct (month_fold ts F) as (M & E & I).
  exists M. split; [exact I|].
  unfold monthlyData. rewrite E.
  assert (S : Forall spaced (map fst M)).
  { rewrite (inv_keys _ _ I). apply Forall_forall. intros k Hk.
    apply distinct_In, month_keys_In in Hk. destruct Hk as (t & _ & _ & K).
    exact (monthKey_spaced t k K). }
  rewrite Object_entries_plain.
  2:{ eapply Forall_impl; [|exact S]. intros k (a & b & ->).
      apply spaced_not_index. }
  rewrite sort_unordered; [reflexivity|].
  intros a b Ha Hb. unfold keeps_before, by_sortDate.
  apply in_map_iff in Ha. destruct Ha as ([k c] & <- & Hin).
  assert (Sk : spaced k).
  { rewrite Forall_forall in S. apply S.
    change k with (fst (k, c)). apply in_map, Hin. }
  destruct Sk as (x & y & ->). unfold bucket_of. cbn [sortDate fst].
  rewrite parseISO_spaced. reflexivity.
Qed.

(** *** Dates in the store's form *)

Lemma digit_val_bound c : is_digit c = true -> (digit_val c <= 9)%N.
Proof.
  unfold is_digit, digit_val. rewrite andb_true_iff, !N.leb_le. lia.
Qed.

Lemma digits_to_N_2 (s : jsstring) :
  Upload.digits 2 s -> 0 <= Z.of_N (digits_to_N s) <= 99.
Proof.
  intros [L C]. destruct s as [|a [|b [|c s]]]; try discriminate.
  simpl in C. rewrite !andb_true_iff in C. destruct C as (A & B & _).
  apply digit_val_bound in A, B. unfold digits_to_N. cbn [fold_left]. lia.
Qed.

Lemma digits_to_N_4 (s : jsstring) :
  Upload.digits 4 s -> 0 <= Z.of_N (digits_to_N s) <= 9999.
Proof.
  intros [L C]. destruct s as [|a [|b [|c [|d [|e s]]]]]; try discriminate.
  simpl in C. rewrite !andb_true_iff in C. destruct C as (A & B & C & D & _).
  apply digit_val_bound in A, B, C, D. unfold digits_to_N. cbn [fold_left]. lia.
Qed.

Lemma digits_no_dash (s : jsstring) :
  forallb is_digit s = true ->
  forallb (fun c => negb (char_eqb c DASH)) s = true.
Proof.
  rewrite !forallb_forall. intros H c Hc. specialize (H c Hc).
  unfold is_digit, char_eqb, DASH in *.
  rewrite andb_true_iff, !N.leb_le in H. apply negb_true_iff, N.eqb_neq. lia.
Qed.

Lemma Number_of_digits_digits n (s : jsstring) :
  Upload.digits (S n) s -> Number_of_digits s = Some (Z.of_N (digits_to_N s)).
Proof.
  intros [L C]. unfold Number_of_digits. rewrite C.
  destruct s; [discriminate | reflexivity].
Qed.

(** The numbers read from a canonical date. *)
Lemma transactionDate_canonical (t : Transaction) (y m d : jsstring) :
  date t = Upload.ymd_string y m d ->
  Upload.digits 4 y -> Upload.digits 2 m -> Upload.digits 2 d ->
  transactionDate t =
  new_Date (Z.of_N (digits_to_N y)) (Z.of_N (digits_to_N m) - 1)
           (Z.of_N (digits_to_N d)).
Proof.
  intros E Hy Hm Hd. unfold transactionDate, Upload.ymd_string in *. rewrite E.
  rewrite DateFacts.split_on_app
    by (first [apply digits_no_dash, Hy | reflexivity]).
  rewrite DateFacts.split_on_app
    by (first [apply digits_no_dash, Hm | reflexivity]).
  rewrite DateFacts.split_on_nosep by (apply digits_no_dash, Hd).
  cbn [map].
  rewrite (Number_of_digits_digits _ _ Hy), (Number_of_digits_digits _ _ Hm),
    (Number_of_digits_digits _ _ Hd).
  reflexivity.
Qed.

Lemma monthKey_defined (t : Transaction) :
  Upload.is_canonical (date t) -> monthKey t <> None.
Proof.
  intros (y & m & d & E & Hy & Hm & Hd). unfold monthKey.
  rewrite (transactionDate_canonical t y m d E Hy Hm Hd).
  pose proof (digits_to_N_4 _ Hy). pose proof (digits_to_N_2 _ Hm).
  pose proof (digits_to_N_2 _ Hd).
  destruct (new_Date _ _ _) eqn:N; [discriminate|].
  apply new_Date_defined in N; [contradiction | lia..].
Qed.


(** *** Labels *)






Lemma canonicalb_spec (s : jsstring) :
  canonicalb s = true -> Upload.is_canonical s.
Proof.
  destruct s as [|y1 [|y2 [|y3 [|y4 [|s1 [|m1 [|m2 [|s2 [|d1 [|d2 [|? ?]]]]]]]]]]];
    try discriminate.
  unfold canonicalb. cbn [forallb]. rewrite !andb_true_iff.
  intros [[(Y1 & Y2 & Y3 & Y4 & M1 & M2 & D1 & D2 & _) S1] S2].
  apply N.eqb_eq in S1, S2. subst s1 s2.
  exists [y1; y2; y3; y4], [m1; m2], [d1; d2].
  unfold Upload.digits. cbn [forallb length].
  rewrite Y1, Y2, Y3, Y4, M1, M2, D1, D2. repeat split.
Qed.

(** The buckets are listed in the order in which their months are first
    met among the transactions: the dates given to [parseISO] are all
    invalid and the sort moves nothing. *)
Lemma monthlyData_encounter_order parse_pieces (ts : list Transaction) buckets :
  Forall (fun t => Upload.is_canonical (date t)) (spending ts) ->
  monthlyData parse_pieces ts monthly = Some buckets ->
  map month buckets = distinct (month_keys ts).
Proof.
  intros F E.
  destruct (monthlyData_monthly parse_pieces ts) as (M & I & E').
  { eapply Forall_impl; [|exact F]. intros t. apply monthKey_defined. }
  rewrite E' in E. injection E as <-.
  rewrite map_map. cbn [bucket_of month]. apply (inv_keys _ _ I).
Qed.


Example monthlyData_totals :
  option_map (map total) (monthlyData (fun _ => None) three_months monthly) =
  Some [12000; 3000; 1500].
Proof. reflexivity. Qed.

End TrendFacts.

(** ** Order of the groups *)

Module OrderFacts.
Import JS Dashboard SortFacts ObjFacts ChartSection MonthlyFacts AggregationFacts.
Local Open Scope Z_scope.

(** Array-index keys are listed first by [Object.entries]. *)
Example Object_entries_index_keys :
  Object_entries [(js "Food", 1); (js "10", 2); (js "Rent", 3); (js "7", 4)] =
  [(js "7", 4); (js "10", 2); (js "Food", 1); (js "Rent", 3)].
Proof. reflexivity. Qed.

Lemma spending_snoc (ts : list Transaction) (t : Transaction) :
  spending (ts ++ [t]) = spending ts ++ (if 0 <? expense t then [t] else []).
Proof. unfold spending. rewrite filter_app. reflexivity. Qed.

(** The dictionary of categories keeps its keys in the order in which
    the categories are first met among the positive expenses. *)
Lemma group_by_category_keys (ts : list Transaction) :
  map fst (group_by_category ts) = distinct (map category (spending ts)).
Proof.
  unfold group_by_category.
  induction ts as [|t ts IH] using rev_ind; [reflexivity|].
  rewrite fold_left_app, spending_snoc, map_app. cbn [fold_left].
  unfold group_step at 1. destruct (0 <? expense t).
  - cbn [map]. rewrite distinct_snoc, <- IH. unfold add_to.
    rewrite obj_set_keys.
    destruct (obj_get (fold_left group_step ts []) (category t)) eqn:G.
    + replace (existsb _ _) with true; [reflexivity|].
      symmetry. apply existsb_str_eqb.
      destruct (in_dec (list_eq_dec N.eq_dec) (category t)
                       (map fst (fold_left group_step ts []))) as [I|I];
        [exact I|].
      apply obj_get_None in I. congruence.
    + replace (existsb _ _) with false; [reflexivity|].
      symmetry. apply not_true_is_false. rewrite existsb_str_eqb.
      apply obj_get_None, G.
  - cbn [map]. rewrite app_nil_r. exact IH.
Qed.

(** In the basic chart section the groups are in first-encounter order;
    in the one with a navigator they are too, unless a category is
    written as an array index. *)
Lemma categoryData_encounter_order (ts : list Transaction) :
  map name (ChartSectionBasic.categoryData ts) =
    distinct (map category (spending ts)) /\
  (Forall (fun t => is_array_index (category t) = false) ts ->
   map name (map entry_of (Object_entries (group_by_category ts))) =
     distinct (map category (spending ts))).
Proof.
  split.
  - rewrite basic_categoryData_grouped, map_map. cbn [entry_of name].
    apply group_by_category_keys.
  - intros F. rewrite Object_entries_plain.
    + rewrite map_map. cbn [entry_of name]. apply group_by_category_keys.
    + rewrite group_by_category_keys. apply Forall_forall. intros k Hk.
      apply TrendFacts.distinct_In, in_map_iff in Hk.
      destruct Hk as (t & <- & Ht). apply filter_In in Ht.
      rewrite Forall_forall in F. apply F, Ht.
Qed.

End OrderFacts.

(** ** Instances *)

Module Witnesses.
Import JS Dashboard TopN.
Local Open Scope Z_scope.


End Witnesses.

(** ** The tokenizer on lines written back *)

Module TokenizerFacts.
Import JS Upload JSFacts LineFacts Encoding.

Lemma line_step_other (st : line_state) (c : jschar) :
  c <> QUOTE -> (c <> COMMA \/ inQuotes st = true) ->
  line_step st c = LineState (result st) (current st ++ [c]) (inQuotes st).
Proof.
  intros Q K. unfold line_step.
  destruct (char_eqb c QUOTE) eqn:E; [apply char_eqb_eq in E; contradiction|].
  destruct (char_eqb c COMMA) eqn:E'; [|reflexivity].
  apply char_eqb_eq in E'. destruct K as [K|K]; [contradiction|].
  rewrite K. reflexivity.
Qed.

(** Characters read inside quotes, or plain ones outside, pile up in
    the current field. *)
Lemma fold_line_step_run (f : jsstring) (st : line_state) :
  ~ In QUOTE f -> (~ In COMMA f \/ inQuotes st = true) ->
  fold_left line_step f st =
  LineState (result st) (current st ++ f) (inQuotes st).
Proof.
  revert st. induction f as [|c f IH]; intros st Q K; simpl.
  - rewrite app_nil_r. destruct st; reflexivity.
  - rewrite line_step_other.
    + rewrite IH; simpl.
      * rewrite <- app_assoc. reflexivity.
      * intros H. apply Q. right. exact H.
      * destruct K as [K|K]; [left; intros H; apply K; right; exact H | right; exact K].
    + intros ->. apply Q. left. reflexivity.
    + destruct K as [K|K]; [left; intros ->; apply K; left; reflexivity | right; exact K].
Qed.

Lemma plain_encodes (f : jsstring) : plain f -> encodes f f.
Proof.
  intros [Q K] r c. rewrite fold_line_step_run; auto.
Qed.

Lemma quoted_encodes (f : jsstring) : ~ In QUOTE f -> encodes (quoted f) f.
Proof.
  intros Q r c. unfold quoted. rewrite !fold_left_app. simpl.
  rewrite fold_line_step_run by (simpl; auto). reflexivity.
Qed.

Lemma join_cons (f : jsstring) (rest : list jsstring) :
  rest <> [] -> join (f :: rest) = f ++ [COMMA] ++ join rest.
Proof. destruct rest; [contradiction | reflexivity]. Qed.

Lemma fold_left_cons_comma (rest : jsstring) (r : list jsstring) (c : jsstring) :
  fold_left line_step (COMMA :: rest) (LineState r c false) =
  fold_left line_step rest (LineState (r ++ [trim c]) [] false).
Proof. reflexivity. Qed.

Lemma parseCSVLine_join_from (pieces fields : list jsstring) :
  Forall2 encodes pieces fields -> pieces <> [] ->
  forall r c,
    let st := fold_left line_step (join pieces) (LineState r c false) in
    result st ++ [trim (current st)] =
    match fields with
    | [] => r
    | f :: rest => r ++ trim (c ++ f) :: map trim rest
    end.
Proof.
  induction 1 as [|p f pieces fields E F IH]; intros N r c; [contradiction|].
  destruct pieces as [|p' pieces].
  - inversion F; subst. simpl. rewrite E. reflexivity.
  - rewrite join_cons by discriminate. cbv zeta.
    rewrite fold_left_app, E.
    change ([COMMA] ++ join (p' :: pieces)) with (COMMA :: join (p' :: pieces)).
    rewrite fold_left_cons_comma.
    specialize (IH ltac:(discriminate) (r ++ [trim (c ++ f)]) []).
    cbv zeta in IH. rewrite IH.
    inversion F; subst. rewrite <- app_assoc. reflexivity.
Qed.

(** X1. Reading back a line made of plain fields joined by commas gives
    the fields, trimmed; fields that are already trimmed come back as
    they are. *)
Theorem parseCSVLine_join_plain (fields : list jsstring) :
  fields <> [] -> Forall plain fields ->
  parseCSVLine (join fields) = map trim fields /\
  (Forall trimmed fields -> parseCSVLine (join fields) = fields).
Proof.
  intros N P.
  assert (E : parseCSVLine (join fields) = map trim fields).
  { unfold parseCSVLine.
    assert (F : Forall2 encodes fields fields).
    { clear N. induction P; constructor; auto using plain_encodes. }
    pose proof (parseCSVLine_join_from fields fields F N [] []) as H.
    cbv zeta in H. unfold line_init. rewrite H.
    destruct fields; [contradiction | reflexivity]. }
  split; [exact E|]. intros T. rewrite E. clear -T.
  induction T as [|f fields Tf T IH]; simpl; [reflexivity|].
  rewrite (trimmed_trim f Tf), IH. reflexivity.
Qed.

(** X2. Quoting protects commas: a line of quoted fields joined by
    commas reads back as the fields, trimmed, whatever commas they
    hold. *)
Theorem parseCSVLine_join_quoted (fields : list jsstring) :
  fields <> [] -> Forall (fun f => ~ In QUOTE f) fields ->
  parseCSVLine (join (map quoted fields)) = map trim fields.
Proof.
  intros N Q. unfold parseCSVLine.
  assert (F : Forall2 encodes (map quoted fields) fields).
  { clear N. induction Q; constructor; auto using quoted_encodes. }
  assert (N' : map quoted fields <> []) by (destruct fields; [contradiction | discriminate]).
  pose proof (parseCSVLine_join_from _ _ F N' [] []) as H.
  cbv zeta in H. unfold line_init. rewrite H.
  destruct fields; [contradiction | reflexivity].
Qed.

Lemma parseCSVLine_join_plain_witness :
  parseCSVLine (join [js "2024/3/5"; js "Food"; js "12.50"]) =
  [js "2024/3/5"; js "Food"; js "12.50"].
Proof.
  apply (parseCSVLine_join_plain [js "2024/3/5"; js "Food"; js "12.50"]).
  - discriminate.
  - repeat constructor; simpl; intros H;
      repeat (destruct H as [H|H]; [discriminate|]); exact H.
  - repeat constructor; intros c [= <-]; reflexivity.
Defined.

Lemma parseCSVLine_join_quoted_witness :
  parseCSVLine (join (map quoted [js "Food, drink"; js " 1,234.50 "])) =
  map trim [js "Food, drink"; js " 1,234.50 "].
Proof.
  apply (parseCSVLine_join_quoted [js "Food, drink"; js " 1,234.50 "]).
  - discriminate.
  - repeat constructor; simpl; intros H;
      repeat (destruct H as [H|H]; [discriminate|]); exact H.
Defined.

(** The naive reading of a line: split at every comma, trim each piece. *)
Lemma split_on_nonempty (p : jschar -> bool) (s : jsstring) : split_on p s <> [].
Proof.
  destruct s as [|c s]; simpl; [discriminate|].
  destruct (p c); [discriminate|]. destruct (split_on p s); discriminate.
Qed.

Lemma parseCSVLine_split_from (line : jsstring) :
  ~ In QUOTE line ->
  forall r c,
    let st := fold_left line_step line (LineState r c false) in
    result st ++ [trim (current st)] =
    r ++ match split_on (fun x => char_eqb x COMMA) line with
         | [] => []
         | w :: ws => trim (c ++ w) :: map trim ws
         end.
Proof.
  induction line as [|x line IH]; intros Q r c.
  - simpl. rewrite app_nil_r. reflexivity.
  - assert (Q' : ~ In QUOTE line) by (intros H; apply Q; right; exact H).
    assert (Qx : x <> QUOTE) by (intros ->; apply Q; left; reflexivity).
    pose proof (split_on_nonempty (fun x => char_eqb x COMMA) line) as N.
    cbn [fold_left split_on].
    destruct (char_eqb x COMMA) eqn:E'.
    + apply char_eqb_eq in E'. subst x.
      change (line_step (LineState r c false) COMMA)
        with (LineState (r ++ [trim c]) [] false).
      specialize (IH Q' (r ++ [trim c]) []). cbv zeta in IH. rewrite IH.
      rewrite app_nil_r, <- app_assoc.
      destruct (split_on _ line); [contradiction | reflexivity].
    + rewrite line_step_other
        by (auto; left; intros ->; unfold char_eqb in E'; rewrite N.eqb_refl in E';
            discriminate).
      cbn [result current inQuotes].
      specialize (IH Q' r (c ++ [x])). cbv zeta in IH. rewrite IH.
      destruct (split_on _ line); [contradiction|].
      rewrite <- app_assoc. reflexivity.
Qed.

Lemma parseCSVLine_unquoted (line : jsstring) :
  ~ In QUOTE line ->
  parseCSVLine line = map trim (split_on (fun x => char_eqb x COMMA) line).
Proof.
  intros Q. unfold parseCSVLine, line_init.
  pose proof (parseCSVLine_split_from line Q [] []) as H. cbv zeta in H.
  rewrite H. destruct (split_on _ line); reflexivity.
Qed.

(** X3. On a line without quotes the tokenizer agrees with splitting at
    every comma and trimming each piece, the reading of the earlier
    upload component. *)
Theorem parseCSVLine_split (line : jsstring) :
  ~ In QUOTE line ->
  parseCSVLine line = map trim (split_on (fun x => char_eqb x COMMA) line).
Proof.
  intros Q. unfold parseCSVLine, line_init.
  pose proof (parseCSVLine_split_from line Q [] []) as H. cbv zeta in H.
  rewrite H. destruct (split_on _ line); reflexivity.
Qed.

Lemma parseCSVLine_split_witness :
  parseCSVLine (js " a , b,,c ") =
  map trim (split_on (fun x => char_eqb x COMMA) (js " a , b,,c ")).
Proof.
  apply (parseCSVLine_split (js " a , b,,c ")).
  simpl. intros H. repeat (destruct H as [H|H]; [discriminate|]). exact H.
Defined.

(** Trailing whitespace *)

Lemma ws_not_special (c : jschar) : is_ws c = true -> c <> QUOTE /\ c <> COMMA.
Proof. intros H. split; intros ->; discriminate. Qed.

Lemma trimStart_snoc (s : jsstring) (c : jschar) :
  is_ws c = true ->
  trimStart (s ++ [c]) =
  match trimStart s with [] => [] | _ => trimStart s ++ [c] end.
Proof.
  intros W. induction s as [|x s IH]; simpl.
  - rewrite W. reflexivity.
  - destruct (is_ws x); [exact IH | reflexivity].
Qed.

Lemma trimEnd_snoc (s : jsstring) (c : jschar) :
  is_ws c = true -> trimEnd (s ++ [c]) = trimEnd s.
Proof.
  intros W. unfold trimEnd. rewrite rev_app_distr. simpl. rewrite W. reflexivity.
Qed.

Lemma trim_snoc (s : jsstring) (c : jschar) :
  is_ws c = true -> trim (s ++ [c]) = trim s.
Proof.
  intros W. unfold trim. rewrite trimStart_snoc by exact W.
  destruct (trimStart s) eqn:E; [reflexivity|].
  rewrite <- E. apply trimEnd_snoc, W.
Qed.

Lemma parseCSVLine_snoc_ws (line : jsstring) (c : jschar) :
  is_ws c = true -> parseCSVLine (line ++ [c]) = parseCSVLine line.
Proof.
  intros W. unfold parseCSVLine. rewrite fold_left_app. cbn [fold_left].
  destruct (ws_not_special c W) as [Q K].
  rewrite line_step_other by auto. cbn [result current].
  rewrite trim_snoc by exact W. reflexivity.
Qed.

(** X4. Whitespace at the end of a line, such as the carriage return of
    a file with Windows line ends, changes neither the fields of the
    line nor what the row contributes. *)
Theorem parseCSVLine_trailing_ws (line w : jsstring) :
  forallb is_ws w = true ->
  parseCSVLine (line ++ w) = parseCSVLine line /\
  forall headers acc, row_step headers acc (line ++ w) = row_step headers acc line.
Proof.
  intros W.
  assert (E : parseCSVLine (line ++ w) = parseCSVLine line).
  { revert W. induction w as [|c w IH] using rev_ind; intros W.
    - rewrite app_nil_r. reflexivity.
    - rewrite forallb_app in W. apply andb_true_iff in W. destruct W as [W Wc].
      simpl in Wc. rewrite andb_true_r in Wc.
      rewrite app_assoc, parseCSVLine_snoc_ws by exact Wc. apply IH, W. }
  split; [exact E|]. intros headers acc. unfold row_step. rewrite E. reflexivity.
Qed.

Lemma parseCSVLine_trailing_ws_witness :
  parseCSVLine (js "2024/3/5,Food,12.50" ++ [CR]) =
  parseCSVLine (js "2024/3/5,Food,12.50").
Proof.
  apply (parseCSVLine_trailing_ws (js "2024/3/5,Food,12.50") [CR]). reflexivity.
Defined.

End TokenizerFacts.

(** ** Amount cells *)

Module NumberFacts.
Import JS Upload JSFacts DateFacts CsvFacts Encoding.

Lemma remove_all_idem (c : jschar) (s : jsstring) :
  remove_all c (remove_all c s) = remove_all c s.
Proof.
  unfold remove_all. induction s as [|x s IH]; simpl; [reflexivity|].
  destruct (negb (char_eqb x c)) eqn:E; simpl; [rewrite E, IH|]; auto.
Qed.

Lemma parseNumber_cleaned (v : jsstring) :
  parseNumber v = or_zero (parseFloat (remove_all COMMA v)).
Proof. destruct v; reflexivity. Qed.

(** X5. Commas never matter to an amount: two cells that are equal once
    their commas are removed parse to the same number. *)
Theorem parseNumber_commas (a b : jsstring) :
  remove_all COMMA a = remove_all COMMA b -> parseNumber a = parseNumber b.
Proof. intros E. rewrite !parseNumber_cleaned, E. reflexivity. Qed.

Lemma parseNumber_commas_witness :
  parseNumber (js "1,234,567.5") = parseNumber (js "1234567.5").
Proof. apply (parseNumber_commas (js "1,234,567.5") (js "1234567.5")). reflexivity. Defined.

Lemma read_sign_other (c : jschar) (s : jsstring) :
  char_eqb c DASH = false -> char_eqb c PLUS = false ->
  read_sign (c :: s) = (false, c :: s).
Proof. intros D P. simpl. rewrite D, P. reflexivity. Qed.

(** X6. A cell whose first character, commas and leading whitespace
    apart, cannot begin a number is read as zero: a currency sign in
    front of the amount loses the amount. *)
Theorem parseNumber_bad_start (v : jsstring) :
  match first_significant v with
  | Some c => starts_number c = false
  | None => True
  end ->
  parseNumber v = zero.
Proof.
  rewrite parseNumber_cleaned. unfold first_significant, parseFloat.
  destruct (trimStart (remove_all COMMA v)) as [|c s]; [reflexivity|].
  cbn [hd_error]. unfold starts_number. rewrite !orb_false_iff.
  intros ((((Dg & Da) & Pl) & Dt) & I).
  rewrite read_sign_other by assumption.
  cbn [js list_ascii_of_string map startsWith]. 
  change (N_of_ascii "I") with 73%N.
  assert (I' : char_eqb 73%N c = false).
  { unfold char_eqb in *. rewrite N.eqb_sym. exact I. }
  rewrite I'. cbn [andb takeWhile dropWhile]. rewrite Dg, Dt. reflexivity.
Qed.

Lemma parseNumber_bad_start_witness :
  parseNumber (js "$12.50") = zero /\ parseNumber (js " USD 7") = zero.
Proof.
  split.
  - apply (parseNumber_bad_start (js "$12.50")). reflexivity.
  - apply (parseNumber_bad_start (js " USD 7")). reflexivity.
Defined.

Lemma takeWhile_app_stop (p : jschar -> bool) (a rest : jsstring) :
  forallb p a = true ->
  match rest with [] => True | c :: _ => p c = false end ->
  takeWhile p (a ++ rest) = a /\ dropWhile p (a ++ rest) = rest.
Proof.
  intros A R. induction a as [|x a IH]; simpl in *.
  - destruct rest as [|c rest]; [auto|]. simpl. rewrite R. auto.
  - apply andb_true_iff in A. destruct A as [-> A]. destruct (IH A) as [-> ->]. auto.
Qed.

Lemma parseFloat_decimal (int_part frac_part tail : jsstring) :
  int_part <> [] ->
  forallb is_digit int_part = true -> forallb is_digit frac_part = true ->
  ends_literal tail ->
  parseFloat (int_part ++ [DOT] ++ frac_part ++ tail) =
  Finite false (digits_to_N (int_part ++ frac_part))
         (- Z.of_nat (length frac_part)).
Proof.
  intros N I F T. unfold parseFloat.
  destruct int_part as [|d ds]; [contradiction|].
  pose proof I as I'. simpl in I'. apply andb_true_iff in I'. destruct I' as [Dd _].
  assert (W : trimStart ((d :: ds) ++ [DOT] ++ frac_part ++ tail) =
              (d :: ds) ++ [DOT] ++ frac_part ++ tail).
  { simpl. rewrite (digit_not_ws d Dd). reflexivity. }
  rewrite W.
  assert (S : read_sign ((d :: ds) ++ [DOT] ++ frac_part ++ tail) =
              (false, (d :: ds) ++ [DOT] ++ frac_part ++ tail)).
  { apply read_sign_other; unfold is_digit, char_eqb, DASH, PLUS in *;
      apply andb_true_iff in Dd; rewrite !N.leb_le in Dd; apply N.eqb_neq; lia. }
  rewrite S.
  assert (Inf : startsWith (js "Infinity") ((d :: ds) ++ [DOT] ++ frac_part ++ tail) = false).
  { cbn [js list_ascii_of_string map startsWith app].
    change (N_of_ascii "I") with 73%N.
    replace (char_eqb 73%N d) with false; [reflexivity|].
    symmetry. unfold is_digit, char_eqb in *.
    apply andb_true_iff in Dd. rewrite !N.leb_le in Dd. apply N.eqb_neq. lia. }
  rewrite Inf.
  destruct (takeWhile_app_stop is_digit (d :: ds) ([DOT] ++ frac_part ++ tail) I)
    as [TI DI]; [reflexivity|].
  rewrite TI, DI. cbn [app]. replace (char_eqb DOT DOT) with true by reflexivity.
  assert (T' : match tail with [] => True | c :: _ => is_digit c = false end).
  { destruct tail; [exact Logic.I | apply T]. }
  destruct (takeWhile_app_stop is_digit frac_part tail F T') as [TF DF].
  rewrite TF, DF. cbn [is_empty andb].
  replace (read_exponent tail) with 0%Z; [f_equal; lia|].
  destruct tail as [|c tail]; [reflexivity|]. destruct T as (_ & E1 & E2).
  unfold read_exponent.
  replace (char_eqb c 101%N || char_eqb c 69%N) with false; [reflexivity|].
  symmetry. apply orb_false_iff. unfold char_eqb. rewrite !N.eqb_neq. auto.
Qed.

(** X7. An amount is read for its value and the text after it is
    ignored: a cell that, commas removed, is digits, a dot and digits,
    fifteen digits at most, followed by anything that does not continue
    the literal, parses to the number written (to zero when that number
    is zero). *)
Theorem parseNumber_decimal (v int_part frac_part tail : jsstring) :
  remove_all COMMA v = int_part ++ [DOT] ++ frac_part ++ tail ->
  int_part <> [] -> told_apart (int_part ++ frac_part) ->
  forallb is_digit int_part = true -> forallb is_digit frac_part = true ->
  ends_literal tail ->
  parseNumber v =
  or_zero (Finite false (digits_to_N (int_part ++ frac_part))
                  (- Z.of_nat (length frac_part))).
Proof.
  intros E N _ I F T. rewrite parseNumber_cleaned, E.
  rewrite parseFloat_decimal by assumption. reflexivity.
Qed.

Lemma parseNumber_decimal_witness :
  parseNumber (js "1,234.50 USD") = Finite false 123450 (-2).
Proof.
  apply (parseNumber_decimal (js "1,234.50 USD") (js "1234") (js "50") (js " USD")).
  - reflexivity.
  - discriminate.
  - unfold told_apart. simpl. lia.
  - reflexivity.
  - reflexivity.
  - repeat split; discriminate.
Defined.

End NumberFacts.

(** ** Rows admitted and rows sent *)

Module RowFacts.
Import JS Upload JSFacts LineFacts DateFacts CsvFacts Encoding.

Lemma ymd_string_nonempty (y m d : jsstring) : ymd_string y m d <> [].
Proof. unfold ymd_string. destruct y; discriminate. Qed.

(** The normalized date is empty exactly when the cell is blank. *)
Lemma normalizeDate_nil (s : jsstring) : normalizeDate s = [] <-> trim s = [].
Proof.
  unfold normalizeDate. destruct s as [|c s]; [split; reflexivity|].
  cbn [is_empty].
  destruct (re_test re_ymd (trim (c :: s))) eqn:Y.
  - apply re_ymd_spec in Y.
    destruct Y as (y & m & d & s1 & s2 & E & Hy & _).
    split; intros H.
    + exfalso. exact (ymd_string_nonempty _ _ _ H).
    + rewrite H in E. destruct y; [destruct Hy; discriminate | discriminate].
  - destruct (re_test re_mdy (trim (c :: s))) eqn:M; [|reflexivity].
    apply re_mdy_spec in M.
    destruct M as (m & d & y & s1 & s2 & E & Hm & _).
    split; intros H.
    + exfalso. exact (ymd_string_nonempty _ _ _ H).
    + rewrite H in E. destruct m; [|discriminate].
      apply digits_1_2_nonempty in Hm. contradiction.
Qed.

Lemma parseCSVLine_trim_fixed (line : jsstring) :
  Forall (fun f => trim f = f) (parseCSVLine line).
Proof.
  unfold parseCSVLine.
  destruct (fold_line_step_inv line line_init) as [HR _].
  { split; [constructor | intros []]. }
  apply Forall_app. split.
  - eapply Forall_impl; [|exact HR]. intros f [T _]. apply trimmed_trim, T.
  - constructor; [apply trim_idem | constructor].
Qed.

Lemma nth_field_trimmed (line : jsstring) (i : nat) :
  trim (nth i (parseCSVLine line) []) = nth i (parseCSVLine line) [].
Proof.
  destruct (nth_in_or_default i (parseCSVLine line) []) as [H| ->]; [|reflexivity].
  pose proof (parseCSVLine_trim_fixed line) as F.
  rewrite Forall_forall in F. apply (F _ H).
Qed.

Lemma is_empty_nil (s : jsstring) : is_empty s = true <-> s = [].
Proof. destruct s; simpl; split; congruence. Qed.

Lemma truthy_str_Some (s : jsstring) : truthy_str (Some s) = negb (is_empty s).
Proof. destruct s; reflexivity. Qed.

Lemma row_out_admits (headers : list jsstring) (line : jsstring) :
  row_out headers line =
  if admits headers line then [row_transaction headers line] else [].
Proof.
  unfold row_out, admits, accepted, row_transaction.
  destruct (short_row line); [reflexivity|]. cbn [negb andb].
  rewrite forEach_date, forEach_category. cbn [date category empty_transaction].
  destruct (last_header ColDate headers) as [i|]; [|reflexivity].
  destruct (last_header ColCategory headers) as [j|];
    [|cbn [truthy_str]; rewrite andb_false_r; reflexivity].
  cbn [Nat.add]. rewrite !truthy_str_Some.
  replace (is_empty (normalizeDate (nth i (parseCSVLine line) [])))
    with (is_empty (nth i (parseCSVLine line) [])); [reflexivity|].
  destruct (is_empty (nth i (parseCSVLine line) [])) eqn:E.
  - apply is_empty_nil in E. rewrite E. reflexivity.
  - symmetry. apply not_true_is_false. intros H. apply is_empty_nil in H.
    apply normalizeDate_nil in H. rewrite nth_field_trimmed in H.
    rewrite H in E. discriminate.
Qed.

Section AdmittedRows.

Variable toLowerCase : jsstring -> jsstring.

(** X8. The output of [parseCSV] has one record for each admitted data
    row, in the order of the rows: a row is admitted when it has at
    least three fields and non-empty cells under the date column and
    the category column.  Without a date column or without a category
    column nothing is returned. *)
Theorem parseCSV_admitted_rows (text : jsstring) :
  parseCSV toLowerCase text =
    map (row_transaction (csv_headers toLowerCase text))
        (filter (admits (csv_headers toLowerCase text)) (data_rows text)) /\
  (last_header ColDate (csv_headers toLowerCase text) = None \/
   last_header ColCategory (csv_headers toLowerCase text) = None ->
   parseCSV toLowerCase text = []).
Proof.
  assert (E : parseCSV toLowerCase text =
    map (row_transaction (csv_headers toLowerCase text))
        (filter (admits (csv_headers toLowerCase text)) (data_rows text))).
  { unfold parseCSV. fold (data_rows text). rewrite fold_row_step. simpl.
    induction (data_rows text) as [|l rows IH]; simpl; [reflexivity|].
    rewrite row_out_admits, IH.
    destruct (admits _ l); reflexivity. }
  split; [exact E|]. intros H. rewrite E. clear E.
  replace (filter _ (data_rows text)) with (@nil jsstring); [reflexivity|].
  symmetry. induction (data_rows text) as [|l rows IH]; simpl; [reflexivity|].
  replace (admits (csv_headers toLowerCase text) l) with false; [exact IH|].
  unfold admits. destruct H as [-> | ->].
  - rewrite andb_false_r. reflexivity.
  - destruct (last_header ColDate _); rewrite andb_false_r; reflexivity.
Qed.

End AdmittedRows.

Lemma parseCSV_admitted_rows_witness :
  parseCSV ascii_toLowerCase (js "Category,Income,Expense" ++ [NEWLINE]
                              ++ js "Food,0,12.50") = [].
Proof.
  apply (parseCSV_admitted_rows ascii_toLowerCase
           (js "Category,Income,Expense" ++ [NEWLINE] ++ js "Food,0,12.50")).
  left. reflexivity.
Defined.

(** Every row prepared for insertion carries the book and the user of
    the component and no labels; its category is never empty, its
    optional texts are null rather than empty, and its amounts are never
    [NaN].  For an accepted record the date is a non-empty string and
    the category is the one of the record. *)
Lemma toInsert_fields (bookId userId : jsstring) (t : RawTransaction) :
  ins_book_id (toInsert bookId userId t) = bookId /\
  ins_user_id (toInsert bookId userId t) = userId /\
  ins_labels (toInsert bookId userId t) = None /\
  ins_category (toInsert bookId userId t) <> [] /\
  ins_subcategory (toInsert bookId userId t) <> Some [] /\
  ins_note (toInsert bookId userId t) <> Some [] /\
  ins_paid_from (toInsert bookId userId t) <> Some [] /\
  ins_income (toInsert bookId userId t) <> NaN /\
  ins_expense (toInsert bookId userId t) <> NaN /\
  (accepted t = true ->
   (exists d, ins_date (toInsert bookId userId t) = Some d /\ d <> []) /\
   category t = Some (ins_category (toInsert bookId userId t))).
Proof.
  assert (S : forall o, str_or_null o <> Some []).
  { intros [[|c s]|]; discriminate. }
  assert (A : forall o, num_or_zero o <> NaN).
  { intros [x|]; [apply or_zero_not_NaN | discriminate]. }
  unfold toInsert. cbn. repeat (split; [solve [auto] |]).
  split; [destruct (category t) as [[|c s]|]; discriminate|].
  repeat (split; [solve [auto] |]).
  intros H. unfold accepted in H. apply andb_true_iff in H. destruct H as [D C].
  split; [apply truthy_str_spec, D|].
  destruct (category t) as [[|c s]|]; try discriminate. reflexivity.
Qed.

End RowFacts.

(** ** The earlier upload component against the later one *)

Module LegacyFacts.
Import JS Upload JSFacts ObjFacts TokenizerFacts RowFacts.

Lemma header_column_same (h : jsstring) :
  Upload.header_column h = Legacy.header_column h.
Proof.
  unfold Upload.header_column, Legacy.header_column.
  destruct (includes (js "date") h) eqn:D; [reflexivity|].
  destruct (str_eqb h (js "date")) eqn:E; [|reflexivity].
  apply str_eqb_eq in E. subst h. discriminate D.
Qed.

Lemma cell_nth (l : list jsstring) (i : nat) :
  nth i (map trim l) [] = Legacy.cell l i.
Proof.
  unfold Legacy.cell. revert i.
  induction l as [|v l IH]; intros [|i]; simpl; auto.
Qed.

Lemma split_on_pieces (sep : jschar -> bool) (s w : jsstring) (c : jschar) :
  In w (split_on sep s) -> In c w -> In c s /\ sep c = false.
Proof.
  revert w. induction s as [|x s IH]; intros w; simpl.
  - intros [<-|[]] [].
  - destruct (sep x) eqn:S.
    + intros [<-|Hw] Hc; [destruct Hc|]. destruct (IH w Hw Hc). auto.
    + destruct (split_on sep s) as [|w0 ws] eqn:Sp.
      * intros [<-|[]] [<-|[]]. auto.
      * intros [<-|Hw] Hc.
        -- destruct Hc as [<-|Hc]; [auto|].
           destruct (IH w0 (or_introl eq_refl) Hc). auto.
        -- destruct (IH w (or_intror Hw) Hc). auto.
Qed.

Lemma remove_all_none (c : jschar) (v : jsstring) :
  ~ In c v -> remove_all c v = v.
Proof.
  unfold remove_all. induction v as [|x v IH]; intros H; simpl; [reflexivity|].
  destruct (char_eqb x c) eqn:E.
  - apply LineFacts.char_eqb_eq in E. subst x. contradiction H. left. reflexivity.
  - simpl. rewrite IH; [reflexivity|]. intros Hc. apply H. right. exact Hc.
Qed.

Lemma parseNumber_plain (v : jsstring) :
  ~ In COMMA v -> parseNumber v = or_zero (parseFloat v).
Proof.
  intros H. destruct v as [|c v]; [reflexivity|].
  unfold parseNumber. cbn [is_empty]. rewrite remove_all_none by exact H.
  reflexivity.
Qed.

Lemma cell_no_comma (l : list jsstring) (i : nat) :
  (forall w, In w l -> ~ In COMMA w) -> ~ In COMMA (Legacy.cell l i).
Proof.
  intros H. unfold Legacy.cell. destruct (nth_error l i) as [v|] eqn:E.
  - intros C. apply trim_In in C. apply nth_error_In in E. exact (H v E C).
  - intros [].
Qed.

Lemma cell_trimmed (l : list jsstring) (i : nat) :
  trim (Legacy.cell l i) = Legacy.cell l i.
Proof.
  unfold Legacy.cell. destruct (nth_error l i); [apply trim_idem|reflexivity].
Qed.

(** One header: the later component stores what the earlier one did,
    but for the date, which it normalises. *)
Lemma assign_legacy (l : list jsstring) (t : RawTransaction)
    (h : jsstring) (i : nat) :
  (forall w, In w l -> ~ In COMMA w) ->
  (forall v, date t = Some v -> trim v = v) ->
  Upload.assign (map trim l) (Legacy.with_normalized_date t) h i =
    Legacy.with_normalized_date (Legacy.assign l t h i) /\
  (forall v, date (Legacy.assign l t h i) = Some v -> trim v = v).
Proof.
  intros C T. unfold Upload.assign, Legacy.assign.
  rewrite header_column_same, cell_nth.
  pose proof (parseNumber_plain _ (cell_no_comma l i C)) as P.
  destruct (Legacy.header_column h) as [[]|];
    (split; [unfold Legacy.with_normalized_date; cbn; rewrite ?P; reflexivity|]);
    cbn; try exact T.
  intros v [= <-]. apply cell_trimmed.
Qed.

Lemma forEach_legacy (l headers : list jsstring) :
  (forall w, In w l -> ~ In COMMA w) ->
  forall (i : nat) (t : RawTransaction),
    (forall v, date t = Some v -> trim v = v) ->
    Upload.forEach_header (map trim l) headers i (Legacy.with_normalized_date t) =
      Legacy.with_normalized_date (Legacy.forEach_header l headers i t) /\
    (forall v, date (Legacy.forEach_header l headers i t) = Some v -> trim v = v).
Proof.
  intros C. induction headers as [|h headers IH]; intros i t T; simpl.
  - split; [reflexivity|exact T].
  - destruct (assign_legacy l t h i C T) as [E T']. rewrite E. apply IH, T'.
Qed.

Lemma truthy_normalized (v : jsstring) :
  trim v = v -> truthy_str (Some (normalizeDate v)) = truthy_str (Some v).
Proof.
  intros T. pose proof (normalizeDate_nil v) as N. rewrite T in N.
  destruct v as [|c v].
  - rewrite (proj2 N eq_refl). reflexivity.
  - destruct (normalizeDate (c :: v)) as [|x y] eqn:E; [|reflexivity].
    discriminate (proj1 N eq_refl).
Qed.

Lemma row_step_legacy (headers : list jsstring) (acc : list RawTransaction)
    (line : jsstring) :
  ~ In QUOTE line ->
  Upload.row_step headers (map Legacy.with_normalized_date acc) line =
  map Legacy.with_normalized_date (Legacy.row_step headers acc line).
Proof.
  intros Q. unfold Upload.row_step, Legacy.row_step, Legacy.split_commas.
  rewrite (parseCSVLine_unquoted line Q), length_map.
  set (l := split_on (fun x => char_eqb x COMMA) line).
  destruct (length l <? 3); [reflexivity|].
  assert (C : forall w, In w l -> ~ In COMMA w).
  { intros w Hw Hc. destruct (split_on_pieces _ _ _ _ Hw Hc) as [_ F].
    discriminate F. }
  destruct (forEach_legacy l headers C 0 empty_transaction) as [E T];
    [discriminate|].
  change (Legacy.with_normalized_date empty_transaction)
    with empty_transaction in E.
  rewrite E.
  set (t := Legacy.forEach_header l headers 0 empty_transaction) in *.
  assert (D : truthy_str (date (Legacy.with_normalized_date t))
              = truthy_str (date t)).
  { cbn [Legacy.with_normalized_date date]. destruct (date t) as [v|] eqn:Dt;
      [|reflexivity]. apply truthy_normalized, T. reflexivity. }
  rewrite D. cbn [Legacy.with_normalized_date category].
  destruct (truthy_str (date t) && truthy_str (category t)); [|reflexivity].
  rewrite map_app. reflexivity.
Qed.

Lemma rows_legacy (headers : list jsstring) (lines : list jsstring) :
  Forall (fun line => ~ In QUOTE line) lines ->
  forall acc,
    fold_left (Upload.row_step headers) lines (map Legacy.with_normalized_date acc) =
    map Legacy.with_normalized_date (fold_left (Legacy.row_step headers) lines acc).
Proof.
  induction 1 as [|line lines Q F IH]; intros acc; simpl; [reflexivity|].
  rewrite row_step_legacy by exact Q. apply IH.
Qed.

Lemma csv_lines_unquoted (text : jsstring) :
  ~ In QUOTE text -> Forall (fun line => ~ In QUOTE line) (csv_lines text).
Proof.
  intros Q. apply Forall_forall. intros line Hl Hq. unfold csv_lines in Hl.
  destruct (split_on_pieces _ _ _ _ Hl Hq) as [I _]. apply trim_In in I.
  exact (Q I).
Qed.

(** X9. On a file without a double quote the upload component and its
    earlier version, which split lines at every comma and kept dates as
    written, accept the same rows and read them alike, but for the date,
    which the later version normalises. *)
Theorem parseCSV_legacy (toLowerCase : jsstring -> jsstring) (text : jsstring) :
  ~ In QUOTE text ->
  Upload.parseCSV toLowerCase text =
  map Legacy.with_normalized_date (Legacy.parseCSV toLowerCase text).
Proof.
  intros Q. pose proof (csv_lines_unquoted text Q) as F.
  unfold Upload.parseCSV, Legacy.parseCSV, csv_headers, Legacy.split_commas.
  assert (Q0 : ~ In QUOTE (nth 0 (csv_lines text) [])).
  { destruct (csv_lines text) as [|l0 ls]; [intros []|].
    inversion F; subst. assumption. }
  rewrite (parseCSVLine_unquoted _ Q0), map_map.
  rewrite (map_ext (fun x => toLowerCase (trim (trim x)))
                   (fun h => toLowerCase (trim h)))
    by (intros h; rewrite trim_idem; reflexivity).
  apply (rows_legacy _ (tl (csv_lines text))) with (acc := []).
  destruct (csv_lines text) as [|l0 ls]; [constructor|].
  inversion F; subst. assumption.
Qed.

Lemma parseCSV_legacy_witness :
  Upload.parseCSV ascii_toLowerCase Legacy.american_csv =
  map Legacy.with_normalized_date
      (Legacy.parseCSV ascii_toLowerCase Legacy.american_csv).
Proof.
  apply (parseCSV_legacy ascii_toLowerCase Legacy.american_csv).
  intros H. vm_compute in H.
  repeat (destruct H as [H|H]; [discriminate|]). exact H.
Defined.

(** The dates differ: the earlier version keeps the American style. *)
Example parseCSV_legacy_dates :
  map date (Legacy.parseCSV ascii_toLowerCase Legacy.american_csv)
    = [Some (js "1/5/2024")] /\
  map date (Upload.parseCSV ascii_toLowerCase Legacy.american_csv)
    = [Some (js "2024-01-05")].
Proof. split; reflexivity. Qed.

End LegacyFacts.

(** ** The file handler: every path *)

Module HandlerPaths.
Import JS Upload CsvFacts HandlerFacts Sent RowFacts.

Section Paths.

Variable toLowerCase : jsstring -> jsstring.
Variable Store : Type.
Variable db_insert : list InsertRow -> Store -> Store * option jsstring.
Variables bookId userId : jsstring.

Local Abbreviation handle :=
  (handleFileSelect toLowerCase db_insert bookId userId).

Local Abbreviation rows_of content :=
  (map (toInsert bookId userId) (parseCSV toLowerCase content)).

(** X10. A successful upload: for a [.csv] file whose text parses to at
    least one record and whose insert the store accepts, the handler
    sends the prepared rows once, shows the number of parsed
    transactions, calls the completion callback once, empties the file
    input and leaves the uploading flag off. *)
Theorem handleFileSelect_success (file : File) (st : UploadState Store)
    (content : jsstring) (store' : Store) :
  endsWith (js ".csv") (name file) = true ->
  text file = inl content ->
  parseCSV toLowerCase content <> [] ->
  db_insert (rows_of content) (store st) = (store', None) ->
  handle (Some file) st =
  MkState false
          (match fileInputValue st with Some _ => Some [] | None => None end)
          (toasts st ++ [ToastSuccess (length (parseCSV toLowerCase content))])
          (insertRequests st ++ [rows_of content])
          store'
          (S (uploadsCompleted st)).
Proof.
  intros E T P D. unfold handleFileSelect, try_block, insert.
  rewrite E, T. cbn [negb].
  destruct (length (parseCSV toLowerCase content) =? 0) eqn:L.
  { apply length_zero_nil in L. contradiction. }
  cbn [store setIsUploading]. rewrite D. reflexivity.
Qed.

(** X11. A failed upload: when the store reports an error the rows have
    been sent once, the error message is shown (a fixed text when the
    message is empty), the completion callback is not called and the
    file input keeps its value; when the file cannot be read nothing is
    sent at all.  The uploading flag ends off in both cases. *)
Theorem handleFileSelect_failure (file : File) (st : UploadState Store) :
  endsWith (js ".csv") (name file) = true ->
  (forall content store' message,
     text file = inl content ->
     parseCSV toLowerCase content <> [] ->
     db_insert (rows_of content) (store st) = (store', Some message) ->
     handle (Some file) st =
     MkState false (fileInputValue st)
             (toasts st ++ [ToastError (shown_message message)])
             (insertRequests st ++ [rows_of content])
             store' (uploadsCompleted st)) /\
  (forall message,
     text file = inr message ->
     handle (Some file) st =
     MkState false (fileInputValue st)
             (toasts st ++ [ToastError (shown_message message)])
             (insertRequests st) (store st) (uploadsCompleted st)).
Proof.
  intros E. split.
  - intros content store' message T P D.
    unfold handleFileSelect, try_block, insert. rewrite E, T. cbn [negb].
    destruct (length (parseCSV toLowerCase content) =? 0) eqn:L.
    { apply length_zero_nil in L. contradiction. }
    cbn [store setIsUploading]. rewrite D. reflexivity.
  - intros message T. unfold handleFileSelect, try_block. rewrite E, T.
    reflexivity.
Qed.

(** X12. Whatever the file and the store do, one run of the handler
    shows exactly one notification, sends at most one insert request,
    and calls the completion callback only after a request the store
    accepted, at most once; every row it sends is well formed. *)
Theorem handleFileSelect_once (file : File) (st : UploadState Store) :
  length (toasts (handle (Some file) st)) = S (length (toasts st)) /\
  (insertRequests (handle (Some file) st) = insertRequests st \/
   exists rows,
     insertRequests (handle (Some file) st) = insertRequests st ++ [rows] /\
     rows <> [] /\ Forall (well_formed_row bookId userId) rows) /\
  (uploadsCompleted (handle (Some file) st) = uploadsCompleted st \/
   uploadsCompleted (handle (Some file) st) = S (uploadsCompleted st) /\
   insertRequests (handle (Some file) st) <> insertRequests st /\
   exists n, toasts (handle (Some file) st) = toasts st ++ [ToastSuccess n]).
Proof.
  unfold handleFileSelect.
  destruct (endsWith (js ".csv") (name file)); cbn [negb].
  2:{ cbn. rewrite length_app. simpl. split; [lia|]. auto. }
  unfold try_block. destruct (text file) as [content|message].
  2:{ cbn. rewrite length_app. simpl. split; [lia|]. auto. }
  destruct (length (parseCSV toLowerCase content) =? 0) eqn:L.
  { cbn. rewrite length_app. simpl. split; [lia|]. auto. }
  assert (R : rows_of content <> [] /\
              Forall (well_formed_row bookId userId) (rows_of content)).
  { split.
    - intros H. apply map_eq_nil in H. rewrite H in L. discriminate.
    - apply Forall_forall. intros r Hr. apply in_map_iff in Hr.
      destruct Hr as (t & <- & Ht). apply parseCSV_In in Ht.
      destruct Ht as (line & _ & _ & _ & A).
      pose proof (toInsert_fields bookId userId t)
        as (B & U & Lb & C & Sc & Nt & Pf & I & X & Acc).
      destruct (Acc A) as [D _]. unfold well_formed_row. auto 12. }
  assert (NE : forall (l : list (list InsertRow)) x, l ++ [x] <> l).
  { intros l x H. apply (f_equal (@length _)) in H.
    rewrite length_app in H. simpl in H. lia. }
  unfold insert. cbn [store setIsUploading].
  destruct (db_insert _ _) as [store' [message|]]; cbn;
    rewrite length_app; simpl; (split; [lia|]); split.
  - right. eexists. split; [reflexivity | exact R].
  - left. reflexivity.
  - right. eexists. split; [reflexivity | exact R].
  - right. split; [reflexivity|]. split; [apply NE | eauto].
Qed.

End Paths.

Lemma handleFileSelect_success_witness :
  handleFileSelect ascii_toLowerCase list_insert (js "book") (js "user")
    (Some (MkFile (js "march.csv") (inl sample_csv))) idle =
  MkState false (Some [])
          [ToastSuccess 1]
          [map (toInsert (js "book") (js "user"))
               (parseCSV ascii_toLowerCase sample_csv)]
          (map (toInsert (js "book") (js "user"))
               (parseCSV ascii_toLowerCase sample_csv))
          1.
Proof.
  apply (handleFileSelect_success ascii_toLowerCase _ list_insert (js "book")
           (js "user") (MkFile (js "march.csv") (inl sample_csv)) idle
           sample_csv); try reflexivity.
  discriminate.
Defined.

Lemma handleFileSelect_failure_witness :
  handleFileSelect ascii_toLowerCase list_insert (js "book") (js "user")
    (Some (MkFile (js "march.csv") (inr (js "")))) idle =
  MkState false (fileInputValue idle)
          [ToastError (js "Failed to upload CSV")] [] [] 0 /\
  toasts (handleFileSelect ascii_toLowerCase refusing_insert (js "book") (js "user")
            (Some (MkFile (js "march.csv") (inl sample_csv))) idle) =
  [ToastError (js "duplicate key")].
Proof.
  destruct (handleFileSelect_failure ascii_toLowerCase _ list_insert (js "book")
              (js "user") (MkFile (js "march.csv") (inr (js ""))) idle)
    as [_ R]; [reflexivity|].
  destruct (handleFileSelect_failure ascii_toLowerCase _ refusing_insert (js "book")
              (js "user") (MkFile (js "march.csv") (inl sample_csv)) idle)
    as [Q _]; [reflexivity|].
  split.
  - apply (R (js "")). reflexivity.
  - rewrite (Q sample_csv [] (js "duplicate key"));
      [reflexivity | reflexivity | discriminate | reflexivity].
Defined.

Lemma handleFileSelect_once_witness :
  length (toasts (handleFileSelect ascii_toLowerCase refusing_insert (js "book")
                    (js "user")
                    (Some (MkFile (js "march.csv") (inl sample_csv))) idle)) = 1.
Proof.
  apply (handleFileSelect_once ascii_toLowerCase _ refusing_insert (js "book")
           (js "user") (MkFile (js "march.csv") (inl sample_csv)) idle).
Defined.

End HandlerPaths.

(** ** Sums of the charts *)

Module SummaryFacts.
Import JS Dashboard SortFacts ObjFacts TopN Summary.
Import AggregationFacts MonthlyFacts TrendFacts OrderFacts.
Local Open Scope Z_scope.

Lemma or0_id (x : Z) : or0 x = x.
Proof. unfold or0. destruct (Z.eqb_spec x 0); auto. Qed.


Lemma totalIncome_sum (ts : list Transaction) :
  totalIncome ts = fold_right Z.add 0 (map income ts).
Proof.
  unfold totalIncome.
  assert (G : forall a, fold_left (fun sum t => sum + or0 (income t)) ts a =
                        a + fold_right Z.add 0 (map income ts)).
  { induction ts as [|t ts IH]; intros a; simpl; [lia|].
    rewrite IH, or0_id. lia. }
  rewrite G. lia.
Qed.







(** Entries are sums of positive expenses. *)
Lemma expense_sum_positive (p : Transaction -> bool) (ts : list Transaction) :
  (forall t, p t = true -> 0 < expense t) ->
  (exists t, In t ts /\ p t = true) ->
  0 < expense_sum p ts.
Proof.
  intros Hp (t & Hin & Ht). unfold expense_sum.
  assert (G : forall l, Forall (fun x => 0 < x) l -> l <> [] ->
                        0 < fold_right Z.add 0 l).
  { induction 1 as [|x l Hx F IH]; intros N; [contradiction|]. simpl.
    destruct l; [simpl; lia|]. specialize (IH ltac:(discriminate)). lia. }
  apply G.
  - apply Forall_forall. intros x Hx. apply in_map_iff in Hx.
    destruct Hx as (u & <- & Hu). apply filter_In in Hu. apply Hp, Hu.
  - intros E. assert (I : In (expense t) (map expense (filter p ts))).
    { apply in_map, filter_In. auto. }
    rewrite E in I. destruct I.
Qed.

Lemma aggregates_positive (ts : list Transaction) (r : list NameValue) :
  aggregates category ts r -> Forall (fun e => 0 < value e) r.
Proof.
  intros [_ H]. apply Forall_forall. intros [n v] Hin. cbn [value].
  apply H in Hin. destruct Hin as [(t & Hin & Hp & Hl) ->].
  apply expense_sum_positive.
  - intros u Hu. apply spends_on_spec in Hu. apply Hu.
  - exists t. split; [exact Hin|]. apply spends_on_spec. auto.
Qed.

End SummaryFacts.

(** ** The subcategory chart *)

Module SubcategoryFacts.
Import JS Dashboard SortFacts ObjFacts TopN Summary.
Import AggregationFacts MonthlyFacts TrendFacts SummaryFacts.
Local Open Scope Z_scope.

Section Keyed.

Variable key : Transaction -> option jsstring.





End Keyed.








End SubcategoryFacts.

(** ** The monthly trend: totals and order *)

Module TrendTotals.
Import JS Dashboard ChartSection Summary SortFacts ObjFacts MonthlyFacts
       TrendFacts.
Local Open Scope Z_scope.






Lemma canonical_keys (ts : list Transaction) :
  Forall (fun t => Upload.is_canonical (date t)) (spending ts) ->
  Forall (fun t => monthKey t <> None) (spending ts).
Proof.
  intros F. eapply Forall_impl; [|exact F]. intros t. apply monthKey_defined.
Qed.


(** A label such as [Mar 2024 01] is not a date [parseISO] reads: every
    sort date is invalid and the buckets stay in the order in which
    their months are first met. *)
Lemma monthlyData_own_first_seen parse_pieces (ts : list Transaction) :
  Forall (fun t => Upload.is_canonical (date t)) (spending ts) ->
  exists buckets,
    monthlyData parse_pieces ts monthly = Some buckets /\
    Forall (fun b => sortDate b = None) buckets /\
    map month buckets = distinct (month_keys ts).
Proof.
  intros F.
  destruct (monthlyData_monthly parse_pieces ts (canonical_keys ts F))
    as (M & I & E).
  exists (map (bucket_of parse_pieces) M). split; [exact E|]. split.
  - apply Forall_forall. intros b Hb. apply in_map_iff in Hb.
    destruct Hb as ([k c] & <- & Hin).
    assert (Hk : In k (distinct (month_keys ts))).
    { rewrite <- (inv_keys _ _ I). change k with (fst (k, c)). apply in_map, Hin. }
    apply distinct_In, month_keys_In in Hk. destruct Hk as (t & _ & _ & K).
    destruct (monthKey_spaced t k K) as (x & y & ->).
    cbn [bucket_of sortDate fst]. apply parseISO_spaced.
  - rewrite map_map. cbn [bucket_of month]. apply (inv_keys _ _ I).
Qed.

End TrendTotals.

(** ** The period navigator *)

Module NavigatorFacts.
Import JS Dashboard ChartSection CalendarFacts Navigator.
Local Open Scope Z_scope.

(** The calendar date of a day is valid and counts back to the day. *)
Lemma doe_of_civil_of doe :
  0 <= doe < 146097 ->
  let '(yoe, m, d) := civil_of_doe doe in
  doe_of_civil yoe m d = doe /\ 0 <= yoe <= 399 /\ 1 <= m <= 12 /\ 1 <= d /\
  d <= days_in_month (yoe + (if m <=? 2 then 1 else 0)) m.
Proof.
  intros H. unfold civil_of_doe.
  set (yoe := (doe - doe / 1460 + doe / 36524 - doe / 146096) / 365).
  set (doy := doe - (365 * yoe + yoe / 4 - yoe / 100)).
  assert (Hy : 0 <= yoe <= 399) by (subst yoe; div_lia).
  assert (Hdoy : 0 <= doy <= 365 /\
                 (doy = 365 ->
                  ((yoe + 1) mod 4 = 0 /\ (yoe + 1) mod 100 <> 0) \/
                  (yoe + 1) mod 400 = 0)).
  { subst doy yoe. div_lia. }
  assert (E : doe = 365 * yoe + yoe / 4 - yoe / 100 + doy) by (subst doy; lia).
  clearbody doy. clearbody yoe.
  set (mp := (5 * doy + 2) / 153).
  assert (Hmp : 0 <= mp <= 11) by (subst mp; div_lia).
  set (m := if mp <? 10 then mp + 3 else mp - 9).
  assert (Hm : 1 <= m <= 12 /\ (if 2 <? m then m - 3 else m + 9) = mp).
  { subst m. destruct (Z.ltb_spec mp 10).
    - destruct (Z.ltb_spec 2 (mp + 3)); lia.
    - destruct (Z.ltb_spec 2 (mp - 9)); lia. }
  destruct Hm as [Hm Em].
  split; [|split; [exact Hy|split; [exact Hm|]]].
  - unfold doe_of_civil. rewrite Em. lia.
  - pose proof (days_in_month_cases (yoe + (if m <=? 2 then 1 else 0)) m Hm) as C.
    assert (Dm : (m <=? 2) = (10 <=? mp)).
    { subst m. destruct (Z.ltb_spec mp 10), (Z.leb_spec 10 mp); lia. }
    rewrite Dm in *.
    assert (M : m = if mp <? 10 then mp + 3 else mp - 9) by reflexivity.
    clearbody m.
    destruct (Z.ltb_spec mp 10), (Z.leb_spec 10 mp); try lia; subst mp;
      split; div_lia.
Qed.

Lemma days_from_civil_from_days (z : Z) :
  let '(y, m, d) := civil_from_days z in
  1 <= m <= 12 /\ 1 <= d <= days_in_month y m /\ days_from_civil y m d = z.
Proof.
  unfold civil_from_days.
  set (z' := z + 719468). set (era := z' / 146097).
  assert (H : 0 <= z' - era * 146097 < 146097) by (subst era; div_lia).
  pose proof (doe_of_civil_of _ H) as R.
  destruct (civil_of_doe (z' - era * 146097)) as [[yoe m] d].
  destruct R as (E & Hy & Hm & Hd1 & Hd2).
  split; [exact Hm|]. split.
  - split; [exact Hd1|].
    replace ((if m <=? 2 then 1 else 0) + yoe + era * 400)
      with ((yoe + (if m <=? 2 then 1 else 0)) + 400 * era) by lia.
    rewrite days_in_month_era by exact Hm. exact Hd2.
  - unfold days_from_civil.
    set (y' := if m <=? 2
               then (if m <=? 2 then 1 else 0) + yoe + era * 400 - 1
               else (if m <=? 2 then 1 else 0) + yoe + era * 400).
    assert (Y : y' = yoe + era * 400) by (subst y'; destruct (m <=? 2); lia).
    rewrite Y.
    replace ((yoe + era * 400) / 400) with era by div_lia.
    replace (yoe + era * 400 - era * 400) with yoe by lia.
    rewrite E. subst z'. lia.
Qed.

(** The three readings of a day, gathered. *)
Lemma day_civil (day : Z) :
  1 <= month_of day + 1 <= 12 /\
  1 <= date_of day <= days_in_month (year_of day) (month_of day + 1) /\
  days_from_civil (year_of day) (month_of day + 1) (date_of day) = day.
Proof.
  unfold year_of, month_of, date_of.
  pose proof (days_from_civil_from_days day) as H.
  destruct (civil_from_days day) as [[y m] d]. cbn [fst snd].
  replace (m - 1 + 1) with m by lia. exact H.
Qed.

Lemma civil_of_valid (y m d : Z) :
  1 <= m <= 12 -> 1 <= d <= days_in_month y m ->
  year_of (days_from_civil y m d) = y /\
  month_of (days_from_civil y m d) = m - 1 /\
  date_of (days_from_civil y m d) = d.
Proof.
  intros Hm Hd. unfold year_of, month_of, date_of.
  rewrite civil_from_days_from_civil by assumption. auto.
Qed.

Lemma days_from_civil_shift (y m d k : Z) :
  days_from_civil y m (d + k) = days_from_civil y m d + k.
Proof. unfold days_from_civil, doe_of_civil. lia. Qed.

(** The first day of the next month follows the last day of a month. *)
Lemma next_month_first_day (y m : Z) :
  1 <= m <= 12 ->
  days_from_civil (y + m / 12) (m mod 12 + 1) 1 =
  days_from_civil y m (days_in_month y m) + 1.
Proof.
  intros Hm.
  destruct (days_in_month_cases y m Hm)
    as [(-> & L & ->)|[(-> & L & ->)|[(C & ->)|(C & ->)]]].
  - unfold days_from_civil, doe_of_civil. cbn. div_lia.
  - unfold days_from_civil, doe_of_civil. cbn. div_lia.
  - unfold days_from_civil, doe_of_civil.
    destruct C as [->|[->|[->| ->]]]; cbn; div_lia.
  - unfold days_from_civil, doe_of_civil.
    destruct C as [->|[->|[->|[->|[->|[->| ->]]]]]]; cbn; div_lia.
Qed.

Lemma clip_in (day : Z) : Z.abs day <= 100000000 -> clip day = Some day.
Proof.
  intros H. unfold clip.
  destruct (Z.leb_spec (Z.abs day) 100000000); [reflexivity|lia].
Qed.

Lemma month_count_div (day : Z) :
  month_count day / 12 = year_of day /\
  month_count day mod 12 + 1 = month_of day + 1.
Proof.
  pose proof (day_civil day) as (Hm & _ & _). unfold month_count. div_lia.
Qed.

(** A day is its day of the month past the first day of its month. *)
Lemma day_first_day (day : Z) :
  day = first_day (month_count day) + date_of day - 1.
Proof.
  unfold first_day. destruct (month_count_div day) as [-> ->].
  rewrite days_from_civil_day. symmetry. apply day_civil.
Qed.

Lemma date_of_range (day : Z) :
  1 <= date_of day <= days_in (month_count day).
Proof.
  unfold days_in. destruct (month_count_div day) as [-> ->]. apply day_civil.
Qed.

Lemma first_day_succ (c : Z) : first_day (c + 1) = first_day c + days_in c.
Proof.
  unfold first_day, days_in.
  set (y := c / 12). set (m := c mod 12 + 1).
  assert (Hm : 1 <= m <= 12) by (subst m; div_lia).
  pose proof (next_month_first_day y m Hm) as N.
  rewrite <- (days_from_civil_day y m (days_in_month y m)) in N.
  replace ((c + 1) / 12) with (y + m / 12) by (subst y m; div_lia).
  replace ((c + 1) mod 12 + 1) with (m mod 12 + 1) by (subst m; div_lia).
  lia.
Qed.

Lemma days_in_range (c : Z) : 28 <= days_in c <= 31.
Proof.
  unfold days_in.
  assert (Hm : 1 <= c mod 12 + 1 <= 12) by div_lia.
  destruct (days_in_month_cases (c / 12) _ Hm)
    as [(_ & _ & E)|[(_ & _ & E)|[(_ & E)|(_ & E)]]]; lia.
Qed.

(** The days of a month are those from its first day up to the day
    before the first day of the next month. *)
Lemma month_count_first_day (c x : Z) :
  first_day c <= x < first_day (c + 1) <-> month_count x = c.
Proof.
  split.
  - intros H. rewrite first_day_succ in H.
    unfold first_day, days_in in *.
    set (y := c / 12) in *. set (m := c mod 12 + 1) in *.
    assert (Hm : 1 <= m <= 12) by (subst m; div_lia).
    set (d := x - days_from_civil y m 1 + 1).
    assert (E : x = days_from_civil y m d).
    { rewrite <- days_from_civil_day. subst d. lia. }
    assert (Hd : 1 <= d <= days_in_month y m) by (subst d; lia).
    destruct (civil_of_valid y m d Hm Hd) as (Y & M & _).
    unfold month_count. rewrite E, Y, M. subst y m. div_lia.
  - intros <-. rewrite first_day_succ.
    pose proof (day_first_day x). pose proof (date_of_range x). lia.
Qed.

Lemma first_day_mono (c k : Z) :
  0 <= k -> first_day c + 28 * k <= first_day (c + k) <= first_day c + 31 * k.
Proof.
  intros Hk. pattern k. apply natlike_ind; [| |exact Hk]; clear k Hk.
  - replace (c + 0) with c by lia. lia.
  - intros k Hk IH. replace (c + Z.succ k) with (c + k + 1) by lia.
    rewrite first_day_succ. pose proof (days_in_range (c + k)). lia.
Qed.

Lemma first_day_lt (c c' : Z) : c < c' -> first_day (c + 1) <= first_day c'.
Proof.
  intros H. pose proof (first_day_mono (c + 1) (c' - c - 1) ltac:(lia)) as M.
  replace (c + 1 + (c' - c - 1)) with c' in M by lia. lia.
Qed.

(** [setDate] moves within the days around the month of the date. *)
Lemma setDate_spec (day d : Z) :
  setDate day d = clip (day - date_of day + d).
Proof.
  unfold setDate. f_equal.
  pose proof (day_civil day) as (_ & _ & E).
  rewrite <- (days_from_civil_day _ _ (date_of day)) in E. lia.
Qed.

Lemma setFullYear_spec (y m d : Z) :
  setFullYear y m d = clip (first_day (12 * y + m) + d - 1).
Proof.
  unfold setFullYear, first_day. f_equal. f_equal. f_equal.
  f_equal; [div_lia|f_equal; div_lia].
Qed.

Lemma first_day_back (c k : Z) :
  0 <= k -> first_day c - 31 * k <= first_day (c - k) <= first_day c - 28 * k.
Proof.
  intros Hk. pose proof (first_day_mono (c - k) k Hk) as M.
  replace (c - k + k) with c in M by lia. lia.
Qed.

Lemma month_of_range (day : Z) : 0 <= month_of day <= 11.
Proof. pose proof (day_civil day). lia. Qed.

Lemma getDay_range (day : Z) : 0 <= getDay day <= 6.
Proof. unfold getDay. div_lia. Qed.

Lemma month_count_eq (day : Z) :
  month_count day = year_of day * 12 + month_of day.
Proof. reflexivity. Qed.

(** A day lies in its month and in its year. *)
Lemma month_contains (cur : Z) :
  first_day (month_count cur) <= cur <= first_day (month_count cur + 1) - 1 /\
  first_day (month_count cur + 1) - first_day (month_count cur) <= 31.
Proof.
  pose proof (proj2 (month_count_first_day (month_count cur) cur) eq_refl) as M.
  pose proof (first_day_succ (month_count cur)) as S.
  pose proof (days_in_range (month_count cur)). lia.
Qed.

Lemma year_contains (cur : Z) :
  first_day (12 * year_of cur) <= cur <= first_day (12 * year_of cur + 12) - 1 /\
  first_day (12 * year_of cur + 12) - first_day (12 * year_of cur) <= 372.
Proof.
  pose proof (month_contains cur) as [M _].
  pose proof (month_of_range cur) as R.
  pose proof (month_count_eq cur) as E.
  pose proof (first_day_mono (12 * year_of cur) (month_of cur) ltac:(lia)) as A.
  pose proof (first_day_mono (month_count cur + 1) (11 - month_of cur) ltac:(lia)) as B.
  pose proof (first_day_mono (12 * year_of cur) 12 ltac:(lia)) as Y.
  replace (12 * year_of cur + month_of cur) with (month_count cur) in A by lia.
  replace (month_count cur + 1 + (11 - month_of cur))
    with (12 * year_of cur + 12) in B by lia.
  lia.
Qed.

(** What [dateRange] computes. *)
Lemma dateRange_weekly_eq (cur : Z) :
  Z.abs cur <= 99999600 ->
  dateRange weekly cur =
  MkRange (Some (cur - getDay cur)) (Some (cur - getDay cur + 6)).
Proof.
  intros H. unfold dateRange, startOfWeek, endOfWeek, weekStartsOn.
  pose proof (getDay_range cur) as G.
  destruct (Z.ltb_spec (getDay cur) 0) as [N|_]; [lia|].
  rewrite !setDate_spec.
  replace (cur - date_of cur + (date_of cur - (0 + getDay cur - 0)))
    with (cur - getDay cur) by lia.
  replace (cur - date_of cur + (date_of cur + (0 + 6 - (getDay cur - 0))))
    with (cur - getDay cur + 6) by lia.
  rewrite !clip_in by lia. reflexivity.
Qed.

Lemma dateRange_monthly_eq (cur : Z) :
  Z.abs cur <= 99999600 ->
  dateRange monthly cur =
  MkRange (Some (first_day (month_count cur)))
          (Some (first_day (month_count cur + 1) - 1)).
Proof.
  intros H. pose proof (month_contains cur) as [C L].
  unfold dateRange, startOfMonth, endOfMonth.
  rewrite setDate_spec, setFullYear_spec.
  pose proof (day_first_day cur) as D.
  pose proof (month_count_eq cur) as M.
  replace (12 * year_of cur + (month_of cur + 1))
    with (month_count cur + 1) by lia.
  replace (cur - date_of cur + 1) with (first_day (month_count cur)) by lia.
  replace (first_day (month_count cur + 1) + 0 - 1)
    with (first_day (month_count cur + 1) - 1) by lia.
  rewrite !clip_in by lia. reflexivity.
Qed.

Lemma dateRange_yearly_eq (cur : Z) :
  Z.abs cur <= 99999600 ->
  dateRange yearly cur =
  MkRange (Some (first_day (12 * year_of cur)))
          (Some (first_day (12 * year_of cur + 12) - 1)).
Proof.
  intros H. pose proof (year_contains cur) as [C L].
  unfold dateRange, startOfYear, endOfYear. rewrite !setFullYear_spec.
  replace (12 * year_of cur + 0) with (12 * year_of cur) by lia.
  replace (12 * (year_of cur + 1) + 0) with (12 * year_of cur + 12) by lia.
  replace (first_day (12 * year_of cur) + 1 - 1)
    with (first_day (12 * year_of cur)) by lia.
  replace (first_day (12 * year_of cur + 12) + 0 - 1)
    with (first_day (12 * year_of cur + 12) - 1) by lia.
  rewrite !clip_in by lia. reflexivity.
Qed.


(** The days of a year. *)
Lemma year_of_first_day (y x : Z) :
  first_day (12 * y) <= x < first_day (12 * y + 12) <-> year_of x = y.
Proof.
  pose proof (month_contains x) as [M _].
  pose proof (month_of_range x) as R.
  pose proof (month_count_eq x) as Ex.
  split.
  - intros H. destruct (Z.lt_trichotomy (year_of x) y) as [L|[E|G]]; [|exact E|].
    + pose proof (first_day_lt (month_count x) (12 * y) ltac:(lia)). lia.
    + pose proof (first_day_mono (12 * y + 12) (month_count x - (12 * y + 12))
                    ltac:(lia)) as A.
      replace (12 * y + 12 + (month_count x - (12 * y + 12)))
        with (month_count x) in A by lia. lia.
  - intros <-. pose proof (year_contains x) as [C _]. lia.
Qed.

(** What [addMonths] computes: the same day of the month, or the last
    day of a shorter month. *)
Lemma addMonths_spec (cur k : Z) :
  Z.abs (first_day (month_count cur + k)) <= 99999900 ->
  addMonths cur k =
  Some (first_day (month_count cur + k)
        + Z.min (date_of cur) (days_in (month_count cur + k)) - 1).
Proof.
  intros H. set (c := month_count cur) in *.
  pose proof (date_of_range cur) as D. fold c in D.
  pose proof (days_in_range (c + k)) as L.
  unfold addMonths. destruct (Z.eqb_spec k 0) as [->|N].
  - f_equal. rewrite Z.add_0_r in *. pose proof (day_first_day cur). fold c in H0. lia.
  - rewrite setFullYear_spec.
    replace (12 * year_of cur + (month_of cur + k + 1)) with (c + k + 1)
      by (subst c; unfold month_count; lia).
    rewrite first_day_succ.
    set (e := first_day (c + k) + days_in (c + k) + 0 - 1).
    rewrite (clip_in e) by (subst e; lia).
    assert (Me : month_count e = c + k).
    { apply month_count_first_day. rewrite first_day_succ. subst e. lia. }
    assert (De : date_of e = days_in (c + k)).
    { pose proof (day_first_day e) as F. rewrite Me in F. subst e. lia. }
    rewrite De. destruct (Z.leb_spec (days_in (c + k)) (date_of cur)).
    + f_equal. subst e. lia.
    + rewrite setFullYear_spec.
      replace (12 * year_of e + month_of e) with (c + k)
        by (rewrite <- Me; unfold month_count; lia).
      rewrite clip_in by lia. f_equal. lia.
Qed.

Lemma addMonths_month (cur k : Z) :
  Z.abs cur <= 99999490 -> -12 <= k <= 12 ->
  exists n,
    addMonths cur k = Some n /\
    month_count n = month_count cur + k /\
    date_of n = Z.min (date_of cur) (days_in (month_count n)) /\
    Z.abs (n - cur) <= 403.
Proof.
  intros H K. set (c := month_count cur).
  pose proof (day_first_day cur) as F. fold c in F.
  pose proof (date_of_range cur) as D. fold c in D.
  pose proof (days_in_range c) as Lc.
  pose proof (days_in_range (c + k)) as L.
  assert (B : first_day c - 31 * 12 <= first_day (c + k) <= first_day c + 31 * 12).
  { destruct (Z.le_ge_cases 0 k) as [P|P].
    - pose proof (first_day_mono c k P). lia.
    - pose proof (first_day_back c (- k) ltac:(lia)) as A.
      replace (c - - k) with (c + k) in A by lia. lia. }
  exists (first_day (c + k) + Z.min (date_of cur) (days_in (c + k)) - 1).
  assert (M : month_count
                (first_day (c + k) + Z.min (date_of cur) (days_in (c + k)) - 1)
              = c + k).
  { apply month_count_first_day. rewrite first_day_succ. lia. }
  split; [apply addMonths_spec; fold c; lia|].
  split; [exact M|]. split; [|lia].
  rewrite M.
  pose proof (day_first_day
                (first_day (c + k) + Z.min (date_of cur) (days_in (c + k)) - 1))
    as G.
  rewrite M in G. lia.
Qed.

Lemma addWeeks_spec (cur k : Z) :
  Z.abs (cur + k * 7) <= 100000000 -> addWeeks cur k = Some (cur + k * 7).
Proof.
  intros H. unfold addWeeks, addDays. rewrite setDate_spec.
  rewrite <- clip_in by exact H. f_equal. lia.
Qed.

Lemma getDay_week (cur k : Z) : getDay (cur + k * 7) = getDay cur.
Proof. unfold getDay. div_lia. Qed.

Lemma year_of_month_count (day : Z) : year_of day = month_count day / 12.
Proof. symmetry. apply month_count_div. Qed.

Lemma year_of_shift (a b k : Z) :
  month_count a = month_count b + 12 * k ->
  year_of a = year_of b + k.
Proof.
  intros E. rewrite !year_of_month_count, E. div_lia.
Qed.

(** The day of a valid transaction date reads back as that date. *)
Lemma new_Date_day (year monthIndex day : Z) (dt : Date) :
  new_Date year monthIndex day = Some dt ->
  year_of (day_of_Date dt) = getFullYear dt /\
  month_of (day_of_Date dt) = getMonth dt /\
  day_of_Date dt =
    days_from_civil (full_year year + monthIndex / 12) (monthIndex mod 12 + 1) 1
    + day - 1.
Proof.
  unfold new_Date.
  set (n := days_from_civil (full_year year + monthIndex / 12)
                            (monthIndex mod 12 + 1) 1 + day - 1).
  pose proof (days_from_civil_from_days n) as R.
  destruct (Z.abs n <=? 100000000); [|discriminate].
  unfold year_of, month_of, day_of_Date.
  destruct (civil_from_days n) as [[y m] d] eqn:C. intros [= <-].
  cbn [getFullYear getMonth getDate].
  replace (m - 1 + 1) with m by lia.
  destruct R as (_ & _ & ->). rewrite C. auto.
Qed.

Lemma transactionDate_day (t : Transaction) (dt : Date) :
  transactionDate t = Some dt ->
  transaction_day t = Some (day_of_Date dt) /\
  year_of (day_of_Date dt) = getFullYear dt /\
  month_of (day_of_Date dt) = getMonth dt.
Proof.
  intros E. unfold transaction_day. rewrite E. split; [reflexivity|].
  unfold transactionDate in E.
  destruct (map Number_of_digits _) as [|[y|] [|[m|] [|[d|] ?]]];
    try discriminate.
  apply new_Date_day in E. tauto.
Qed.

Lemma days_from_civil_near (y m d : Z) :
  -1 <= y <= 10007 -> 1 <= m <= 12 -> 0 <= d <= 99 ->
  Z.abs (days_from_civil y m d) <= 4000000.
Proof.
  intros Hy Hm Hd. unfold days_from_civil, doe_of_civil.
  destruct (Z.leb_spec m 2), (Z.ltb_spec 2 m); try lia;
    apply Z.abs_le; div_lia.
Qed.

(** A date in the form the upload stores always has a day, some
    thousands of years from the epoch at most. *)
Lemma canonical_day (t : Transaction) :
  Upload.is_canonical (date t) ->
  exists dt, transactionDate t = Some dt /\ Z.abs (day_of_Date dt) <= 4000000.
Proof.
  intros C. pose proof (TrendFacts.monthKey_defined t C) as K.
  destruct C as (y & m & d & E & Hy & Hm & Hd).
  pose proof (TrendFacts.transactionDate_canonical t y m d E Hy Hm Hd) as T.
  unfold monthKey in K.
  destruct (transactionDate t) as [dt|] eqn:D; [|contradiction K; reflexivity].
  exists dt. split; [reflexivity|].
  symmetry in T. apply new_Date_day in T. destruct T as (_ & _ & ->).
  pose proof (TrendFacts.digits_to_N_4 _ Hy). pose proof (TrendFacts.digits_to_N_2 _ Hm).
  pose proof (TrendFacts.digits_to_N_2 _ Hd).
  rewrite days_from_civil_day.
  assert (Fy : 0 <= full_year (Z.of_N (digits_to_N y)) <= 9999).
  { unfold full_year.
    destruct ((0 <=? Z.of_N (digits_to_N y)) && (Z.of_N (digits_to_N y) <=? 99))
      eqn:B; [|lia].
    apply andb_true_iff in B. rewrite !Z.leb_le in B. lia. }
  apply days_from_civil_near; div_lia.
Qed.


(** X16. Under the weekly granularity the window is the week of the
    reference date from its Sunday to its Saturday: seven days that
    hold the date. *)
Theorem dateRange_weekly (cur : Z) :
  within_reach cur ->
  exists s,
    dateRange weekly cur = MkRange (Some s) (Some (s + 6)) /\
    getDay s = 0 /\ getDay (s + 6) = 6 /\ s <= cur <= s + 6.
Proof.
  unfold within_reach. intros H. exists (cur - getDay cur).
  split; [apply dateRange_weekly_eq; lia|].
  pose proof (getDay_range cur) as G.
  unfold getDay in *. repeat split; div_lia.
Qed.

Lemma dateRange_weekly_witness :
  within_reach 19782 /\
  exists s,
    dateRange weekly 19782 = MkRange (Some s) (Some (s + 6)) /\
    getDay s = 0 /\ getDay (s + 6) = 6 /\ s <= 19782 <= s + 6.
Proof.
  split; [unfold within_reach; lia|].
  apply (dateRange_weekly 19782). unfold within_reach. lia.
Defined.

(** X17. Under the monthly granularity the window is the calendar
    month of the reference date: a day lies between its start and its
    end exactly when it has the year and the month of that date. *)
Theorem dateRange_monthly (cur : Z) :
  within_reach cur ->
  exists s e,
    dateRange monthly cur = MkRange (Some s) (Some e) /\
    forall x, s <= x <= e <->
              year_of x = year_of cur /\ month_of x = month_of cur.
Proof.
  unfold within_reach. intros H.
  exists (first_day (month_count cur)), (first_day (month_count cur + 1) - 1).
  split; [apply dateRange_monthly_eq; lia|]. intros x.
  pose proof (month_count_first_day (month_count cur) x) as M.
  pose proof (month_of_range x). pose proof (month_of_range cur).
  pose proof (month_count_eq x) as Ex. pose proof (month_count_eq cur) as Ec.
  split.
  - intros B. assert (E : month_count x = month_count cur) by (apply M; lia).
    lia.
  - intros [Y Mo].
    assert (B : first_day (month_count cur) <= x < first_day (month_count cur + 1))
      by (apply M; lia).
    lia.
Qed.

Lemma dateRange_monthly_witness :
  within_reach 19782 /\
  exists s e,
    dateRange monthly 19782 = MkRange (Some s) (Some e) /\
    forall x, s <= x <= e <->
              year_of x = year_of 19782 /\ month_of x = month_of 19782.
Proof.
  split; [unfold within_reach; lia|].
  apply (dateRange_monthly 19782). unfold within_reach. lia.
Defined.

(** X18. Under the yearly granularity the window is the calendar year
    of the reference date. *)
Theorem dateRange_yearly (cur : Z) :
  within_reach cur ->
  exists s e,
    dateRange yearly cur = MkRange (Some s) (Some e) /\
    forall x, s <= x <= e <-> year_of x = year_of cur.
Proof.
  unfold within_reach. intros H.
  exists (first_day (12 * year_of cur)), (first_day (12 * year_of cur + 12) - 1).
  split; [apply dateRange_yearly_eq; lia|]. intros x.
  pose proof (year_of_first_day (year_of cur) x) as Y. split.
  - intros B. apply Y. lia.
  - intros E. apply Y in E. lia.
Qed.

Lemma dateRange_yearly_witness :
  within_reach 19782 /\
  exists s e,
    dateRange yearly 19782 = MkRange (Some s) (Some e) /\
    forall x, s <= x <= e <-> year_of x = year_of 19782.
Proof.
  split; [unfold within_reach; lia|].
  apply (dateRange_yearly 19782). unfold within_reach. lia.
Defined.

(** X19. Among transactions dated in the form the upload stores, the
    monthly view keeps, in their order, exactly those whose date falls
    in the year and the month of the reference date. *)
Theorem filteredTransactions_monthly (transactions : list Transaction) (cur : Z) :
  within_reach cur ->
  Forall (fun t => Upload.is_canonical (date t)) transactions ->
  filteredTransactions transactions (dateRange monthly cur) =
  filter (fun t => match transactionDate t with
                   | Some dt => (getFullYear dt =? year_of cur)
                                && (getMonth dt =? month_of cur)
                   | None => false
                   end) transactions.
Proof.
  unfold within_reach. intros H F. unfold filteredTransactions.
  apply filter_ext_in. intros t Ht.
  rewrite Forall_forall in F. destruct (canonical_day t (F t Ht)) as (dt & D & _).
  rewrite D. destruct (transactionDate_day t dt D) as (T & Y & M).
  destruct (dateRange_monthly cur H) as (s & e & R & W). rewrite R.
  unfold in_range. rewrite T. cbn [range_start range_end].
  rewrite <- Y, <- M. specialize (W (day_of_Date dt)).
  destruct ((s <=? day_of_Date dt) && (day_of_Date dt <=? e)) eqn:B.
  - rewrite andb_true_iff, !Z.leb_le in B. apply W in B. destruct B as [-> ->].
    rewrite !Z.eqb_refl. reflexivity.
  - symmetry. apply not_true_is_false. intros A.
    rewrite andb_true_iff, !Z.eqb_eq in A. apply W in A.
    rewrite <- !Z.leb_le, <- andb_true_iff in A. congruence.
Qed.

Lemma filteredTransactions_monthly_witness :
  filteredTransactions three_months (dateRange monthly 19782) =
  [paid "2024-02-11" "Food" 3000].
Proof.
  rewrite (filteredTransactions_monthly three_months 19782).
  - reflexivity.
  - unfold within_reach. lia.
  - repeat constructor; apply TrendFacts.canonicalb_spec; reflexivity.
Defined.

(** The steps of the navigator by months: one month, or twelve. *)
Lemma handle_months_spec (tp : TimePeriod) (cur : Z) :
  tp <> weekly -> Z.abs cur <= 99999490 ->
  exists n p,
    handleNext tp cur = Some n /\ handlePrevious tp cur = Some p /\
    month_count n = month_count cur + stride tp /\
    month_count p = month_count cur - stride tp /\
    date_of n = Z.min (date_of cur) (days_in (month_count n)) /\
    date_of p = Z.min (date_of cur) (days_in (month_count p)) /\
    Z.abs (n - cur) <= 403 /\ Z.abs (p - cur) <= 403.
Proof.
  intros W H.
  destruct (addMonths_month cur (stride tp) H) as (n & En & Mn & Dn & Bn);
    [destruct tp; cbn; lia|].
  destruct (addMonths_month cur (- stride tp) H) as (p & Ep & Mp & Dp & Bp);
    [destruct tp; cbn; lia|].
  exists n, p.
  destruct tp; [contradiction W; reflexivity| |];
    cbn [handleNext handlePrevious stride] in *;
    unfold subMonths, subYears, addYears;
    repeat split; try assumption; lia.
Qed.

(** X20. One step by months moves the reference date to the next or
    the previous month (or the same month a year later or earlier) and
    keeps its day of the month, unless that month is too short: then
    the date is the last day of that month. *)
Theorem handle_months (tp : TimePeriod) (cur : Z) :
  tp <> weekly -> within_reach cur ->
  exists n p,
    handleNext tp cur = Some n /\ handlePrevious tp cur = Some p /\
    month_count n = month_count cur + stride tp /\
    month_count p = month_count cur - stride tp /\
    date_of n = Z.min (date_of cur) (days_in (month_count n)) /\
    date_of p = Z.min (date_of cur) (days_in (month_count p)).
Proof.
  unfold within_reach. intros W H.
  destruct (handle_months_spec tp cur W ltac:(lia))
    as (n & p & A & B & C & D & E & F & _).
  exists n, p. auto 10.
Qed.

Lemma handle_months_witness :
  exists n p,
    handleNext monthly 19753 = Some n /\ handlePrevious monthly 19753 = Some p /\
    month_count n = month_count 19753 + stride monthly /\
    month_count p = month_count 19753 - stride monthly /\
    date_of n = Z.min (date_of 19753) (days_in (month_count n)) /\
    date_of p = Z.min (date_of 19753) (days_in (month_count p)).
Proof.
  apply (handle_months monthly 19753); [discriminate|].
  unfold within_reach. lia.
Defined.

Lemma handle_weeks_spec (cur : Z) :
  Z.abs cur <= 99999900 ->
  handleNext weekly cur = Some (cur + 7) /\
  handlePrevious weekly cur = Some (cur - 7).
Proof.
  intros H. cbn [handleNext handlePrevious]. unfold subWeeks.
  rewrite !addWeeks_spec by lia. split; f_equal; lia.
Qed.

(** X21. The window after a step forward starts on the day after the
    current window ends, and the window after a step back ends on the
    day before the current window starts: stepping neither skips a day
    nor shows one twice. *)
Theorem handleNext_adjacent (tp : TimePeriod) (cur : Z) :
  within_reach cur ->
  exists s e n p,
    dateRange tp cur = MkRange (Some s) (Some e) /\
    handleNext tp cur = Some n /\ handlePrevious tp cur = Some p /\
    range_start (dateRange tp n) = Some (e + 1) /\
    range_end (dateRange tp p) = Some (s - 1).
Proof.
  unfold within_reach. intros H. destruct tp.
  - destruct (handle_weeks_spec cur ltac:(lia)) as [N P].
    exists (cur - getDay cur), (cur - getDay cur + 6), (cur + 7), (cur - 7).
    rewrite !dateRange_weekly_eq by lia. cbn [range_start range_end].
    pose proof (getDay_week cur 1) as G1. pose proof (getDay_week cur (-1)) as G2.
    replace (cur + 1 * 7) with (cur + 7) in G1 by lia.
    replace (cur + (-1) * 7) with (cur - 7) in G2 by lia.
    rewrite G1, G2.
    repeat split; try assumption; f_equal; lia.
  - destruct (handle_months_spec monthly cur ltac:(discriminate) ltac:(lia))
      as (n & p & N & P & Mn & Mp & _ & _ & Bn & Bp).
    exists (first_day (month_count cur)), (first_day (month_count cur + 1) - 1),
           n, p.
    rewrite !dateRange_monthly_eq by lia. cbn [range_start range_end].
    replace (stride monthly) with 1 in * by reflexivity.
    rewrite Mn, Mp.
    replace (month_count cur - 1 + 1) with (month_count cur) by lia.
    repeat split; try assumption; f_equal; lia.
  - destruct (handle_months_spec yearly cur ltac:(discriminate) ltac:(lia))
      as (n & p & N & P & Mn & Mp & _ & _ & Bn & Bp).
    exists (first_day (12 * year_of cur)),
           (first_day (12 * year_of cur + 12) - 1), n, p.
    rewrite !dateRange_yearly_eq by lia. cbn [range_start range_end].
    replace (stride yearly) with 12 in * by reflexivity.
    rewrite (year_of_shift n cur 1) by lia.
    rewrite (year_of_shift p cur (-1)) by lia.
    replace (12 * (year_of cur + 1)) with (12 * year_of cur + 12) by lia.
    replace (12 * (year_of cur + -1) + 12) with (12 * year_of cur) by lia.
    repeat split; try assumption; f_equal; lia.
Qed.

Lemma handleNext_adjacent_witness :
  exists s e n p,
    dateRange monthly 19753 = MkRange (Some s) (Some e) /\
    handleNext monthly 19753 = Some n /\ handlePrevious monthly 19753 = Some p /\
    range_start (dateRange monthly n) = Some (e + 1) /\
    range_end (dateRange monthly p) = Some (s - 1).
Proof.
  apply (handleNext_adjacent monthly 19753). unfold within_reach. lia.
Defined.

(** X22. A step forward followed by a step back shows the window one
    started from.  The reference date itself comes back under the
    weekly granularity; under the other two it may come back earlier
    in its month, never later. *)
Theorem handlePrevious_handleNext (tp : TimePeriod) (cur : Z) :
  within_reach cur ->
  exists n b,
    handleNext tp cur = Some n /\ handlePrevious tp n = Some b /\
    dateRange tp b = dateRange tp cur /\
    b <= cur /\ (tp = weekly -> b = cur).
Proof.
  unfold within_reach. intros H. destruct tp.
  - destruct (handle_weeks_spec cur ltac:(lia)) as [N _].
    destruct (handle_weeks_spec (cur + 7) ltac:(lia)) as [_ P].
    exists (cur + 7), cur. replace (cur + 7 - 7) with cur in P by lia.
    repeat split; try assumption; lia.
  - destruct (handle_months_spec monthly cur ltac:(discriminate) ltac:(lia))
      as (n & _ & N & _ & Mn & _ & Dn & _ & Bn & _).
    destruct (handle_months_spec monthly n ltac:(discriminate) ltac:(lia))
      as (_ & b & _ & P & _ & Mb & _ & Db & _ & Bb).
    exists n, b. replace (stride monthly) with 1 in * by reflexivity.
    assert (M : month_count b = month_count cur) by lia.
    pose proof (day_first_day b) as Fb. pose proof (day_first_day cur) as Fc.
    pose proof (date_of_range b) as Rb. pose proof (date_of_range cur) as Rc.
    pose proof (days_in_range (month_count cur)) as Lc.
    rewrite M in Fb.
    split; [exact N|]. split; [exact P|]. split.
    + rewrite !dateRange_monthly_eq by lia. rewrite M. reflexivity.
    + split; [lia|discriminate].
  - destruct (handle_months_spec yearly cur ltac:(discriminate) ltac:(lia))
      as (n & _ & N & _ & Mn & _ & Dn & _ & Bn & _).
    destruct (handle_months_spec yearly n ltac:(discriminate) ltac:(lia))
      as (_ & b & _ & P & _ & Mb & _ & Db & _ & Bb).
    exists n, b. replace (stride yearly) with 12 in * by reflexivity.
    assert (M : month_count b = month_count cur) by lia.
    pose proof (day_first_day b) as Fb. pose proof (day_first_day cur) as Fc.
    pose proof (date_of_range b) as Rb. pose proof (date_of_range cur) as Rc.
    pose proof (days_in_range (month_count cur)) as Lc.
    rewrite M in Fb.
    split; [exact N|]. split; [exact P|]. split.
    + rewrite !dateRange_yearly_eq by lia.
      rewrite (year_of_shift b cur 0) by lia.
      rewrite Z.add_0_r. reflexivity.
    + split; [lia|discriminate].
Qed.

Lemma handlePrevious_handleNext_witness :
  exists n b,
    handleNext monthly 19753 = Some n /\ handlePrevious monthly n = Some b /\
    dateRange monthly b = dateRange monthly 19753 /\
    b <= 19753 /\ (monthly = weekly -> b = 19753).
Proof.
  apply (handlePrevious_handleNext monthly 19753). unfold within_reach. lia.
Defined.

(** From 31 January 2024 a step forward gives 29 February, and the step
    back 29 January. *)
Example handlePrevious_handleNext_clamps :
  handleNext monthly 19753 = Some 19782 /\
  handlePrevious monthly 19782 = Some 19751.
Proof. split; reflexivity. Qed.




End NavigatorFacts.

(** ** Object literals and lists of own properties

    On keys that name no member of [Object.prototype] an object literal
    is the list of its own properties: the computations on object
    literals then return what those on lists return. *)

Module LiteralFacts.
Import JS Dashboard ObjectLiteral ChartSectionLiteral SortFacts ObjFacts.
Local Open Scope Z_scope.

Lemma ordinary_not_proto (k : jsstring) : ordinary k -> str_eqb k PROTO = false.
Proof. unfold ordinary, inherited. intros H. apply orb_false_iff in H. apply H. Qed.

Section Values.

Context {V W : Type}.
Variable f : V -> W.

Lemma on_values_get (o : obj V) (k : jsstring) :
  obj_get (on_values f o) k = option_map f (obj_get o k).
Proof.
  induction o as [|[k0 v0] o IH]; simpl; [reflexivity|].
  destruct (str_eqb k0 k); [reflexivity|exact IH].
Qed.

Lemma on_values_set (o : obj V) (k : jsstring) (v : V) :
  obj_set (on_values f o) k (f v) = on_values f (obj_set o k v).
Proof.
  induction o as [|[k0 v0] o IH]; simpl; [reflexivity|].
  destruct (str_eqb k0 k); simpl; [reflexivity|]. rewrite IH. reflexivity.
Qed.

Lemma on_values_filter (p : jsstring -> bool) (o : obj V) :
  filter (fun e => p (fst e)) (on_values f o) =
  on_values f (filter (fun e => p (fst e)) o).
Proof.
  induction o as [|[k0 v0] o IH]; simpl; [reflexivity|].
  destruct (p k0); simpl; rewrite IH; reflexivity.
Qed.

End Values.

Section SortMap.

Context {A B : Type}.
Variable h : A -> B.
Variable compareA : A -> A -> option Z.
Variable compareB : B -> B -> option Z.
Hypothesis compare_h : forall a b, compareB (h a) (h b) = compareA a b.

Lemma sort_insert_map (a : A) (l : list A) :
  sort_insert compareB (h a) (map h l) = map h (sort_insert compareA a l).
Proof.
  induction l as [|b l IH]; simpl; [reflexivity|].
  unfold keeps_before. rewrite compare_h.
  destruct (match compareA a b with Some v => v <=? 0 | None => true end);
    simpl; [reflexivity|]. rewrite IH. reflexivity.
Qed.

Lemma sort_map (l : list A) :
  sort compareB (map h l) = map h (sort compareA l).
Proof.
  unfold sort. induction l as [|a l IH]; simpl; [reflexivity|].
  rewrite IH. apply sort_insert_map.
Qed.

End SortMap.

Lemma Object_entries_on_values {V W : Type} (f : V -> W) (o : obj V) :
  Object_entries (on_values f o) = on_values f (Object_entries o).
Proof.
  unfold Object_entries.
  rewrite (on_values_filter f is_array_index).
  rewrite (on_values_filter f (fun k => negb (is_array_index k))).
  unfold on_values at 3. rewrite map_app. f_equal.
  apply (sort_map (fun e : jsstring * V => (fst e, f (snd e)))).
  reflexivity.
Qed.

Lemma numbers_on_values (g : obj Z) : numbers g = on_values Num g.
Proof. reflexivity. Qed.

(** *** The category chart *)

Lemma add_to_numbers (g : obj Z) (k : jsstring) (a : Z) :
  ordinary k -> add_to (numbers g) k a = numbers (ChartSection.add_to g k a).
Proof.
  intros O. unfold add_to, ChartSection.add_to.
  rewrite (ordinary_not_proto k O), !numbers_on_values, on_values_get.
  unfold ordinary in O. rewrite O.
  destruct (obj_get g k) as [v|]; cbn [option_map]; apply on_values_set.
Qed.

Lemma group_fold_numbers (ts : list Transaction) :
  Forall (fun t => ordinary (category t)) (ChartSection.spending ts) ->
  forall g, fold_left group_step ts (numbers g) =
            numbers (fold_left ChartSection.group_step ts g).
Proof.
  induction ts as [|t ts IH]; intros F g; [reflexivity|].
  cbn [fold_left]. unfold ChartSection.spending in *. cbn [filter] in F.
  unfold group_step at 2, ChartSection.group_step at 2.
  destruct (0 <? expense t).
  - inversion F as [|? ? O F']; subst.
    rewrite (add_to_numbers g _ _ O). apply IH, F'.
  - apply IH, F.
Qed.

Lemma map_throwing_entries (l : obj Z) :
  map_throwing entry_of (numbers l) = Some (map ChartSection.entry_of l).
Proof.
  unfold numbers, on_values. induction l as [|[k v] l IH]; [reflexivity|].
  cbn [map map_throwing]. rewrite IH. reflexivity.
Qed.

(** Without inherited names among the categories of the positive
    expenses, the chart is the one computed on own properties. *)
Lemma categoryData_ordinary (ts : list Transaction) :
  Forall (fun t => ordinary (category t)) (ChartSection.spending ts) ->
  categoryData ts = Some (ChartSection.categoryData ts).
Proof.
  intros F. unfold categoryData, group_by_category.
  change (@nil (jsstring * held)) with (numbers []).
  rewrite (group_fold_numbers ts F), numbers_on_values, Object_entries_on_values.
  rewrite <- numbers_on_values, map_throwing_entries. reflexivity.
Qed.

(** *** The subcategory chart *)



(** *** The monthly trend *)

Lemma nested_on_values (M : obj (obj Z)) : nested_numbers M = on_values numbers M.
Proof. reflexivity. Qed.

Lemma month_step_numbers (M : obj (obj Z)) (t : Transaction) :
  (0 < expense t -> ordinary (category t)) ->
  month_step (Some (nested_numbers M)) t =
  option_map nested_numbers (ChartSection.month_step (Some M) t).
Proof.
  intros O. unfold month_step, ChartSection.month_step.
  destruct (Z.ltb_spec 0 (expense t)) as [P|P]; [|reflexivity].
  specialize (O P). destruct (ChartSection.monthKey t) as [k|]; [|reflexivity].
  cbn [option_map]. f_equal. rewrite !nested_on_values, on_values_get.
  destruct (obj_get M k) as [c|] eqn:G; cbn [option_map].
  - rewrite on_values_get, G. cbn [option_map].
    rewrite add_to_numbers by exact O. apply on_values_set.
  - change (@nil (jsstring * held)) with (numbers []).
    rewrite on_values_set, on_values_get, obj_get_set, str_eqb_refl.
    cbn [option_map]. rewrite add_to_numbers by exact O. apply on_values_set.
Qed.

Lemma month_fold_numbers (ts : list Transaction) :
  Forall (fun t => ordinary (category t)) (ChartSection.spending ts) ->
  forall acc,
    fold_left month_step ts (option_map nested_numbers acc) =
    option_map nested_numbers (fold_left ChartSection.month_step ts acc).
Proof.
  induction ts as [|t ts IH]; intros F acc; [reflexivity|].
  cbn [fold_left].
  assert (F' : Forall (fun t => ordinary (category t)) (ChartSection.spending ts)).
  { unfold ChartSection.spending in *. cbn [filter] in F.
    destruct (0 <? expense t); [inversion F; assumption|exact F]. }
  destruct acc as [M|].
  - cbn [option_map]. rewrite month_step_numbers; [apply IH, F'|].
    intros P. unfold ChartSection.spending in F. cbn [filter] in F.
    apply Z.ltb_lt in P. rewrite P in F. inversion F; assumption.
  - cbn [option_map]. apply (IH F' None).
Qed.

Lemma plus_numbers (l : list Z) (a : Z) :
  fold_left plus (map Num l) (Num a) = Num (fold_left Z.add l a).
Proof. revert a. induction l as [|x l IH]; intros a; simpl; [reflexivity|apply IH]. Qed.

Lemma bucket_of_numbers parse_pieces (e : jsstring * obj Z) :
  bucket_of parse_pieces (fst e, numbers (snd e)) =
  Some (bucket_numbers (ChartSection.bucket_of parse_pieces e)).
Proof.
  unfold bucket_of, ChartSection.bucket_of, bucket_numbers, Object_values.
  cbn [fst snd]. rewrite numbers_on_values, Object_entries_on_values.
  unfold on_values. rewrite map_map. cbn [snd].
  rewrite <- (map_map snd Num), plus_numbers. reflexivity.
Qed.

Lemma map_throwing_buckets parse_pieces (l : obj (obj Z)) :
  map_throwing (bucket_of parse_pieces) (nested_numbers l) =
  Some (map bucket_numbers (map (ChartSection.bucket_of parse_pieces) l)).
Proof.
  unfold nested_numbers, on_values. induction l as [|e l IH]; [reflexivity|].
  cbn [map map_throwing]. rewrite bucket_of_numbers, IH. reflexivity.
Qed.

(** Without inherited names among the categories of the positive
    expenses, the trend is the one computed on own properties. *)
Lemma monthlyData_ordinary parse_pieces (ts : list Transaction)
    (timePeriod : ChartSection.TimePeriod) :
  Forall (fun t => ordinary (category t)) (ChartSection.spending ts) ->
  monthlyData parse_pieces ts timePeriod =
  option_map (map bucket_numbers)
             (ChartSection.monthlyData parse_pieces ts timePeriod).
Proof.
  intros F. destruct timePeriod; try reflexivity.
  unfold monthlyData, ChartSection.monthlyData.
  assert (E : fold_left month_step ts (Some []) =
              option_map nested_numbers
                         (fold_left ChartSection.month_step ts (Some [])))
    by exact (month_fold_numbers ts F (Some [])).
  rewrite E.
  destruct (fold_left ChartSection.month_step ts (Some [])) as [M|];
    [|reflexivity].
  cbn [option_map]. rewrite nested_on_values, Object_entries_on_values.
  rewrite <- nested_on_values, map_throwing_buckets. cbn [option_map]. f_equal.
  apply (sort_map bucket_numbers). reflexivity.
Qed.

End LiteralFacts.

(** ** The charts over object literals *)

Module ChartFacts.
Import JS Dashboard ObjectLiteral ChartSectionLiteral SortFacts ObjFacts.
Import TopN Summary LiteralFacts.
Local Open Scope Z_scope.

(** *** Month labels tell calendar months apart *)









(** *** The months written in the dates *)







(** *** The monthly trend *)

Lemma bucket_numbers_month (l : list ChartSection.MonthBucket) :
  map month (map bucket_numbers l) = map ChartSection.month l.
Proof. rewrite map_map. reflexivity. Qed.





(** [new Date] reads the year 24 as 1924: March of the year 24 and
    March 1924 come under one label. *)
Example monthlyData_two_centuries :
  length (months_spanned two_centuries) = 2%nat /\
  option_map (map month)
             (monthlyData (fun _ => None) two_centuries ChartSection.monthly) =
  Some [js "Mar 1924"].
Proof. split; reflexivity. Qed.

(** A category that names a member of [Object.prototype]: under
    [__proto__] the expense is in no bucket, under [toString] the
    computation throws. *)
Example monthlyData_inherited_names :
  option_map (map total)
             (monthlyData (fun _ => None)
                          (ChartSection.paid "2024-03-05" "__proto__" 1250
                             :: ChartSection.three_months)
                          ChartSection.monthly) =
  Some [12000; 3000; 1500] /\
  monthlyData (fun _ => None)
              (ChartSection.paid "2024-03-05" "toString" 1250
                 :: ChartSection.three_months)
              ChartSection.monthly = None.
Proof. split; reflexivity. Qed.





(** X25. The sort of the monthly buckets changes nothing: a label such
    as [Mar 2024 01] is not a date [parseISO] reads, so every sort date
    is invalid and the buckets stay in the order in which their months
    are first met among the rows (dates of the form [YYYY-MM-DD],
    categories that name no member of [Object.prototype]). *)
Theorem monthlyData_first_seen parse_pieces (ts : list Transaction) :
  Forall (fun t => Upload.is_canonical (date t)) (ChartSection.spending ts) ->
  Forall (fun t => ordinary (category t)) (ChartSection.spending ts) ->
  exists buckets,
    monthlyData parse_pieces ts ChartSection.monthly = Some buckets /\
    Forall (fun b => sortDate b = None) buckets /\
    map month buckets = ChartSection.distinct (ChartSection.month_keys ts).
Proof.
  intros F O. rewrite (monthlyData_ordinary parse_pieces ts _ O).
  destruct (TrendTotals.monthlyData_own_first_seen parse_pieces ts F)
    as (own & E & S & K).
  exists (map bucket_numbers own). rewrite E, bucket_numbers_month.
  split; [reflexivity|]. split; [|exact K].
  apply Forall_forall. intros b Hb. apply in_map_iff in Hb.
  destruct Hb as (b0 & <- & Hb). rewrite Forall_forall in S. exact (S b0 Hb).
Qed.

Lemma monthlyData_first_seen_witness :
  exists buckets,
    monthlyData (fun _ => None) ChartSection.three_months ChartSection.monthly
      = Some buckets /\
    Forall (fun b => sortDate b = None) buckets /\
    map month buckets =
      ChartSection.distinct (ChartSection.month_keys ChartSection.three_months).
Proof.
  apply (monthlyData_first_seen (fun _ => None) ChartSection.three_months).
  - repeat constructor; apply TrendFacts.canonicalb_spec; reflexivity.
  - repeat constructor.
Defined.

(** *** The category chart *)

Lemma obj_get_Some_In {V : Type} (o : obj V) (k : jsstring) (v : V) :
  obj_get o k = Some v -> In (k, v) o.
Proof.
  induction o as [|[k0 v0] o IH]; simpl; [discriminate|].
  destruct (str_eqb k0 k) eqn:E.
  - apply str_eqb_eq in E. intros [= ->]. left. congruence.
  - intros H. right. apply IH, H.
Qed.

Lemma obj_set_In {V : Type} (o : obj V) (k k' : jsstring) (v v' : V) :
  In (k', v') (obj_set o k v) -> (k' = k /\ v' = v) \/ In (k', v') o.
Proof.
  induction o as [|[k0 v0] o IH]; simpl.
  - intros [[= <- <-]|[]]. auto.
  - destruct (str_eqb k0 k) eqn:E; simpl.
    + apply str_eqb_eq in E. subst k0. intros [[= <- <-]|H]; auto.
    + intros [H|H]; [auto|]. destruct (IH H); auto.
Qed.

Lemma add_to_no_number (g : obj held) (k : jsstring) (a : Z) :
  no_number_inherited g -> no_number_inherited (add_to g k a).
Proof.
  intros I k' v' H Hk'. unfold add_to in H.
  destruct (str_eqb k PROTO); [exact (I k' v' H Hk')|].
  apply obj_set_In in H. destruct H as [[-> ->]|H]; [|exact (I k' v' H Hk')].
  destruct (obj_get g k) as [[v|]|] eqn:G.
  - apply obj_get_Some_In in G. discriminate (I k _ G Hk').
  - reflexivity.
  - rewrite Hk'. reflexivity.
Qed.

Lemma group_fold_no_number (ts : list Transaction) :
  forall g, no_number_inherited g ->
            no_number_inherited (fold_left group_step ts g).
Proof.
  induction ts as [|t ts IH]; intros g I; simpl; [exact I|].
  apply IH. unfold group_step. destruct (0 <? expense t); [|exact I].
  apply add_to_no_number, I.
Qed.

(** A property, once created, stays. *)
Lemma add_to_keeps (g : obj held) (k k' : jsstring) (a : Z) :
  obj_get g k' <> None -> obj_get (add_to g k a) k' <> None.
Proof.
  intros H. unfold add_to. destruct (str_eqb k PROTO); [exact H|].
  rewrite obj_get_set. destruct (str_eqb k k'); [discriminate|exact H].
Qed.

Lemma group_fold_keeps (ts : list Transaction) (k : jsstring) :
  forall g, obj_get g k <> None ->
            obj_get (fold_left group_step ts g) k <> None.
Proof.
  induction ts as [|t ts IH]; intros g H; simpl; [exact H|].
  apply IH. unfold group_step. destruct (0 <? expense t); [|exact H].
  apply add_to_keeps, H.
Qed.

Lemma group_fold_creates (ts : list Transaction) (t : Transaction) :
  In t ts -> 0 < expense t -> category t <> PROTO ->
  forall g, obj_get (fold_left group_step ts g) (category t) <> None.
Proof.
  intros Hin He Hp. induction ts as [|u ts IH]; [destruct Hin|].
  intros g. simpl. destruct Hin as [->|Hin]; [|apply IH, Hin].
  apply group_fold_keeps. unfold group_step.
  apply Z.ltb_lt in He. rewrite He. unfold add_to.
  apply str_eqb_neq in Hp. rewrite Hp, obj_get_set, str_eqb_refl. discriminate.
Qed.

Lemma map_throwing_None {A B : Type} (f : A -> option B) (l : list A) (a : A) :
  In a l -> f a = None -> map_throwing f l = None.
Proof.
  intros Hin Ha. induction l as [|b l IH]; [destruct Hin|]. simpl.
  destruct Hin as [->|Hin]; [rewrite Ha; reflexivity|].
  rewrite (IH Hin). destruct (f b); reflexivity.
Qed.

Lemma map_throwing_Some {A B : Type} (f : A -> option B) (l : list A) :
  forall r, map_throwing f l = Some r ->
            forall b, In b r -> exists a, In a l /\ f a = Some b.
Proof.
  induction l as [|a l IH]; simpl; intros r H b Hb.
  - injection H as <-. destruct Hb.
  - destruct (f a) as [b0|] eqn:Fa; [|discriminate].
    destruct (map_throwing f l) as [bs|]; [|discriminate].
    injection H as <-. destruct Hb as [<-|Hb].
    + exists a. auto.
    + destruct (IH bs eq_refl b Hb) as (a' & Ha' & E). exists a'. auto.
Qed.

(** C6. The category chart of the section with a navigator fails on a
    category that names a member of [Object.prototype]: for a
    transaction of positive expense under such a category, the basic
    section has an entry under that name, while the section with a
    navigator throws when the name is not [__proto__], and otherwise
    returns a chart without it. *)
Theorem categoryData_inherited_names (ts : list Transaction) (t : Transaction) :
  In t ts -> 0 < expense t -> inherited (category t) = true ->
  In (category t) (map name (ChartSectionBasic.categoryData ts)) /\
  (category t <> PROTO -> categoryData ts = None) /\
  (forall data, categoryData ts = Some data ->
                ~ In (category t) (map name data)).
Proof.
  intros Hin He Hk.
  assert (I : no_number_inherited (group_by_category ts)).
  { apply group_fold_no_number. intros k v []. }
  split; [|split].
  - rewrite AggregationFacts.basic_categoryData_grouped.
    apply (in_map name _
             (MkEntry (category t)
                      (expense_sum (spends_on category (category t)) ts))).
    apply (AggregationFacts.group_by_category_aggregates ts).
    split; [|reflexivity]. exists t. auto.
  - intros Hp. unfold categoryData.
    pose proof (group_fold_creates ts t Hin He Hp []) as G.
    fold (group_by_category ts) in G.
    destruct (obj_get (group_by_category ts) (category t)) as [v|] eqn:Ev;
      [|contradiction G; reflexivity].
    apply obj_get_Some_In in Ev. pose proof (I _ _ Ev Hk) as ->.
    rewrite (map_throwing_None entry_of _ (category t, Text)); [reflexivity| |reflexivity].
    apply (Permutation_in _ (Permutation_sym (Object_entries_perm _))), Ev.
  - intros data E Hn. unfold categoryData in E.
    destruct (map_throwing entry_of (Object_entries (group_by_category ts)))
      as [l|] eqn:M; [|discriminate].
    injection E as <-. apply in_map_iff in Hn. destruct Hn as (e & En & He').
    apply sort_In in He'.
    destruct (map_throwing_Some _ _ _ M e He') as ([k v] & Hkv & F).
    apply (Permutation_in _ (Object_entries_perm _)) in Hkv.
    unfold entry_of in F. cbn [fst snd] in F.
    destruct v as [v|]; [|discriminate]. injection F as <-.
    cbn [name] in En. subst k. discriminate (I _ _ Hkv Hk).
Qed.

Lemma categoryData_inherited_names_witness :
  In (js "__proto__") (map name (ChartSectionBasic.categoryData with_proto)) /\
  (forall data, categoryData with_proto = Some data ->
                ~ In (js "__proto__") (map name data)) /\
  categoryData with_constructor = None.
Proof.
  destruct (categoryData_inherited_names with_proto (TopN.spent "__proto__" 1250))
    as (A & _ & C); [right; left; reflexivity|reflexivity|reflexivity|].
  destruct (categoryData_inherited_names with_constructor
                                         (TopN.spent "constructor" 1250))
    as (_ & B & _); [right; left; reflexivity|reflexivity|reflexivity|].
  split; [exact A|]. split; [exact C|]. apply B. discriminate.
Defined.

(** The two sections on the same rows: a category [__proto__] is in
    the basic chart and missing from the chart of the section with a
    navigator; a category [constructor] makes the latter throw. *)
Example categoryData_lost_and_thrown :
  ChartSectionBasic.categoryData with_proto =
    [MkEntry (js "Food") 3000; MkEntry (js "__proto__") 1250] /\
  categoryData with_proto = Some [MkEntry (js "Food") 3000] /\
  ChartSectionBasic.categoryData with_constructor =
    [MkEntry (js "Food") 3000; MkEntry (js "constructor") 1250] /\
  categoryData with_constructor = None.
Proof. repeat split. Qed.



(** The example of the specification: Food 30, Food 20 and Rent 100
    give Rent 100 and Food 50. *)
Example categoryData_food_rent :
  categoryData food_rent =
  Some [MkEntry (js "Rent") 10000; MkEntry (js "Food") 5000].
Proof. reflexivity. Qed.



(** X14. With categories that name no member of [Object.prototype],
    the category chart of the section with a navigator is in descending
    order of value, and every value in it is positive. *)
Theorem categoryData_sorted_positive (ts : list Transaction) :
  Forall (fun t => ordinary (category t)) (ChartSection.spending ts) ->
  exists data,
    categoryData ts = Some data /\
    StronglySorted (fun a b => value b <= value a) data /\
    Forall (fun e => 0 < value e) data.
Proof.
  intros O. exists (ChartSection.categoryData ts).
  split; [apply categoryData_ordinary, O|]. split.
  - apply (sort_desc value by_value_desc). reflexivity.
  - apply (SummaryFacts.aggregates_positive ts),
          AggregationFacts.categoryData_own_aggregates.
Qed.

Lemma categoryData_sorted_positive_witness :
  exists data,
    categoryData food_rent = Some data /\
    StronglySorted (fun a b => value b <= value a) data /\
    Forall (fun e => 0 < value e) data.
Proof.
  apply (categoryData_sorted_positive food_rent). repeat constructor.
Defined.

(** *** The subcategory chart *)




(** A subcategory that names a member of [Object.prototype]: under
    [__proto__] the expense is missing from the chart, under
    [valueOf] the computation throws. *)
Example subcategoryData_inherited_names :
  subcategoryData None (tagged "Food" "__proto__" 500 :: lunches) =
    Some [MkEntry (js "Flat") 10000; MkEntry (js "Lunch") 1200] /\
  subcategoryData None (tagged "Food" "valueOf" 500 :: lunches) = None.
Proof. split; reflexivity. Qed.

End ChartFacts.
